(** * Looking Glass core: dispatcher, event bus, transports and tab state

    A shallow embedding of the control-surface runtime of
    [@looking-glass/core] (TypeScript):

    - [events/index.ts]      the in-process [EventBus];
    - [mcp/index.ts]         the [MCPServer] dispatcher (tools, resources,
                             notifications);
    - [transports/index.ts]  the [HttpSseTransport] and [WebSocketTransport]
                             connection state machines;
    - [state/index.ts]       the tab slice of the store ([closeTab]).

    Synchronous and [async] functions that can throw are written in a small
    state-and-exception monad over the process heap; the transports, whose
    behaviour is driven by socket, timer and caller events, are written as
    explicit state machines with one transition per callback. *)

From stdpp Require Import base option list gmap strings pretty.
From Stdlib Require Import ZArith Lia Ascii.

Set Default Proof Using "Type".
Open Scope string_scope.
Open Scope list_scope.
Delimit Scope char_scope with char.

(* ======================================================================= *)
(** ** JavaScript values, exceptions and completions *)
(* ======================================================================= *)

(** Values of TypeScript type [unknown] that travel as parameters, results
    and event data: JSON-like trees, and [undefined].  Values on which
    [JSON.stringify] throws (a [BigInt], an object that contains itself)
    are not in this type. *)
#[local] Unset Elimination Schemes.
Inductive Payload : Type :=
| PUndefined
| PNull
| PBool (b : bool)
| PNum (z : Z)
| PStr (s : string)
| PArr (items : list Payload)
| PObj (fields : list (string * Payload)).
#[local] Set Elimination Schemes.

(** What a [throw] statement carries.  The dispatcher distinguishes
    [Error] instances (it reads [error.message]) from every other value
    (it applies [String(error)]); a non-[Error] value is represented by the
    string that [String] converts it to.  [ErrorObject message] is
    [new Error(message)]; [NamedError name message] is an instance of a
    subclass of [Error] such as [TypeError], or an [Error] whose [name]
    was set.  [Unconvertible raised] is a value that cannot be turned
    into text: reading its [message] or applying [String] to it throws
    [raised], as on [Object.create(null)] or on an object whose
    [toString] throws. *)
Inductive Thrown : Type :=
| ErrorObject (message : string)
| OtherValue (asString : string)
| NamedError (name message : string)
| Unconvertible (raised : Thrown).

(** Outcome of running a function body, or of awaiting a promise that has
    settled: a normal return (fulfilment) or a throw (rejection). *)
Inductive Completion (A : Type) : Type :=
| Normal (a : A)
| Throw (e : Thrown).
Arguments Normal {A} a.
Arguments Throw {A} e.

(** [M St A]: a computation over a mutable store [St] that returns an [A]
    or throws.  Mutations made before a throw persist, as in JavaScript. *)
Definition M (St A : Type) : Type := St -> Completion A * St.

Definition ret {St A} (a : A) : M St A := fun s => (Normal a, s).

Definition throw {St A} (e : Thrown) : M St A := fun s => (Throw e, s).

Definition bind {St A B} (m : M St A) (k : A -> M St B) : M St B :=
  fun s =>
    match m s with
    | (Normal a, s') => k a s'
    | (Throw e, s') => (Throw e, s')
    end.

(** [try { body } catch (error) { handler error }] *)
Definition try_catch {St A} (body : M St A) (handler : Thrown -> M St A) : M St A :=
  fun s =>
    match body s with
    | (Normal a, s') => (Normal a, s')
    | (Throw e, s') => handler e s'
    end.

Definition gets {St A} (f : St -> A) : M St A := fun s => (Normal (f s), s).

Definition modify {St} (f : St -> St) : M St unit := fun s => (Normal tt, f s).

(** Running a function that returns or throws without touching the store. *)
Definition lift {St A} (c : Completion A) : M St A := fun s => (c, s).

Declare Scope js_scope.
Delimit Scope js_scope with js.
Notation "x <- m ;; k" := (bind m (fun x => k))
  (at level 100, m at next level, right associativity) : js_scope.
Notation "m ;;; k" := (bind m (fun _ => k))
  (at level 100, right associativity) : js_scope.
Open Scope js_scope.

(** [for (const x of xs) body], with the loop-carried local as accumulator. *)
Fixpoint for_of {St A Acc} (xs : list A) (body : A -> Acc -> M St Acc) (acc : Acc)
  : M St Acc :=
  match xs with
  | [] => ret acc
  | x :: xs' => acc' <- body x acc ;; for_of xs' body acc'
  end.

(** A computation that cannot throw, whatever the store. *)
Definition never_throws {St A} (m : M St A) : Prop :=
  forall s, exists a s', m s = (Normal a, s').

(* ======================================================================= *)
(** ** [Map<string, V>]: insertion-ordered maps *)
(* ======================================================================= *)

(** An ECMAScript [Map] iterates in insertion order; [set] on a present key
    keeps the key's position and replaces the value, [set] on an absent key
    appends.  The entries are kept as an association list in that order. *)
Module JsMap.
Section WithValue.
Context {V : Type}.

Definition t : Type := list (string * V).

Definition empty : t := [].

Fixpoint get (k : string) (m : t) : option V :=
  match m with
  | [] => None
  | (k', v) :: m' => if String.eqb k k' then Some v else get k m'
  end.

Definition has (k : string) (m : t) : bool :=
  match get k m with Some _ => true | None => false end.

Fixpoint set (k : string) (v : V) (m : t) : t :=
  match m with
  | [] => [(k, v)]
  | (k', v') :: m' =>
      if String.eqb k k' then (k', v) :: m' else (k', v') :: set k v m'
  end.

Fixpoint delete (k : string) (m : t) : t :=
  match m with
  | [] => []
  | (k', v') :: m' =>
      if String.eqb k k' then m' else (k', v') :: delete k m'
  end.

Definition keys (m : t) : list string := map fst m.

Definition values (m : t) : list V := map snd m.

Definition clear (m : t) : t := [].
End WithValue.
Arguments t V : clear implicits.
End JsMap.

(* ======================================================================= *)
(** ** The event bus ([events/index.ts]) *)
(* ======================================================================= *)

Module EventBus.

(** [EventHandler]: called with the event data; it returns or throws.
    Handlers are taken not to call back into the bus while it emits. *)
Definition EventHandler : Type := Payload -> Completion unit.

Record Subscription : Type := {
  id : string;
  handler : EventHandler;
  once : bool
}.

Record t : Type := {
  subscriptions : JsMap.t (list Subscription);
  subscriptionCounter : nat;
  debug : bool
}.

(** [new EventBus(options)] *)
Definition new (debug_opt : option bool) : t :=
  {| subscriptions := JsMap.empty;
     subscriptionCounter := 0;
     debug := default false debug_opt |}.

End EventBus.

(** Observable effects, in program order: a bus handler being invoked, and
    a notification being handed to the attached transport. *)
Inductive Effect : Type :=
| Fired (subscription : string) (event : string) (data : Payload)
| Sent (notification : Payload).

(** The process heap: the bus singleton behind [getEventBus()] and the
    journal of effects. *)
Record Heap : Type := {
  bus : EventBus.t;
  journal : list Effect
}.

Definition set_bus (b : EventBus.t) (h : Heap) : Heap :=
  {| bus := b; journal := journal h |}.

Definition record_effect (e : Effect) (h : Heap) : Heap :=
  {| bus := bus h; journal := journal h ++ [e] |}.

Module EventBusOps.
Import EventBus.

Definition set_subscriptions (subs : JsMap.t (list Subscription)) (b : t) : t :=
  {| subscriptions := subs;
     subscriptionCounter := subscriptionCounter b;
     debug := debug b |}.

(** [sub.handler(data)] *)
Definition call_handler (event : string) (sub : Subscription) (data : Payload)
  : M Heap unit :=
  modify (record_effect (Fired (id sub) event data)) ;;;
  lift (handler sub data).

(** [toRemove.includes(s.id)] *)
Definition includes (xs : list string) (x : string) : bool :=
  existsb (String.eqb x) xs.

(** The body of the loop of [emit]: the [try]/[catch] around one
    handler call, with the local [toRemove] as accumulator. *)
Definition deliver (event : string) (data : Payload) (sub : Subscription)
    (toRemove : list string) : M Heap (list string) :=
  try_catch
    (call_handler event sub data ;;;
     ret (if once sub then toRemove ++ [id sub] else toRemove))
    (fun error => (* console.error *) ret toRemove).

(** [emit(event, data)] *)
Definition emit (event : string) (data : Payload) : M Heap unit :=
  subs_opt <- gets (fun h => JsMap.get event (subscriptions (bus h))) ;;
  match subs_opt with
  | None => ret tt
  | Some subs =>
      toRemove <- for_of subs (deliver event data) [] ;;
      if (0 <? length toRemove)%nat
      then
        modify (fun h =>
          set_bus
            (set_subscriptions
               (JsMap.set event
                  (List.filter (fun s => negb (includes toRemove (id s))) subs)
                  (subscriptions (bus h)))
               (bus h))
            h)
      else ret tt
  end.

(** [off(event)] *)
Definition off (event : string) : M Heap unit :=
  modify (fun h =>
    set_bus (set_subscriptions (JsMap.delete event (subscriptions (bus h))) (bus h)) h).

(** [clear()] *)
Definition clear : M Heap unit :=
  modify (fun h =>
    set_bus (set_subscriptions (JsMap.clear (subscriptions (bus h))) (bus h)) h).

(** [listenerCount(event)] *)
Definition listenerCount (event : string) (b : t) : nat :=
  match JsMap.get event (subscriptions b) with
  | Some subs => length subs
  | None => 0
  end.

(** The closure that [subscribe] returns. *)
Definition unsubscribe (event : string) (sid : string) : M Heap unit :=
  subs_opt <- gets (fun h => JsMap.get event (subscriptions (bus h))) ;;
  match subs_opt with
  | Some subs =>
      modify (fun h =>
        set_bus
          (set_subscriptions
             (JsMap.set event
                (List.filter (fun s => negb (String.eqb (id s) sid)) subs)
                (subscriptions (bus h)))
             (bus h))
          h)
  | None => ret tt
  end.

(** [subscribe(event, handler, once)]; the result is the new
    subscription's id, which determines the unsubscribe closure
    [unsubscribe event id]. *)
Definition subscribe (event : string) (h : EventHandler) (once_flag : bool)
  : M Heap string :=
  counter <- gets (fun hp => S (subscriptionCounter (bus hp))) ;;
  let sid := "sub_" +:+ pretty counter in
  modify (fun hp =>
    let b := bus hp in
    let subs0 :=
      if JsMap.has event (subscriptions b)
      then subscriptions b
      else JsMap.set event [] (subscriptions b) in
    let arr := default [] (JsMap.get event subs0) in
    set_bus
      {| subscriptions :=
           JsMap.set event
             (arr ++ [{| id := sid; handler := h; once := once_flag |}]) subs0;
         subscriptionCounter := counter;
         debug := debug b |}
      hp) ;;;
  ret sid.

(** [on(event, handler)] *)
Definition on (event : string) (h : EventHandler) : M Heap string :=
  subscribe event h false.

(** [once(event, handler)] *)
Definition once (event : string) (h : EventHandler) : M Heap string :=
  subscribe event h true.

End EventBusOps.

(** [Events] *)
Module Events.
Definition MCP_CONNECTED := "mcp:connected".
Definition MCP_DISCONNECTED := "mcp:disconnected".
Definition MCP_TOOL_CALL := "mcp:tool:call".
Definition MCP_TOOL_RESULT := "mcp:tool:result".
Definition MCP_RESOURCE_READ := "mcp:resource:read".
Definition MCP_NOTIFICATION := "mcp:notification".
Definition SHELL_TAB_CLOSED := "shell:tab:closed".
End Events.

(** A fresh process: a bus with no subscriptions and an empty journal. *)
Definition fresh_heap : Heap :=
  {| bus := EventBus.new None; journal := [] |}.

(* ======================================================================= *)
(** ** The dispatcher ([mcp/index.ts]) *)
(* ======================================================================= *)

Module MCPServer.

(** [ToolResult] *)
Record ToolResult : Type := {
  success : bool;
  data : option Payload;
  error : option string
}.

(** [ToolHandler]: an async function of the parameters; awaiting it
    yields a result or a rejection, and it may have touched the heap. *)
Definition ToolHandler : Type := Payload -> M Heap ToolResult.

(** [ToolDefinition] *)
Record ToolDefinition : Type := {
  name : string;
  description : string;
  inputSchema : Payload;
  handler : option ToolHandler
}.

(** [ResourceDefinition] *)
Record ResourceDefinition : Type := {
  uri : string;
  resourceName : string;
  resourceDescription : string;
  mimeType : option string
}.

Definition ResourceHandler : Type := string -> M Heap Payload.

(** [Notification] *)
Record Notification : Type := {
  type : string;
  notificationData : Payload;
  timestamp : option Z
}.

(** What the dispatcher uses of the [Transport] interface: the
    [sendNotification] method, which returns or throws. *)
Record Transport : Type := {
  sendNotification : Notification -> Completion unit
}.

(** The fields of [class MCPServer]; [eventBus] is the singleton of
    [getEventBus()], which lives in the heap. *)
Record t : Type := {
  tools : JsMap.t ToolDefinition;
  resources : JsMap.t ResourceDefinition;
  resourceHandlers : JsMap.t ResourceHandler;
  transport : option Transport;
  debug : bool
}.

(** [new MCPServer(options)] *)
Definition new (debug_opt : option bool) : t :=
  {| tools := JsMap.empty;
     resources := JsMap.empty;
     resourceHandlers := JsMap.empty;
     transport := None;
     debug := default false debug_opt |}.

(** Object literals handed to the bus. *)
Definition optional_field (key : string) (v : option Payload)
  : list (string * Payload) :=
  match v with Some p => [(key, p)] | None => [] end.

Definition result_object (r : ToolResult) : Payload :=
  PObj ([("success", PBool (success r))]
        ++ optional_field "data" (data r)
        ++ optional_field "error" (PStr <$> error r)).

Definition notification_object (n : Notification) : Payload :=
  PObj ([("type", PStr (type n)); ("data", notificationData n)]
        ++ optional_field "timestamp" (PNum <$> timestamp n)).

(* ---------------------------------------------------------------------- *)
(** *** Tool management *)

(** [registerTool(tool)] *)
Definition registerTool (tool : ToolDefinition) (srv : t) : t :=
  (* if (this.tools.has(tool.name)) console.warn(...) *)
  {| tools := JsMap.set (name tool) tool (tools srv);
     resources := resources srv;
     resourceHandlers := resourceHandlers srv;
     transport := transport srv;
     debug := debug srv |}.

(** [unregisterTool(name)] *)
Definition unregisterTool (nm : string) (srv : t) : t :=
  {| tools := JsMap.delete nm (tools srv);
     resources := resources srv;
     resourceHandlers := resourceHandlers srv;
     transport := transport srv;
     debug := debug srv |}.

(** [getTool(name)] *)
Definition getTool (nm : string) (srv : t) : option ToolDefinition :=
  JsMap.get nm (tools srv).

(** [listTools()] *)
Definition listTools (srv : t) : list ToolDefinition :=
  JsMap.values (tools srv).

(** [{ success: false, error }] *)
Definition failure (msg : string) : ToolResult :=
  {| success := false; data := None; error := Some msg |}.

(** [error instanceof Error ? error.message : String(error)]; the
    expression itself throws on a value that cannot be turned into
    text. *)
Definition error_text (e : Thrown) : Completion string :=
  match e with
  | ErrorObject message => Normal message
  | NamedError _ message => Normal message
  | OtherValue asString => Normal asString
  | Unconvertible raised => Throw raised
  end.

(** [callTool(name, params)] *)
Definition callTool (nm : string) (params : Payload) (srv : t)
  : M Heap ToolResult :=
  match JsMap.get nm (tools srv) with
  | None => ret (failure ("Tool not found: " +:+ nm))
  | Some tool =>
      match handler tool with
      | None => ret (failure ("Tool has no handler: " +:+ nm))
      | Some tool_handler =>
          EventBusOps.emit Events.MCP_TOOL_CALL
            (PObj [("name", PStr nm); ("params", params)]) ;;;
          try_catch
            (result <- tool_handler params ;;
             EventBusOps.emit Events.MCP_TOOL_RESULT
               (PObj [("name", PStr nm); ("params", params);
                      ("result", result_object result)]) ;;;
             ret result)
            (fun e =>
               message <- lift (error_text e) ;;
               let errorResult := failure message in
               EventBusOps.emit Events.MCP_TOOL_RESULT
                 (PObj [("name", PStr nm); ("params", params);
                        ("result", result_object errorResult)]) ;;;
               ret errorResult)
      end
  end.

(* ---------------------------------------------------------------------- *)
(** *** Resource management *)

(** [registerResource(resource, handler)] *)
Definition registerResource (resource : ResourceDefinition) (h : ResourceHandler)
    (srv : t) : t :=
  {| tools := tools srv;
     resources := JsMap.set (uri resource) resource (resources srv);
     resourceHandlers := JsMap.set (uri resource) h (resourceHandlers srv);
     transport := transport srv;
     debug := debug srv |}.

(** [unregisterResource(uri)] *)
Definition unregisterResource (u : string) (srv : t) : t :=
  {| tools := tools srv;
     resources := JsMap.delete u (resources srv);
     resourceHandlers := JsMap.delete u (resourceHandlers srv);
     transport := transport srv;
     debug := debug srv |}.

(** [listResources()] *)
Definition listResources (srv : t) : list ResourceDefinition :=
  JsMap.values (resources srv).

(** [pattern.replace(/\*$/, '')]: drop one asterisk when it is the last
    character. *)
Fixpoint strip_wildcard (pattern : string) : string :=
  match pattern with
  | EmptyString => EmptyString
  | String c EmptyString =>
      if Ascii.eqb c "*"%char then EmptyString else pattern
  | String c rest => String c (strip_wildcard rest)
  end.

(** [uri.startsWith(prefix)] *)
Definition startsWith (u pre : string) : bool := String.prefix pre u.

(** The [for (const [pattern, h] of this.resourceHandlers)] loop, which
    stops at the first entry whose stripped pattern is a prefix. *)
Fixpoint scan_handlers (u : string) (entries : JsMap.t ResourceHandler)
  : option ResourceHandler :=
  match entries with
  | [] => None
  | (pattern, h) :: rest =>
      if startsWith u (strip_wildcard pattern) then Some h
      else scan_handlers u rest
  end.

(** [readResource(uri)] *)
Definition readResource (u : string) (srv : t) : M Heap Payload :=
  let exact := JsMap.get u (resourceHandlers srv) in
  let found :=
    match exact with
    | Some h => Some h
    | None => scan_handlers u (resourceHandlers srv)
    end in
  match found with
  | None => throw (ErrorObject ("Resource not found: " +:+ u))
  | Some h =>
      EventBusOps.emit Events.MCP_RESOURCE_READ (PObj [("uri", PStr u)]) ;;;
      h u
  end.

(* ---------------------------------------------------------------------- *)
(** *** Notifications and transport *)

(** [transport.sendNotification(n)], journalled as an outbound send. *)
Definition send_via (tr : Transport) (n : Notification) : M Heap unit :=
  modify (record_effect (Sent (notification_object n))) ;;;
  lift (sendNotification tr n).

(** [{ ...notification, timestamp: notification.timestamp ?? Date.now() }];
    [now] is the value [Date.now()] has at the call. *)
Definition enrich (notification : Notification) (now : Z) : Notification :=
  {| type := type notification;
     notificationData := notificationData notification;
     timestamp := Some (default now (timestamp notification)) |}.

(** [emit(notification)] *)
Definition emit (notification : Notification) (now : Z) (srv : t) : M Heap unit :=
  let enrichedNotification := enrich notification now in
  EventBusOps.emit Events.MCP_NOTIFICATION
    (notification_object enrichedNotification) ;;;
  match transport srv with
  | Some tr => send_via tr enrichedNotification
  | None => ret tt
  end.

(** [setTransport(transport)]; the inbound callbacks it installs on the
    transport are [callTool] and [readResource] of this server. *)
Definition setTransport (tr : Transport) (srv : t) : t :=
  {| tools := tools srv;
     resources := resources srv;
     resourceHandlers := resourceHandlers srv;
     transport := Some tr;
     debug := debug srv |}.

(** The calls that change a dispatcher, and their effect in sequence. *)
Inductive Call : Type :=
| RegisterTool (tool : ToolDefinition)
| UnregisterTool (nm : string)
| RegisterResource (resource : ResourceDefinition) (h : ResourceHandler)
| UnregisterResource (u : string)
| SetTransport (tr : Transport).

Definition perform (srv : t) (c : Call) : t :=
  match c with
  | RegisterTool tool => registerTool tool srv
  | UnregisterTool nm => unregisterTool nm srv
  | RegisterResource resource h => registerResource resource h srv
  | UnregisterResource u => unregisterResource u srv
  | SetTransport tr => setTransport tr srv
  end.

(** The dispatcher reached from [new MCPServer()] by a history of calls. *)
Definition after (history : list Call) : t :=
  fold_left perform history (new None).

End MCPServer.

(* ======================================================================= *)
(** ** The tab slice of the store ([state/index.ts]) *)
(* ======================================================================= *)

Module Store.

(** [TabInfo] *)
Record TabInfo : Type := {
  id : string;
  label : string;
  icon : option string;
  closable : option bool;
  content : option string
}.

(** [shell.tabs] *)
Record Tabs : Type := {
  items : list TabInfo;
  activeId : option string
}.

(** [shell]; the fields that the tab actions copy over unchanged with
    [...state.shell] are kept together in [config] and
    [sidebarCollapsed]. *)
Record Shell : Type := {
  config : Payload;
  tabs : Tabs;
  sidebarCollapsed : bool
}.

Definition with_tabs (new_tabs : Tabs) (shell : Shell) : Shell :=
  {| config := config shell;
     tabs := new_tabs;
     sidebarCollapsed := sidebarCollapsed shell |}.

(** [activeId === id], for [activeId : string | null] *)
Definition is_id (a : option string) (tid : string) : bool :=
  match a with
  | Some x => String.eqb x tid
  | None => false
  end.

(** [openTab(tab)] *)
Definition openTab (tab : TabInfo) (shell : Shell) : Shell :=
  with_tabs
    {| items :=
         List.filter (fun t => negb (String.eqb (id t) (id tab))) (items (tabs shell))
         ++ [tab];
       activeId := Some (id tab) |}
    shell.

(** [closeTab(id)], followed by the [SHELL_TAB_CLOSED] event *)
Definition closeTab (tid : string) (shell : Shell) : M Heap Shell :=
  let tabs0 := tabs shell in
  let remaining :=
    List.filter (fun t => negb (String.eqb (id t) tid)) (items tabs0) in
  let newActiveId :=
    if is_id (activeId tabs0) tid
    then id <$> head remaining
    else activeId tabs0 in
  let shell' := with_tabs {| items := remaining; activeId := newActiveId |} shell in
  EventBusOps.emit Events.SHELL_TAB_CLOSED (PObj [("id", PStr tid)]) ;;;
  ret shell'.

(** [activateTab(id)] *)
Definition activateTab (tid : string) (shell : Shell) : Shell :=
  with_tabs {| items := items (tabs shell); activeId := Some tid |} shell.

End Store.

(* ======================================================================= *)
(** ** Transports ([transports/index.ts]) *)
(* ======================================================================= *)

(** Lines written to the console by the transports. *)
Inductive LogLine : Type :=
| LogConnected
| LogDisconnected
| LogSocketError
| LogReconnecting (attempt : Z)
| LogMaxReconnect
| LogCannotSend
| LogReceivedNotification
| LogUnknownType (type : string)
| LogHandleFailed.

(** Number of reconnect attempts a console shows: one
    [Reconnecting (attempt n)...] line is written per attempt. *)
Fixpoint attempts_logged (console : list LogLine) : nat :=
  match console with
  | [] => 0
  | LogReconnecting _ :: rest => S (attempts_logged rest)
  | _ :: rest => attempts_logged rest
  end.

(** Which socket (or event source) an event comes from: the one the
    transport currently holds, or an earlier one whose callbacks still
    refer to the transport. *)
Inductive Origin : Type := Current | Earlier.

Module HttpSseTransport.

Record Options : Type := {
  baseUrl : string;
  reconnectInterval : Z;
  maxReconnectAttempts : Z
}.

(** The constructor's defaults, overridden by the given options. *)
Definition make_options (base : string) (interval maxAttempts : option Z)
  : Options :=
  {| baseUrl := base;
     reconnectInterval := default 5000%Z interval;
     maxReconnectAttempts := default 10%Z maxAttempts |}.

(** The transport's fields, the reconnect timers that are armed and the
    console. *)
Record t : Type := {
  options : Options;
  eventSource : bool;              (* [this.eventSource !== null] *)
  connected : bool;
  reconnectAttempts : Z;
  reconnectTimers : nat;
  console : list LogLine
}.

Definition new (o : Options) : t :=
  {| options := o; eventSource := false; connected := false;
     reconnectAttempts := 0; reconnectTimers := 0; console := [] |}.

Definition log (l : LogLine) (s : t) : t :=
  {| options := options s; eventSource := eventSource s;
     connected := connected s; reconnectAttempts := reconnectAttempts s;
     reconnectTimers := reconnectTimers s; console := console s ++ [l] |}.

(** [connect()]: creates the event source unless already connected. *)
Definition connect (s : t) : t :=
  if connected s then s
  else
    {| options := options s; eventSource := true;
       connected := connected s; reconnectAttempts := reconnectAttempts s;
       reconnectTimers := reconnectTimers s; console := console s |}.

(** [eventSource.onopen] *)
Definition onopen (s : t) : t :=
  log LogConnected
    {| options := options s; eventSource := eventSource s;
       connected := true; reconnectAttempts := 0;
       reconnectTimers := reconnectTimers s; console := console s |}.

(** [reconnect()] *)
Definition reconnect (s : t) : t :=
  if (maxReconnectAttempts (options s) <=? reconnectAttempts s)%Z
  then log LogMaxReconnect s
  else
    let n := (reconnectAttempts s + 1)%Z in
    log (LogReconnecting n)
      {| options := options s; eventSource := eventSource s;
         connected := connected s; reconnectAttempts := n;
         reconnectTimers := S (reconnectTimers s); console := console s |}.

(** [eventSource.onerror] *)
Definition onerror (s : t) : t :=
  let s1 := log LogSocketError s in
  if connected s1
  then
    reconnect
      {| options := options s1; eventSource := eventSource s1;
         connected := false; reconnectAttempts := reconnectAttempts s1;
         reconnectTimers := reconnectTimers s1; console := console s1 |}
  else s1 (* reject(new Error('Failed to connect SSE')) *).

(** [disconnect()] *)
Definition disconnect (s : t) : t :=
  log LogDisconnected
    {| options := options s; eventSource := false;
       connected := false; reconnectAttempts := reconnectAttempts s;
       reconnectTimers := reconnectTimers s; console := console s |}.

(** The callback of [setTimeout] in [reconnect]: [this.connect()]. *)
Definition reconnect_timer (s : t) : t :=
  match reconnectTimers s with
  | O => s
  | S k =>
      connect
        {| options := options s; eventSource := eventSource s;
           connected := connected s; reconnectAttempts := reconnectAttempts s;
           reconnectTimers := k; console := console s |}
  end.

(** What can happen to the transport. *)
Inductive Event : Type :=
| Connect                 (* the owner calls [connect()] *)
| Disconnect              (* the owner calls [disconnect()] *)
| SourceOpen              (* an event source reports open *)
| SourceError             (* an event source reports an error *)
| ReconnectTimer.         (* a timer armed by [reconnect] fires *)

Definition step (s : t) (e : Event) : t :=
  match e with
  | Connect => connect s
  | Disconnect => disconnect s
  | SourceOpen => onopen s
  | SourceError => onerror s
  | ReconnectTimer => reconnect_timer s
  end.

Definition run (es : list Event) (s : t) : t := fold_left step es s.

Definition is_open (e : Event) : bool :=
  match e with SourceOpen => true | _ => false end.

End HttpSseTransport.

Module WebSocketTransport.

Inductive ReadyState : Type := CONNECTING | OPEN | CLOSING | CLOSED.

Record Options : Type := {
  url : string;
  reconnectInterval : Z;
  maxReconnectAttempts : Z
}.

(** The constructor's defaults, overridden by the given options. *)
Definition make_options (u : string) (interval maxAttempts : option Z) : Options :=
  {| url := u;
     reconnectInterval := default 5000%Z interval;
     maxReconnectAttempts := default 10%Z maxAttempts |}.

(** How a promise returned by [request] is settled: [resolve(value)] or
    [reject(new Error(message))]. *)
Inductive Settlement : Type :=
| Resolve (value : Payload)
| Reject (message : string).

(** A parsed inbound frame; [Malformed] is data on which [JSON.parse]
    throws. *)
Inductive Incoming : Type :=
| Malformed
| Response (id : string) (result : Payload) (error : option string)
| ToolCall (id : string) (tool : string) (params : Payload)
| ResourceRead (id : string) (uri : string)
| NotificationFrame (data : Payload)
| UnknownFrame (type : string).

(** An inbound call whose handler has been called and whose promise the
    transport awaits: the id to answer, and what the promise settles to
    if it settles. *)
Record Awaited : Type := {
  awaited_id : string;
  outcome : Completion Payload
}.

(** The transport's fields, followed by what surrounds them: the inbound
    calls that await their handler, the request and reconnect timers that
    are armed, the messages that [send] has serialised and handed to
    [socket.send], the calls made to the [resolve]/[reject] pair of each
    request's promise (a promise is named by the number of its request),
    and the console. *)
Record t : Type := {
  options : Options;
  socket : option ReadyState;
  connected : bool;
  reconnectAttempts : Z;
  pendingRequests : gmap string nat;
  requestCounter : nat;
  toolCallHandler : option (string -> Payload -> Completion Payload);
  resourceReadHandler : option (string -> Completion Payload);
  awaiting : list Awaited;
  requestTimers : list string;
  reconnectTimers : nat;
  outbox : list Payload;
  settled : list (nat * Settlement);
  console : list LogLine
}.

Definition new (o : Options) : t :=
  {| options := o; socket := None; connected := false; reconnectAttempts := 0;
     pendingRequests := ∅; requestCounter := 0;
     toolCallHandler := None; resourceReadHandler := None; awaiting := [];
     requestTimers := []; reconnectTimers := 0; outbox := [];
     settled := []; console := [] |}.

(** Field updates. *)
Definition set_link (sock : option ReadyState) (conn : bool) (attempts : Z)
    (timers : nat) (s : t) : t :=
  {| options := options s; socket := sock; connected := conn;
     reconnectAttempts := attempts;
     pendingRequests := pendingRequests s; requestCounter := requestCounter s;
     toolCallHandler := toolCallHandler s;
     resourceReadHandler := resourceReadHandler s; awaiting := awaiting s;
     requestTimers := requestTimers s; reconnectTimers := timers;
     outbox := outbox s; settled := settled s; console := console s |}.

Definition set_requests (pending : gmap string nat) (counter : nat)
    (timers : list string) (calls : list (nat * Settlement)) (s : t) : t :=
  {| options := options s; socket := socket s; connected := connected s;
     reconnectAttempts := reconnectAttempts s;
     pendingRequests := pending; requestCounter := counter;
     toolCallHandler := toolCallHandler s;
     resourceReadHandler := resourceReadHandler s; awaiting := awaiting s;
     requestTimers := timers; reconnectTimers := reconnectTimers s;
     outbox := outbox s; settled := calls; console := console s |}.

Definition set_handlers
    (tool_h : option (string -> Payload -> Completion Payload))
    (resource_h : option (string -> Completion Payload)) (s : t) : t :=
  {| options := options s; socket := socket s; connected := connected s;
     reconnectAttempts := reconnectAttempts s;
     pendingRequests := pendingRequests s; requestCounter := requestCounter s;
     toolCallHandler := tool_h; resourceReadHandler := resource_h;
     awaiting := awaiting s;
     requestTimers := requestTimers s; reconnectTimers := reconnectTimers s;
     outbox := outbox s; settled := settled s; console := console s |}.

Definition set_output (frames : list Payload) (lines : list LogLine) (s : t) : t :=
  {| options := options s; socket := socket s; connected := connected s;
     reconnectAttempts := reconnectAttempts s;
     pendingRequests := pendingRequests s; requestCounter := requestCounter s;
     toolCallHandler := toolCallHandler s;
     resourceReadHandler := resourceReadHandler s; awaiting := awaiting s;
     requestTimers := requestTimers s; reconnectTimers := reconnectTimers s;
     outbox := frames; settled := settled s; console := lines |}.

Definition set_awaiting (calls : list Awaited) (s : t) : t :=
  {| options := options s; socket := socket s; connected := connected s;
     reconnectAttempts := reconnectAttempts s;
     pendingRequests := pendingRequests s; requestCounter := requestCounter s;
     toolCallHandler := toolCallHandler s;
     resourceReadHandler := resourceReadHandler s; awaiting := calls;
     requestTimers := requestTimers s; reconnectTimers := reconnectTimers s;
     outbox := outbox s; settled := settled s; console := console s |}.

Definition log (l : LogLine) (s : t) : t :=
  set_output (outbox s) (console s ++ [l]) s.

(** [onToolCall(handler)], [onResourceRead(handler)] *)
Definition onToolCall (h : string -> Payload -> Completion Payload) (s : t) : t :=
  set_handlers (Some h) (resourceReadHandler s) s.

Definition onResourceRead (h : string -> Completion Payload) (s : t) : t :=
  set_handlers (toolCallHandler s) (Some h) s.

(** [connect()]: creates the socket unless already connected. *)
Definition connect (s : t) : t :=
  if connected s then s
  else set_link (Some CONNECTING) (connected s) (reconnectAttempts s)
         (reconnectTimers s) s.

(** The ready state of the socket an event comes from changes only when
    that socket is the one the transport holds. *)
Definition mark (from : Origin) (state : ReadyState) (s : t) : t :=
  match from, socket s with
  | Current, Some _ =>
      set_link (Some state) (connected s) (reconnectAttempts s)
        (reconnectTimers s) s
  | _, _ => s
  end.

(** [socket.onopen] *)
Definition onopen (s : t) : t :=
  log LogConnected (set_link (socket s) true 0 (reconnectTimers s) s).

(** [socket.onerror] *)
Definition onerror (s : t) : t :=
  log LogSocketError s (* if (!this.connected) reject(...) *).

(** [reconnect()] *)
Definition reconnect (s : t) : t :=
  if (maxReconnectAttempts (options s) <=? reconnectAttempts s)%Z
  then log LogMaxReconnect s
  else
    let n := (reconnectAttempts s + 1)%Z in
    log (LogReconnecting n)
      (set_link (socket s) (connected s) n (S (reconnectTimers s)) s).

(** [socket.onclose] *)
Definition onclose (s : t) : t :=
  if connected s
  then reconnect (set_link (socket s) false (reconnectAttempts s)
                    (reconnectTimers s) s)
  else s.

(** [disconnect()] *)
Definition disconnect (s : t) : t :=
  let s1 := set_link None false (reconnectAttempts s) (reconnectTimers s) s in
  let s2 := set_requests ∅ (requestCounter s1) (requestTimers s1) (settled s1) s1 in
  log LogDisconnected s2.

(** The callback of [setTimeout] in [reconnect]: [this.connect()]. *)
Definition reconnect_timer (s : t) : t :=
  match reconnectTimers s with
  | O => s
  | S k =>
      connect (set_link (socket s) (connected s) (reconnectAttempts s) k s)
  end.

(** [JSON.stringify(message)], as the JSON value that the text denotes: a
    property whose value is [undefined] is left out, and [undefined] in
    an array becomes [null]. *)
Fixpoint to_json (p : Payload) : Payload :=
  match p with
  | PArr items =>
      PArr (map (fun x => match x with PUndefined => PNull | _ => to_json x end) items)
  | PObj fields =>
      PObj ((fix keep (fs : list (string * Payload)) : list (string * Payload) :=
               match fs with
               | [] => []
               | (_, PUndefined) :: rest => keep rest
               | (key, v) :: rest => (key, to_json v) :: keep rest
               end) fields)
  | other => other
  end.

(** [send(message)]: on an open socket the message is serialised and the
    text handed to the socket; [outbox] records what the text says. *)
Definition send (message : Payload) (s : t) : t :=
  match socket s with
  | Some OPEN => set_output (outbox s ++ [to_json message]) (console s) s
  | _ => log LogCannotSend s
  end.

(** [sendNotification(notification)] *)
Definition sendNotification (notification : Payload) (s : t) : t :=
  send (PObj [("type", PStr "notification"); ("data", notification)]) s.

(** [`req_${n}`] *)
Definition request_id (n : nat) : string := "req_" +:+ pretty n.

(** [request(type, data)]: the promise executor runs at once; the result
    is the correlation id, which names the promise handed back. *)
Definition request (ty : string) (data : Payload) (s : t) : string * t :=
  let n := S (requestCounter s) in
  let rid := request_id n in
  let s1 :=
    set_requests (<[rid := n]> (pendingRequests s)) n (requestTimers s)
      (settled s) s in
  let s2 := send (PObj [("type", PStr ty); ("id", PStr rid); ("data", data)]) s1 in
  (rid,
   set_requests (pendingRequests s2) (requestCounter s2)
     (requestTimers s2 ++ [rid]) (settled s2) s2).

(** [callTool(tool, params)], [readResource(uri)] *)
Definition callTool (tool : string) (params : Payload) (s : t) : string * t :=
  request "tool_call" (PObj [("tool", PStr tool); ("params", params)]) s.

Definition readResource (u : string) (s : t) : string * t :=
  request "resource_read" (PObj [("uri", PStr u)]) s.

(** The body of the 30 second timer that [request] arms for [rid]. *)
Definition request_timeout (rid : string) (s : t) : t :=
  match pendingRequests s !! rid with
  | Some pending =>
      set_requests (delete rid (pendingRequests s)) (requestCounter s)
        (requestTimers s)
        (settled s ++ [(pending, Reject "Request timeout")]) s
  | None => s
  end.

(** The timer of [rid] firing; a timer fires once. *)
Definition fire_request_timer (rid : string) (s : t) : t :=
  if bool_decide (rid ∈ requestTimers s)
  then
    request_timeout rid
      (set_requests (pendingRequests s) (requestCounter s)
         (List.filter (fun x => negb (String.eqb x rid)) (requestTimers s))
         (settled s) s)
  else s.

(** Truthiness of [message.error]. *)
Definition truthy (e : option string) : option string :=
  match e with
  | Some EmptyString => None
  | other => other
  end.

(** [handleResponse(message)] *)
Definition handleResponse (rid : string) (result : Payload) (error : option string)
    (s : t) : t :=
  match pendingRequests s !! rid with
  | None => s
  | Some pending =>
      let outcome :=
        match truthy error with
        | Some msg => Reject msg
        | None => Resolve result
        end in
      set_requests (delete rid (pendingRequests s)) (requestCounter s)
        (requestTimers s) (settled s ++ [(pending, outcome)]) s
  end.

(** [Error.prototype.toString]: the name and the message joined by a
    colon; when one of them is empty, the other alone. *)
Definition error_to_string (name message : string) : string :=
  match name, message with
  | EmptyString, _ => message
  | _, EmptyString => name
  | _, _ => name +:+ ": " +:+ message
  end.

(** [String(error)]; it throws on a value that cannot be turned into
    text. *)
Definition error_string (e : Thrown) : Completion string :=
  match e with
  | ErrorObject message => Normal (error_to_string "Error" message)
  | NamedError name message => Normal (error_to_string name message)
  | OtherValue asString => Normal asString
  | Unconvertible raised => Throw raised
  end.

Definition response_result (rid : string) (result : Payload) : Payload :=
  PObj [("type", PStr "response"); ("id", PStr rid); ("result", result)].

Definition response_error (rid : string) (msg : string) : Payload :=
  PObj [("type", PStr "response"); ("id", PStr rid); ("error", PStr msg)].

(** [handleToolCall(message)] up to its [await]: without a handler the
    error response is sent at once; otherwise the handler is called and
    the transport awaits the promise it returns.  A handler returns a
    promise, as its type says and as the async functions installed by
    [setTransport] do; what it throws is the rejection of that promise. *)
Definition handleToolCall (rid tool : string) (params : Payload) (s : t) : t :=
  match toolCallHandler s with
  | None => send (response_error rid "No tool handler registered") s
  | Some h =>
      set_awaiting (awaiting s ++ [{| awaited_id := rid; outcome := h tool params |}]) s
  end.

(** [handleResourceRead(message)] up to its [await] *)
Definition handleResourceRead (rid u : string) (s : t) : t :=
  match resourceReadHandler s with
  | None => send (response_error rid "No resource handler registered") s
  | Some h =>
      set_awaiting (awaiting s ++ [{| awaited_id := rid; outcome := h u |}]) s
  end.

(** What follows the [await] in [handleToolCall] and [handleResourceRead],
    once the promise of the [k]-th awaited call has settled: the result
    is sent, or [String(error)] in the [catch].  When [String(error)]
    throws there, the promise of the async function rejects, which nobody
    observes, and nothing is sent. *)
Definition resume (k : nat) (s : t) : t :=
  match awaiting s !! k with
  | None => s
  | Some call =>
      let s1 := set_awaiting (delete k (awaiting s)) s in
      match outcome call with
      | Normal result => send (response_result (awaited_id call) result) s1
      | Throw e =>
          match error_string e with
          | Normal msg => send (response_error (awaited_id call) msg) s1
          | Throw _ => s1
          end
      end
  end.

(** [handleMessage(data)] *)
Definition handleMessage (message : Incoming) (s : t) : t :=
  match message with
  | Malformed => log LogHandleFailed s
  | Response rid result error => handleResponse rid result error s
  | ToolCall rid tool params => handleToolCall rid tool params s
  | ResourceRead rid u => handleResourceRead rid u s
  | NotificationFrame _ => log LogReceivedNotification s
  | UnknownFrame ty => log (LogUnknownType ty) s
  end.

(** What can happen to the transport. *)
Inductive Event : Type :=
| Connect                                    (* the owner calls [connect()] *)
| Disconnect                                 (* the owner calls [disconnect()] *)
| CallTool (tool : string) (params : Payload)
| ReadResource (u : string)
| SendNotification (notification : Payload)
| SocketOpen (from : Origin)
| SocketError (from : Origin)
| SocketClose (from : Origin)
| SocketMessage (message : Incoming)
| HandlerSettled (k : nat)                   (* an awaited handler promise settles *)
| RequestTimer (rid : string)                (* the timer of a request fires *)
| ReconnectTimer.                            (* a reconnect timer fires *)

Definition step (s : t) (e : Event) : t :=
  match e with
  | Connect => connect s
  | Disconnect => disconnect s
  | CallTool tool params => snd (callTool tool params s)
  | ReadResource u => snd (readResource u s)
  | SendNotification n => sendNotification n s
  | SocketOpen from => onopen (mark from OPEN s)
  | SocketError from => onerror s
  | SocketClose from => onclose (mark from CLOSED s)
  | SocketMessage m => handleMessage m s
  | HandlerSettled k => resume k s
  | RequestTimer rid => fire_request_timer rid s
  | ReconnectTimer => reconnect_timer s
  end.

Definition run (es : list Event) (s : t) : t := fold_left step es s.

Definition is_open (e : Event) : bool :=
  match e with SocketOpen _ => true | _ => false end.

(** The calls made to the continuation pair of promise [p]. *)
Definition settlements_of (p : nat) (s : t) : list Settlement :=
  omap (fun c => if Nat.eqb (fst c) p then Some (snd c) else None) (settled s).

End WebSocketTransport.

(* ======================================================================= *)
(** ** Vocabulary of the statements *)
(* ======================================================================= *)

(** The subscriptions of an event, in registration order. *)
Definition subscribers (event : string) (b : EventBus.t) : list EventBus.Subscription :=
  default [] (JsMap.get event (EventBus.subscriptions b)).

(** The journal entries of one emission to the subscriptions [subs]. *)
Definition firings (event : string) (data : Payload)
    (subs : list EventBus.Subscription) : list Effect :=
  map (fun sub => Fired (EventBus.id sub) event data) subs.

Definition returns_normally {A} (c : Completion A) : bool :=
  match c with Normal _ => true | Throw _ => false end.

(** The ids that one emission collects in [toRemove]. *)
Definition collected (data : Payload) (subs : list EventBus.Subscription)
  : list string :=
  map EventBus.id
    (List.filter
       (fun sub => EventBus.once sub && returns_normally (EventBus.handler sub data))
       subs).

(** How often the handler of subscription [sid] was invoked, by a journal. *)
Definition times_fired (sid : string) (j : list Effect) : nat :=
  length
    (List.filter
       (fun e => match e with Fired s _ _ => String.eqb s sid | Sent _ => false end)
       j).

(** The bus after one emission: the subscriptions whose ids were collected
    are filtered out of the event's list. *)
Definition bus_after_emit (event : string) (data : Payload) (b : EventBus.t)
  : EventBus.t :=
  match JsMap.get event (EventBus.subscriptions b) with
  | None => b
  | Some subs =>
      let toRemove := collected data subs in
      if (0 <? length toRemove)%nat
      then
        EventBusOps.set_subscriptions
          (JsMap.set event
             (List.filter
                (fun s => negb (EventBusOps.includes toRemove (EventBus.id s))) subs)
             (EventBus.subscriptions b))
          b
      else b
  end.

(** The heap after one emission: every subscription of the event has been
    invoked once, in order. *)
Definition heap_after_emit (event : string) (data : Payload) (h : Heap) : Heap :=
  {| bus := bus_after_emit event data (bus h);
     journal := journal h ++ firings event data (subscribers event (bus h)) |}.

Section RegistryVocabulary.
Import MCPServer.

(** Every stored tool definition sits under its own name. *)
Definition stored_by_name (m : JsMap.t ToolDefinition) : Prop :=
  Forall (fun entry => name (snd entry) = fst entry) m.

(** The registry invariant: no name twice, each definition under its name,
    and the two resource maps with the same keys in the same order. *)
Record well_formed (srv : t) : Prop := {
  wf_tool_names : NoDup (JsMap.keys (tools srv));
  wf_tool_keys : stored_by_name (tools srv);
  wf_resource_names : NoDup (JsMap.keys (resources srv));
  wf_resource_keys :
    JsMap.keys (resources srv) = JsMap.keys (resourceHandlers srv)
}.

End RegistryVocabulary.

Section ResourceVocabulary.

(** The specification's "wildcard-stripped prefix" of a registered URI,
    said without the code: the URI without its last character when that
    is an asterisk, and the URI itself otherwise. *)
Definition wildcard_stripped (pattern stem : string) : Prop :=
  pattern = stem +:+ "*" \/ (stem = pattern /\ forall p, pattern <> p +:+ "*").

(** The specification's "the URI starts with the wildcard-stripped prefix
    of the registered URI". *)
Definition matches_pattern (u pattern : string) : Prop :=
  exists stem suffix, wildcard_stripped pattern stem /\ u = stem +:+ suffix.

End ResourceVocabulary.

Section RequestVocabulary.
Import WebSocketTransport.

(** The part of the transport that concerns requests. *)
Definition requests_of (s : t)
  : gmap string nat * nat * list string * list (nat * Settlement) :=
  (pendingRequests s, requestCounter s, requestTimers s, settled s).

(** Every pending entry is keyed by the id of its own request, and that
    request has been issued. *)
Definition consistent (s : t) : Prop :=
  forall rid p,
    pendingRequests s !! rid = Some p -> rid = request_id p /\ p <= requestCounter s.

(** Request [p] has been issued and its entry is no longer in the map. *)
Definition abandoned (p : nat) (s : t) : Prop :=
  p <= requestCounter s /\ pendingRequests s !! request_id p = None.

(** Request [rid] is in the map, for promise [p], and its timer is armed. *)
Definition in_flight (rid : string) (p : nat) (s : t) : Prop :=
  pendingRequests s !! rid = Some p /\ rid ∈ requestTimers s.

(** Events that leave the entry of [rid] alone: everything except
    [disconnect()], a response for [rid] and the timer of [rid]. *)
Definition leaves_pending (rid : string) (e : Event) : bool :=
  match e with
  | Disconnect => false
  | SocketMessage (Response r _ _) => negb (String.eqb r rid)
  | RequestTimer r => negb (String.eqb r rid)
  | _ => true
  end.

(** The effect of one event on the requests. *)
Definition requests_step (s : t) (e : Event)
  : gmap string nat * nat * list string * list (nat * Settlement) :=
  match e with
  | Disconnect => (∅, requestCounter s, requestTimers s, settled s)
  | CallTool _ _ | ReadResource _ =>
      let n := S (requestCounter s) in
      (<[request_id n := n]> (pendingRequests s), n,
       requestTimers s ++ [request_id n], settled s)
  | SocketMessage (Response rid result error) =>
      match pendingRequests s !! rid with
      | None => requests_of s
      | Some p =>
          (delete rid (pendingRequests s), requestCounter s, requestTimers s,
           settled s ++
             [(p, match truthy error with
                  | Some msg => Reject msg
                  | None => Resolve result
                  end)])
      end
  | RequestTimer rid =>
      if bool_decide (rid ∈ requestTimers s)
      then
        let timers :=
          List.filter (fun x => negb (String.eqb x rid)) (requestTimers s) in
        match pendingRequests s !! rid with
        | None => (pendingRequests s, requestCounter s, timers, settled s)
        | Some p =>
            (delete rid (pendingRequests s), requestCounter s, timers,
             settled s ++ [(p, Reject "Request timeout")])
        end
      else requests_of s
  | _ => requests_of s
  end.

(** Only promises of issued requests have been settled. *)
Definition settled_issued (s : t) : Prop :=
  Forall (fun c => fst c <= requestCounter s) (settled s).

(** No continuation has been called twice, and none of a request that is
    still pending has been called. *)
Definition called_at_most_once (s : t) : Prop :=
  forall p,
    length (settlements_of p s) <= 1 /\
    (is_Some (pendingRequests s !! request_id p) -> settlements_of p s = []).

End RequestVocabulary.

(* ======================================================================= *)
(** ** Histories of bus calls *)
(* ======================================================================= *)

Module BusHistory.
Import EventBus.

(** The public calls on the bus; [Unsubscribe] is a call of the closure
    that [on] or [once] returned for the subscription [sid] of [event]. *)
Inductive Call : Type :=
| On (event : string) (h : EventHandler)
| Once (event : string) (h : EventHandler)
| Emit (event : string) (data : Payload)
| Off (event : string)
| Clear
| Unsubscribe (event : string) (sid : string).

Definition perform (c : Call) : M Heap unit :=
  match c with
  | On event h => _ <- EventBusOps.on event h ;; ret tt
  | Once event h => _ <- EventBusOps.once event h ;; ret tt
  | Emit event data => EventBusOps.emit event data
  | Off event => EventBusOps.off event
  | Clear => EventBusOps.clear
  | Unsubscribe event sid => EventBusOps.unsubscribe event sid
  end.

Fixpoint perform_all (history : list Call) : M Heap unit :=
  match history with
  | [] => ret tt
  | c :: rest => perform c ;;; perform_all rest
  end.

(** The heap that a history of calls leaves, starting from a fresh one. *)
Definition after (history : list Call) : Heap :=
  snd (perform_all history fresh_heap).

(** [`sub_${n}`] *)
Definition subscription_id (n : nat) : string := "sub_" +:+ pretty n.

(** The bus invariant: every event is keyed once, the subscriptions of an
    event have pairwise distinct ids, and every id was handed out by the
    counter. *)
Definition bus_ok (b : t) : Prop :=
  NoDup (JsMap.keys (subscriptions b)) /\
  forall event,
    NoDup (map id (subscribers event b)) /\
    Forall (fun s => exists n, id s = subscription_id n /\ n <= subscriptionCounter b)
      (subscribers event b).

End BusHistory.

(* ======================================================================= *)
(** ** The tool builder and the dispatcher's lifecycle ([mcp/index.ts]) *)
(* ======================================================================= *)

Module ToolBuilder.
Import MCPServer.

(** [private tool: Partial<ToolDefinition>] *)
Record t : Type := {
  name : option string;
  description : option string;
  inputSchema : option Payload;
  handler : option ToolHandler
}.

(** [defineTool()] *)
Definition defineTool : t :=
  {| name := None; description := None; inputSchema := None; handler := None |}.

(** [name(name)], [description(description)], [input(schema)],
    [handler(handler)] *)
Definition with_name (n : string) (b : t) : t :=
  {| name := Some n; description := description b;
     inputSchema := inputSchema b; handler := handler b |}.

Definition with_description (d : string) (b : t) : t :=
  {| name := name b; description := Some d;
     inputSchema := inputSchema b; handler := handler b |}.

Definition with_input (schema : Payload) (b : t) : t :=
  {| name := name b; description := description b;
     inputSchema := Some schema; handler := handler b |}.

Definition with_handler (f : ToolHandler) (b : t) : t :=
  {| name := name b; description := description b;
     inputSchema := inputSchema b; handler := Some f |}.

(** Truthiness of an optional string: unset and empty are falsy. *)
Definition truthy (s : option string) : option string :=
  match s with
  | Some EmptyString => None
  | other => other
  end.

(** [{ type: 'object', properties: {} }] *)
Definition default_schema : Payload :=
  PObj [("type", PStr "object"); ("properties", PObj [])].

(** [build()] *)
Definition build (b : t) : Completion ToolDefinition :=
  match truthy (name b) with
  | None => Throw (ErrorObject "Tool name is required")
  | Some n =>
      match truthy (description b) with
      | None => Throw (ErrorObject "Tool description is required")
      | Some d =>
          Normal
            {| MCPServer.name := n;
               MCPServer.description := d;
               MCPServer.inputSchema := default default_schema (inputSchema b);
               MCPServer.handler := handler b |}
      end
  end.

End ToolBuilder.

Module Lifecycle.
Import MCPServer.

(** What awaiting [transport.connect()] and [transport.disconnect()]
    gives for an attached transport: fulfilment or a rejection. *)
Record Methods : Type := {
  connect : Completion unit;
  disconnect : Completion unit
}.

(** [start()] *)
Definition start (methods : Transport -> Methods) (srv : t) : M Heap unit :=
  match transport srv with
  | None => throw (ErrorObject "No transport configured")
  | Some tr =>
      lift (connect (methods tr)) ;;;
      EventBusOps.emit Events.MCP_CONNECTED (PObj [])
  end.

(** [stop()] *)
Definition stop (methods : Transport -> Methods) (srv : t) : M Heap unit :=
  match transport srv with
  | Some tr => lift (disconnect (methods tr))
  | None => ret tt
  end ;;;
  EventBusOps.emit Events.MCP_DISCONNECTED (PObj []).

(** [getServerInfo().capabilities] *)
Definition capabilities (srv : t) : list (string * string) * list (string * string) :=
  (map (fun tl => (name tl, description tl)) (listTools srv),
   map (fun r => (uri r, resourceName r)) (listResources srv)).

End Lifecycle.

(* ======================================================================= *)
(** ** The in-process transport and the factory ([transports/index.ts]) *)
(* ======================================================================= *)

Module EmbeddedTransport.

(** A listener function.  JavaScript compares functions by identity
    ([l !== listener]); [ref] stands for that identity, so two
    registrations of one function carry the same [ref]. *)
Record Listener : Type := {
  ref : nat;
  call : MCPServer.Notification -> Completion unit
}.

Record t : Type := {
  connected : bool;
  notificationListeners : list Listener;
  toolCallHandler : option (string -> Payload -> Completion Payload);
  resourceReadHandler : option (string -> Completion Payload)
}.

(** [new EmbeddedTransport()] *)
Definition new : t :=
  {| connected := false; notificationListeners := [];
     toolCallHandler := None; resourceReadHandler := None |}.

(** [connect()] *)
Definition connect (s : t) : t :=
  {| connected := true; notificationListeners := notificationListeners s;
     toolCallHandler := toolCallHandler s;
     resourceReadHandler := resourceReadHandler s |}.

(** [disconnect()] *)
Definition disconnect (s : t) : t :=
  {| connected := false; notificationListeners := [];
     toolCallHandler := toolCallHandler s;
     resourceReadHandler := resourceReadHandler s |}.

(** [isConnected()] *)
Definition isConnected (s : t) : bool := connected s.

(** [onToolCall(handler)], [onResourceRead(handler)] *)
Definition onToolCall (h : string -> Payload -> Completion Payload) (s : t) : t :=
  {| connected := connected s; notificationListeners := notificationListeners s;
     toolCallHandler := Some h; resourceReadHandler := resourceReadHandler s |}.

Definition onResourceRead (h : string -> Completion Payload) (s : t) : t :=
  {| connected := connected s; notificationListeners := notificationListeners s;
     toolCallHandler := toolCallHandler s; resourceReadHandler := Some h |}.

(** The loop of [sendNotification]: the listeners are called in order,
    with nothing around the call to catch a throw.  The second component
    lists the listeners that were called. *)
Fixpoint notify_all (listeners : list Listener) (n : MCPServer.Notification)
  : Completion unit * list nat :=
  match listeners with
  | [] => (Normal tt, [])
  | l :: rest =>
      match call l n with
      | Normal _ =>
          let (c, called) := notify_all rest n in (c, ref l :: called)
      | Throw e => (Throw e, [ref l])
      end
  end.

(** [sendNotification(notification)] *)
Definition sendNotification (n : MCPServer.Notification) (s : t)
  : Completion unit * list nat :=
  notify_all (notificationListeners s) n.

(** [onNotification(listener)] *)
Definition onNotification (l : Listener) (s : t) : t :=
  {| connected := connected s;
     notificationListeners := notificationListeners s ++ [l];
     toolCallHandler := toolCallHandler s;
     resourceReadHandler := resourceReadHandler s |}.

(** The closure that [onNotification(listener)] returns. *)
Definition removeListener (l : Listener) (s : t) : t :=
  {| connected := connected s;
     notificationListeners :=
       List.filter (fun x => negb (Nat.eqb (ref x) (ref l))) (notificationListeners s);
     toolCallHandler := toolCallHandler s;
     resourceReadHandler := resourceReadHandler s |}.

(** [simulateToolCall(tool, params)] *)
Definition simulateToolCall (tool : string) (params : Payload) (s : t)
  : Completion Payload :=
  match toolCallHandler s with
  | None => Throw (ErrorObject "No tool handler registered")
  | Some h => h tool params
  end.

(** [simulateResourceRead(uri)] *)
Definition simulateResourceRead (u : string) (s : t) : Completion Payload :=
  match resourceReadHandler s with
  | None => Throw (ErrorObject "No resource handler registered")
  | Some h => h u
  end.

(** The transport as the dispatcher sees it. *)
Definition as_transport (s : t) : MCPServer.Transport :=
  {| MCPServer.sendNotification := fun n => fst (sendNotification n s) |}.

(** The calls on the transport that change it. *)
Inductive Call : Type :=
| Connect
| Disconnect
| OnNotification (l : Listener)
| RemoveListener (l : Listener)
| OnToolCall (h : string -> Payload -> Completion Payload)
| OnResourceRead (h : string -> Completion Payload).

Definition perform (s : t) (c : Call) : t :=
  match c with
  | Connect => connect s
  | Disconnect => disconnect s
  | OnNotification l => onNotification l s
  | RemoveListener l => removeListener l s
  | OnToolCall h => onToolCall h s
  | OnResourceRead h => onResourceRead h s
  end.

End EmbeddedTransport.

Module TransportFactory.

(** [TransportConfig['type']] *)
Inductive TransportType : Type := HttpSse | WebSocket | Stdio | Embedded.

Definition type_name (ty : TransportType) : string :=
  match ty with
  | HttpSse => "http-sse"
  | WebSocket => "websocket"
  | Stdio => "stdio"
  | Embedded => "embedded"
  end.

(** [TransportConfig] *)
Record TransportConfig : Type := {
  type : TransportType;
  url : option string;
  port : option Z
}.

(** The three transport classes. *)
Inductive AnyTransport : Type :=
| IsHttpSse (tr : HttpSseTransport.t)
| IsWebSocket (tr : WebSocketTransport.t)
| IsEmbedded (tr : EmbeddedTransport.t).

(** Truthiness of [config.url]: unset and empty are falsy. *)
Definition truthy (s : option string) : option string :=
  match s with
  | Some EmptyString => None
  | other => other
  end.

(** [createTransport(config)] *)
Definition createTransport (config : TransportConfig) : Completion AnyTransport :=
  match type config with
  | HttpSse =>
      match truthy (url config) with
      | None => Throw (ErrorObject "URL required for HTTP+SSE transport")
      | Some u =>
          Normal (IsHttpSse
                    (HttpSseTransport.new (HttpSseTransport.make_options u None None)))
      end
  | WebSocket =>
      match truthy (url config) with
      | None => Throw (ErrorObject "URL required for WebSocket transport")
      | Some u =>
          Normal (IsWebSocket
                    (WebSocketTransport.new (WebSocketTransport.make_options u None None)))
      end
  | Embedded => Normal (IsEmbedded EmbeddedTransport.new)
  | other => Throw (ErrorObject ("Unknown transport type: " +:+ type_name other))
  end.

End TransportFactory.

(* ======================================================================= *)
(** ** More of the store ([state/index.ts]) *)
(* ======================================================================= *)

Module TabActions.
Import Store.

Definition SHELL_TAB_OPENED := "shell:tab:opened".
Definition SHELL_TAB_ACTIVATED := "shell:tab:activated".

(** The tab object that the subscribers of [SHELL_TAB_OPENED] receive. *)
Definition tab_object (tab : TabInfo) : Payload :=
  PObj ([("id", PStr (id tab)); ("label", PStr (label tab))]
        ++ MCPServer.optional_field "icon" (PStr <$> icon tab)
        ++ MCPServer.optional_field "closable" (PBool <$> closable tab)
        ++ MCPServer.optional_field "content" (PStr <$> content tab)).

(** [initialState.shell.tabs] *)
Definition initial_tabs : Tabs := {| items := []; activeId := None |}.

(** [openTab(tab)]: the update of the state, then the event. *)
Definition openTab (tab : TabInfo) (shell : Shell) : M Heap Shell :=
  let shell' := Store.openTab tab shell in
  EventBusOps.emit SHELL_TAB_OPENED (tab_object tab) ;;;
  ret shell'.

(** [activateTab(id)]: the update of the state, then the event. *)
Definition activateTab (tid : string) (shell : Shell) : M Heap Shell :=
  let shell' := Store.activateTab tid shell in
  EventBusOps.emit SHELL_TAB_ACTIVATED (PObj [("id", PStr tid)]) ;;;
  ret shell'.

(** The tab actions of the store. *)
Inductive Call : Type :=
| OpenTab (tab : TabInfo)
| CloseTab (tid : string)
| ActivateTab (tid : string).

Definition perform (shell : Shell) (c : Call) : M Heap Shell :=
  match c with
  | OpenTab tab => openTab tab shell
  | CloseTab tid => closeTab tid shell
  | ActivateTab tid => activateTab tid shell
  end.

Fixpoint perform_all (calls : list Call) (shell : Shell) : M Heap Shell :=
  match calls with
  | [] => ret shell
  | c :: rest => shell' <- perform shell c ;; perform_all rest shell'
  end.

Definition is_activate (c : Call) : bool :=
  match c with
  | ActivateTab _ => true
  | _ => false
  end.

(** The ids of the open tabs, in order. *)
Definition tab_ids (shell : Shell) : list string := map id (items (tabs shell)).

(** The active id names an open tab; it is [null] only when no tab is
    open. *)
Definition active_is_open (shell : Shell) : Prop :=
  match activeId (tabs shell) with
  | Some a => a ∈ tab_ids shell
  | None => items (tabs shell) = []
  end.

End TabActions.

Module UiItems.

(** [NotificationItem['type']] *)
Inductive NotificationType : Type := NInfo | NSuccess | NWarning | NError.

Definition notification_type_name (ty : NotificationType) : string :=
  match ty with
  | NInfo => "info"
  | NSuccess => "success"
  | NWarning => "warning"
  | NError => "error"
  end.

(** [Omit<NotificationItem, 'id' | 'timestamp'>] *)
Record NotificationInput : Type := {
  title : string;
  message : string;
  type : NotificationType;
  duration : option Z
}.

(** [NotificationItem]: [{ ...notification, id, timestamp }] *)
Record NotificationItem : Type := {
  notif_id : string;
  notification : NotificationInput;
  timestamp : Z
}.

(** [ModalAction['variant']] and [ModalAction] *)
Inductive Variant : Type := Primary | Secondary | Danger.

Definition variant_name (v : Variant) : string :=
  match v with
  | Primary => "primary"
  | Secondary => "secondary"
  | Danger => "danger"
  end.

Record ModalAction : Type := {
  action_label : string;
  action : string;
  variant : option Variant
}.

(** [Omit<Modal, 'id'>] *)
Record ModalInput : Type := {
  modal_title : string;
  modal_content : Payload;
  actions : option (list ModalAction)
}.

(** [Modal]: [{ ...modal, id }] *)
Record Modal : Type := {
  modal_id : string;
  modal : ModalInput
}.

(** [ProgressTask['status']] *)
Inductive Status : Type := Pending | Running | Completed | Failed.

(** [Omit<ProgressTask, 'id'>] *)
Record ProgressInput : Type := {
  task_label : string;
  task_progress : Z;
  status : Status
}.

(** [ProgressTask]: [{ ...task, id }] *)
Record ProgressTask : Type := {
  task_id : string;
  task : ProgressInput
}.

(** [Partial<ProgressTask>]: the properties that are present. *)
Record ProgressUpdates : Type := {
  new_id : option string;
  new_label : option string;
  new_progress : option Z;
  new_status : option Status
}.

(** The module-level [idCounter] together with the three lists of [ui]
    whose items carry generated ids. *)
Record t : Type := {
  idCounter : nat;
  notifications : list NotificationItem;
  modals : list Modal;
  progress : list ProgressTask
}.

(** A freshly loaded module: [idCounter = 0] and [initialState.ui]. *)
Definition new : t :=
  {| idCounter := 0; notifications := []; modals := []; progress := [] |}.

(** [`${prefix}_${n}`] *)
Definition generated (prefix : string) (n : nat) : string :=
  prefix +:+ "_" +:+ pretty n.

(** [generateId(prefix)]: [`${prefix}_${++idCounter}`] *)
Definition generateId (prefix : string) (s : t) : string * t :=
  (generated prefix (S (idCounter s)),
   {| idCounter := S (idCounter s); notifications := notifications s;
      modals := modals s; progress := progress s |}).

Definition UI_NOTIFICATION := "ui:notification".
Definition UI_MODAL_OPEN := "ui:modal:open".
Definition UI_MODAL_CLOSE := "ui:modal:close".

(** The items as the subscribers of the bus receive them. *)
Definition notification_object (item : NotificationItem) : Payload :=
  PObj ([("title", PStr (title (notification item)));
         ("message", PStr (message (notification item)));
         ("type", PStr (notification_type_name (type (notification item))))]
        ++ MCPServer.optional_field "duration" (PNum <$> duration (notification item))
        ++ [("id", PStr (notif_id item)); ("timestamp", PNum (timestamp item))]).

Definition action_object (a : ModalAction) : Payload :=
  PObj ([("label", PStr (action_label a)); ("action", PStr (action a))]
        ++ MCPServer.optional_field "variant" ((fun v => PStr (variant_name v)) <$> variant a)).

Definition modal_object (item : Modal) : Payload :=
  PObj ([("title", PStr (modal_title (modal item)));
         ("content", modal_content (modal item))]
        ++ MCPServer.optional_field "actions"
             ((fun l => PArr (map action_object l)) <$> actions (modal item))
        ++ [("id", PStr (modal_id item))]).

(** [showNotification(notification)]; [now] is what [Date.now()] gives. *)
Definition showNotification (input : NotificationInput) (now : Z) (s : t) : M Heap t :=
  let (nid, s1) := generateId "notif" s in
  let item := {| notif_id := nid; notification := input; timestamp := now |} in
  let s2 := {| idCounter := idCounter s1;
               notifications := notifications s1 ++ [item];
               modals := modals s1; progress := progress s1 |} in
  EventBusOps.emit UI_NOTIFICATION (notification_object item) ;;;
  ret s2.

(** [dismissNotification(id)] *)
Definition dismissNotification (nid : string) (s : t) : t :=
  {| idCounter := idCounter s;
     notifications :=
       List.filter (fun n => negb (String.eqb (notif_id n) nid)) (notifications s);
     modals := modals s; progress := progress s |}.

(** [openModal(modal)] *)
Definition openModal (input : ModalInput) (s : t) : M Heap t :=
  let (mid, s1) := generateId "modal" s in
  let item := {| modal_id := mid; modal := input |} in
  let s2 := {| idCounter := idCounter s1; notifications := notifications s1;
               modals := modals s1 ++ [item]; progress := progress s1 |} in
  EventBusOps.emit UI_MODAL_OPEN (modal_object item) ;;;
  ret s2.

(** [closeModal(id)] *)
Definition closeModal (mid : string) (s : t) : M Heap t :=
  let s' := {| idCounter := idCounter s; notifications := notifications s;
               modals := List.filter (fun m => negb (String.eqb (modal_id m) mid))
                           (modals s);
               progress := progress s |} in
  EventBusOps.emit UI_MODAL_CLOSE (PObj [("id", PStr mid)]) ;;;
  ret s'.

(** [addProgress(task)]: returns the id of the new task. *)
Definition addProgress (input : ProgressInput) (s : t) : string * t :=
  let (tid, s1) := generateId "progress" s in
  let item := {| task_id := tid; task := input |} in
  (tid, {| idCounter := idCounter s1; notifications := notifications s1;
           modals := modals s1; progress := progress s1 ++ [item] |}).

(** [{ ...p, ...updates }] *)
Definition apply_updates (p : ProgressTask) (u : ProgressUpdates) : ProgressTask :=
  {| task_id := default (task_id p) (new_id u);
     task := {| task_label := default (task_label (task p)) (new_label u);
                task_progress := default (task_progress (task p)) (new_progress u);
                status := default (status (task p)) (new_status u) |} |}.

(** [updateProgress(id, updates)] *)
Definition updateProgress (tid : string) (u : ProgressUpdates) (s : t) : t :=
  {| idCounter := idCounter s; notifications := notifications s; modals := modals s;
     progress :=
       map (fun p => if String.eqb (task_id p) tid then apply_updates p u else p)
         (progress s) |}.

(** [removeProgress(id)] *)
Definition removeProgress (tid : string) (s : t) : t :=
  {| idCounter := idCounter s; notifications := notifications s; modals := modals s;
     progress := List.filter (fun p => negb (String.eqb (task_id p) tid)) (progress s) |}.

(** [reset()]: [set(initialState)] puts the lists of the store back; the
    counter is a variable of the module and stays. *)
Definition reset (s : t) : t :=
  {| idCounter := idCounter s; notifications := []; modals := []; progress := [] |}.

(** The actions of the store on these items. *)
Inductive Call : Type :=
| ShowNotification (input : NotificationInput) (now : Z)
| DismissNotification (nid : string)
| OpenModal (input : ModalInput)
| CloseModal (mid : string)
| AddProgress (input : ProgressInput)
| UpdateProgress (tid : string) (u : ProgressUpdates)
| RemoveProgress (tid : string)
| Reset.

Definition perform (s : t) (c : Call) : M Heap t :=
  match c with
  | ShowNotification input now => showNotification input now s
  | DismissNotification nid => ret (dismissNotification nid s)
  | OpenModal input => openModal input s
  | CloseModal mid => closeModal mid s
  | AddProgress input => ret (snd (addProgress input s))
  | UpdateProgress tid u => ret (updateProgress tid u s)
  | RemoveProgress tid => ret (removeProgress tid s)
  | Reset => ret (reset s)
  end.

Fixpoint perform_all (calls : list Call) (s : t) : M Heap t :=
  match calls with
  | [] => ret s
  | c :: rest => s' <- perform s c ;; perform_all rest s'
  end.

(** An [updateProgress] whose updates carry an [id] renames the task. *)
Definition renames (c : Call) : bool :=
  match c with
  | UpdateProgress _ u => match new_id u with Some _ => true | None => false end
  | _ => false
  end.

(** Every id in the lists was generated, with its own prefix and a number
    that the counter has passed, and no list holds an id twice. *)
Definition generated_below (prefix : string) (bound : nat) (ids : list string) : Prop :=
  NoDup ids /\ Forall (fun i => exists k, i = generated prefix k /\ k <= bound) ids.

Definition ids_ok (s : t) : Prop :=
  generated_below "notif" (idCounter s) (map notif_id (notifications s)) /\
  generated_below "modal" (idCounter s) (map modal_id (modals s)) /\
  generated_below "progress" (idCounter s) (map task_id (progress s)).

End UiItems.

(* ======================================================================= *)
(** ** Facts about the event bus *)
(* ======================================================================= *)

Section EventBusFacts.
Import EventBus EventBusOps.

Lemma heap_eta (h : Heap) : {| bus := bus h; journal := journal h |} = h.
Proof. by destruct h. Qed.

Lemma deliver_spec event data sub acc h :
  deliver event data sub acc h =
    (Normal (if EventBus.once sub && returns_normally (handler sub data)
             then acc ++ [id sub] else acc),
     record_effect (Fired (id sub) event data) h).
Proof.
  unfold deliver, try_catch, call_handler, bind, modify, lift, ret; simpl.
  destruct (handler sub data), (EventBus.once sub); reflexivity.
Qed.

Lemma for_of_deliver event data subs :
  forall acc h,
    for_of subs (deliver event data) acc h =
      (Normal (acc ++ collected data subs),
       {| bus := bus h; journal := journal h ++ firings event data subs |}).
Proof.
  induction subs as [|sub subs IH]; intros acc h; simpl.
  - unfold ret, collected; simpl. by rewrite !app_nil_r, heap_eta.
  - unfold bind. rewrite deliver_spec, IH. simpl.
    unfold collected; simpl.
    destruct (EventBus.once sub && returns_normally (handler sub data)); simpl;
      by rewrite <- !app_assoc.
Qed.

(** One emission never throws; it invokes every subscription of the event
    once, in registration order, whatever the handlers do. *)
Lemma emit_spec event data h :
  emit event data h = (Normal tt, heap_after_emit event data h).
Proof.
  unfold emit, heap_after_emit, bus_after_emit, subscribers, bind, gets.
  cbv beta.
  destruct (JsMap.get event (subscriptions (bus h))) as [subs|] eqn:Hget; simpl.
  - rewrite for_of_deliver; simpl.
    destruct (collected data subs) as [|x xs] eqn:Hc; simpl.
    + by unfold ret.
    + by unfold modify, set_bus.
  - unfold ret, firings; simpl. by rewrite app_nil_r, heap_eta.
Qed.

Lemma emit_never_throws event data : never_throws (emit event data).
Proof. intros h. rewrite emit_spec. eauto. Qed.

Lemma includes_true xs x : includes xs x = true <-> x ∈ xs.
Proof.
  unfold includes. rewrite existsb_exists. split.
  - intros (y & Hy & Heq). apply String.eqb_eq in Heq. subst.
    by apply list_elem_of_In.
  - intros Hx. exists x. split; [by apply list_elem_of_In | apply String.eqb_refl].
Qed.

Lemma get_set_same {V} k (v : V) m : JsMap.get k (JsMap.set k v m) = Some v.
Proof.
  induction m as [|[k' v'] m IH]; simpl.
  - by rewrite String.eqb_refl.
  - destruct (String.eqb k k') eqn:E; simpl; rewrite E; [done | apply IH].
Qed.

(** A [once] subscription whose handler returns is gone after the
    emission. *)
Lemma once_returning_is_removed event data h sub :
  sub ∈ subscribers event (bus h) ->
  EventBus.once sub = true ->
  returns_normally (handler sub data) = true ->
  sub ∉ subscribers event (bus (heap_after_emit event data h)).
Proof.
  unfold heap_after_emit, bus_after_emit, subscribers; simpl.
  destruct (JsMap.get event (subscriptions (bus h))) as [subs|] eqn:Hget; simpl.
  2: { intros Hin. by apply not_elem_of_nil in Hin. }
  intros Hin Honce Hret.
  assert (Hc : id sub ∈ collected data subs).
  { unfold collected. apply list_elem_of_fmap. exists sub. split; [done|].
    apply list_elem_of_In, filter_In. split; [by apply list_elem_of_In|].
    by rewrite Honce, Hret. }
  destruct (0 <? length (collected data subs))%nat eqn:Hlen.
  - cbn [bus subscriptions set_subscriptions]. rewrite get_set_same.
    cbn [default from_option]. intros Hin'.
    apply list_elem_of_In, filter_In in Hin' as [_ Hneg].
    apply negb_true_iff in Hneg.
    apply includes_true in Hc. congruence.
  - apply Nat.ltb_ge in Hlen.
    destruct (collected data subs); [by apply not_elem_of_nil in Hc|].
    simpl in Hlen. lia.
Qed.

(** A [once] subscription whose handler throws is still subscribed after
    the emission (ids are unique within the list, as [subscribe] makes
    them). *)
Lemma once_throwing_is_kept event data h sub e :
  NoDup (map id (subscribers event (bus h))) ->
  sub ∈ subscribers event (bus h) ->
  handler sub data = Throw e ->
  sub ∈ subscribers event (bus (heap_after_emit event data h)).
Proof.
  unfold heap_after_emit, bus_after_emit, subscribers; simpl.
  destruct (JsMap.get event (subscriptions (bus h))) as [subs|] eqn:Hget; simpl.
  2: { intros _ Hin. by apply not_elem_of_nil in Hin. }
  intros Hnd Hin Hthrow.
  assert (Hc : id sub ∉ collected data subs).
  { unfold collected. intros (sub' & Hid & Hin')%list_elem_of_fmap.
    apply list_elem_of_In, filter_In in Hin' as [Hin' Hkeep].
    apply list_elem_of_In in Hin'.
    assert (sub' = sub) as ->.
    { clear -Hnd Hin Hin' Hid. induction subs as [|x subs IH]; [by apply not_elem_of_nil in Hin|].
      cbn [map] in Hnd. apply NoDup_cons in Hnd as [Hx Hnd].
      apply elem_of_cons in Hin as [->|Hin], Hin' as [->|Hin']; try done.
      - exfalso. apply Hx. rewrite Hid. apply list_elem_of_In, in_map.
        by apply list_elem_of_In.
      - exfalso. apply Hx. rewrite <- Hid. apply list_elem_of_In, in_map.
        by apply list_elem_of_In.
      - by apply IH. }
    rewrite Hthrow in Hkeep. by rewrite andb_false_r in Hkeep. }
  destruct (0 <? length (collected data subs))%nat eqn:Hlen.
  - cbn [bus subscriptions set_subscriptions]. rewrite get_set_same.
    cbn [default from_option].
    apply list_elem_of_In, filter_In. split; [by apply list_elem_of_In|].
    apply negb_true_iff. destruct (includes _ _) eqn:E; [|done].
    by apply includes_true in E.
  - by rewrite Hget.
Qed.

End EventBusFacts.


(** C3.  The claim: a handler registered with [once] is removed after its
    first invocation even if that invocation throws, and never fires on a
    second emission.  The code collects the id of a [once] subscription
    inside the [try] block, after the handler call, so a throw skips it:
    here a throwing [once] handler is subscribed, the event is emitted
    twice, and the journal shows the handler invoked twice while the
    subscription is still listed. *)
Theorem C3_throwing_once_handler_fires_twice :
  let boom : EventBus.EventHandler := fun _ => Throw (ErrorObject "boom") in
  let program : M Heap string :=
    sid <- EventBusOps.once "evt" boom ;;
    EventBusOps.emit "evt" PNull ;;;
    EventBusOps.emit "evt" PNull ;;;
    ret sid in
  exists h,
    program fresh_heap = (Normal "sub_1", h) /\
    journal h = [Fired "sub_1" "evt" PNull; Fired "sub_1" "evt" PNull] /\
    times_fired "sub_1" (journal h) = 2 /\
    EventBusOps.listenerCount "evt" (bus h) = 1.
Proof.
  eexists. split; [vm_compute; reflexivity|].
  repeat split; reflexivity.
Qed.

(* ======================================================================= *)
(** ** Facts about the dispatcher *)
(* ======================================================================= *)

Section DispatcherFacts.
Import MCPServer.

(** [callTool] on a tool that has a handler, in terms of what the handler
    does after the call event. *)
Lemma callTool_run (srv : t) (nm : string) (params : Payload) (h : Heap)
    (tool : ToolDefinition) (tool_handler : ToolHandler) :
  getTool nm srv = Some tool ->
  handler tool = Some tool_handler ->
  callTool nm params srv h =
    let published (r : ToolResult) (h1 : Heap) :=
      heap_after_emit Events.MCP_TOOL_RESULT
        (PObj [("name", PStr nm); ("params", params); ("result", result_object r)]) h1 in
    match tool_handler params
            (heap_after_emit Events.MCP_TOOL_CALL
               (PObj [("name", PStr nm); ("params", params)]) h) with
    | (Normal result, h1) => (Normal result, published result h1)
    | (Throw e, h1) =>
        match error_text e with
        | Normal message => (Normal (failure message), published (failure message) h1)
        | Throw raised => (Throw raised, h1)
        end
    end.
Proof.
  unfold callTool, getTool. intros -> ->.
  unfold bind at 1. rewrite emit_spec. unfold try_catch, bind, lift.
  destruct (tool_handler params _) as [[result|e] h1]; [by rewrite emit_spec|].
  destruct (error_text e) as [message|raised]; [by rewrite emit_spec|done].
Qed.

(** What [callTool] does in every case.  An unregistered name gives the
    "not found" failure and a tool without handler the "no handler"
    failure, both without any event.  Otherwise the call event is
    published and the handler runs: what it returns is returned; an
    [Error] it throws becomes the failure with that error's message, any
    other value that has a text the failure with that text; and a value
    that has no text makes the conversion in the [catch] block throw, so
    that [callTool] itself throws and no result event is published. *)
Lemma callTool_cases (srv : t) (nm : string) (params : Payload) (h : Heap) :
  match getTool nm srv with
  | None => callTool nm params srv h = (Normal (failure ("Tool not found: " +:+ nm)), h)
  | Some tool =>
      match handler tool with
      | None =>
          callTool nm params srv h =
            (Normal (failure ("Tool has no handler: " +:+ nm)), h)
      | Some tool_handler =>
          let called :=
            heap_after_emit Events.MCP_TOOL_CALL
              (PObj [("name", PStr nm); ("params", params)]) h in
          let published (r : ToolResult) (h1 : Heap) :=
            heap_after_emit Events.MCP_TOOL_RESULT
              (PObj [("name", PStr nm); ("params", params);
                     ("result", result_object r)]) h1 in
          let fails_with (msg : string) (h1 : Heap) :=
            callTool nm params srv h =
              (Normal {| success := false; data := None; error := Some msg |},
               published {| success := false; data := None; error := Some msg |} h1) in
          match tool_handler params called with
          | (Normal result, h1) =>
              callTool nm params srv h = (Normal result, published result h1)
          | (Throw (ErrorObject message), h1) => fails_with message h1
          | (Throw (NamedError _ message), h1) => fails_with message h1
          | (Throw (OtherValue asString), h1) => fails_with asString h1
          | (Throw (Unconvertible raised), h1) =>
              callTool nm params srv h = (Throw raised, h1)
          end
      end
  end.
Proof.
  destruct (getTool nm srv) as [tool|] eqn:Htool.
  - destruct (handler tool) as [tool_handler|] eqn:Hhandler.
    + cbv zeta. rewrite (callTool_run srv nm params h tool tool_handler Htool Hhandler).
      cbv zeta.
      destruct (tool_handler params _) as [[result|e] h1]; [done|].
      by destruct e as [message|asString|name message|raised].
    + unfold callTool. unfold getTool in Htool. by rewrite Htool, Hhandler.
  - unfold callTool. unfold getTool in Htool. by rewrite Htool.
Qed.

(** C1.  [callTool] can throw.  On every dispatcher, a registered tool
    whose handler throws a value that has no text (one on which reading
    [message] or applying [String] throws [raised], such as
    [Object.create(null)]) makes [callTool] throw [raised] to its caller:
    the conversion [error instanceof Error ? error.message : String(error)]
    stands unguarded in the [catch] block.  The call event has been
    published by then, and no result event follows. *)
Theorem C1_callTool_throws_on_error_without_text
    (srv : t) (nm description : string) (schema params : Payload)
    (raised : Thrown) (h : Heap) :
  let tool :=
    {| name := nm; description := description; inputSchema := schema;
       handler := Some (fun _ => throw (Unconvertible raised)) |} in
  callTool nm params (registerTool tool srv) h =
    (Throw raised,
     heap_after_emit Events.MCP_TOOL_CALL
       (PObj [("name", PStr nm); ("params", params)]) h).
Proof.
  intros tool.
  pose proof (callTool_cases (registerTool tool srv) nm params h) as Hcases.
  unfold getTool, registerTool in Hcases. cbn [tools] in Hcases.
  rewrite get_set_same in Hcases. exact Hcases.
Qed.


(** A handler that throws [Object.create(null)], on which [String] throws
    a [TypeError]: [callTool] rejects with that [TypeError]. *)
Example callTool_null_prototype :
  let boom : ToolDefinition :=
    {| name := "boom"; description := "throws an object without prototype";
       inputSchema := PObj [];
       handler := Some (fun _ =>
         throw (Unconvertible
                  (NamedError "TypeError" "Cannot convert object to primitive value"))) |} in
  fst (callTool "boom" (PObj []) (after [RegisterTool boom]) fresh_heap)
    = Throw (NamedError "TypeError" "Cannot convert object to primitive value").
Proof. reflexivity. Qed.

(** The scenarios of the specification: an echo tool, an unregistered
    name, a tool without handler and a handler that throws. *)
Example callTool_scenarios :
  let echo : ToolDefinition :=
    {| name := "echo"; description := "echo"; inputSchema := PObj [];
       handler := Some (fun params =>
         ret {| success := true; data := Some params; error := None |}) |} in
  let silent : ToolDefinition :=
    {| name := "silent"; description := "no handler"; inputSchema := PObj [];
       handler := None |} in
  let broken : ToolDefinition :=
    {| name := "broken"; description := "throws"; inputSchema := PObj [];
       handler := Some (fun _ => throw (ErrorObject "kaput")) |} in
  let srv := after [RegisterTool echo; RegisterTool silent; RegisterTool broken] in
  let x1 := PObj [("x", PNum 1)] in
  fst (callTool "echo" x1 srv fresh_heap)
    = Normal {| success := true; data := Some x1; error := None |} /\
  fst (callTool "missing" x1 srv fresh_heap)
    = Normal (failure "Tool not found: missing") /\
  fst (callTool "silent" x1 srv fresh_heap)
    = Normal (failure "Tool has no handler: silent") /\
  fst (callTool "broken" x1 srv fresh_heap) = Normal (failure "kaput").
Proof. repeat split; reflexivity. Qed.

End DispatcherFacts.

(* ======================================================================= *)
(** ** Facts about the tab slice *)
(* ======================================================================= *)

Section StoreFacts.
Import Store.

(** C9.  [closeTab] removes the tabs with the given id and keeps the
    others in order; if the given id was the active id, the first
    remaining tab becomes active, or none when no tab remains; otherwise
    the active id is unchanged.  The rest of the shell is untouched and the
    call never throws. *)
Theorem C9_closeTab (tid : string) (shell : Shell) (h : Heap) :
  exists (shell' : Shell) (h' : Heap),
    closeTab tid shell h = (Normal shell', h') /\
    items (tabs shell') =
      List.filter (fun t => negb (String.eqb (id t) tid)) (items (tabs shell)) /\
    (forall t, t ∈ items (tabs shell') <-> t ∈ items (tabs shell) /\ id t <> tid) /\
    (activeId (tabs shell) = Some tid ->
       activeId (tabs shell') = id <$> head (items (tabs shell'))) /\
    (activeId (tabs shell) <> Some tid ->
       activeId (tabs shell') = activeId (tabs shell)) /\
    config shell' = config shell /\
    sidebarCollapsed shell' = sidebarCollapsed shell.
Proof.
  unfold closeTab, bind. rewrite emit_spec. unfold ret.
  eexists _, _. split; [reflexivity|]. cbn [with_tabs tabs items activeId config
    sidebarCollapsed]. split; [reflexivity|]. split; [|split; [|split; [|done]]].
  - intros t. rewrite !list_elem_of_In, filter_In, negb_true_iff, String.eqb_neq.
    reflexivity.
  - intros Hact. rewrite Hact. unfold is_id. by rewrite String.eqb_refl.
  - intros Hact. unfold is_id. destruct (activeId (tabs shell)) as [a|]; [|done].
    destruct (String.eqb a tid) eqn:E; [|done].
    apply String.eqb_eq in E. congruence.
Qed.

(** C9 at a concrete input: the active tab ["a"] of three is closed and
    ["b"], the first that remains, becomes active. *)
Lemma C9_closeTab_witness :
  let tab (i : string) : TabInfo :=
    {| id := i; label := i; icon := None; closable := Some true; content := None |} in
  let shell0 : Shell :=
    {| config := PObj []; sidebarCollapsed := false;
       tabs := {| items := [tab "a"; tab "b"; tab "c"]; activeId := Some "a" |} |} in
  activeId (tabs shell0) = Some "a" /\
  exists (shell' : Shell) (h' : Heap),
    closeTab "a" shell0 fresh_heap = (Normal shell', h') /\
    items (tabs shell') = [tab "b"; tab "c"] /\
    activeId (tabs shell') = Some "b".
Proof.
  intros tab shell0. split; [reflexivity|].
  destruct (C9_closeTab "a" shell0 fresh_heap)
    as (shell' & h' & Hrun & Hitems & _ & Hactive & _).
  exists shell', h'. split; [exact Hrun|]. split; [exact Hitems|].
  rewrite (Hactive eq_refl), Hitems. reflexivity.
Defined.

(** Closing the active first tab activates the next one; closing another
    tab leaves the active id; closing the last tab leaves none active. *)
Example closeTab_scenarios :
  let tab (i : string) : TabInfo :=
    {| id := i; label := i; icon := None; closable := Some true; content := None |} in
  let shell0 : Shell :=
    {| config := PObj []; sidebarCollapsed := false;
       tabs := {| items := [tab "a"; tab "b"; tab "c"]; activeId := Some "a" |} |} in
  let closed (i : string) (sh : Shell) : option Tabs :=
    match fst (closeTab i sh fresh_heap) with
    | Normal sh' => Some (tabs sh')
    | Throw _ => None
    end in
  closed "a" shell0 = Some {| items := [tab "b"; tab "c"]; activeId := Some "b" |} /\
  closed "c" shell0 = Some {| items := [tab "a"; tab "b"]; activeId := Some "a" |} /\
  closed "x"
    {| config := PObj []; sidebarCollapsed := false;
       tabs := {| items := [tab "x"]; activeId := Some "x" |} |}
    = Some {| items := []; activeId := None |}.
Proof. repeat split; reflexivity. Qed.

End StoreFacts.

(* ======================================================================= *)
(** ** Facts about insertion-ordered maps *)
(* ======================================================================= *)

Section JsMapFacts.
Context {V : Type}.
Implicit Types (m : JsMap.t V) (k : string) (v : V).

Lemma jsmap_get_set_other k k' v m :
  k <> k' -> JsMap.get k' (JsMap.set k v m) = JsMap.get k' m.
Proof.
  intros Hne. induction m as [|[k0 v0] m IH]; simpl.
  - destruct (String.eqb_spec k' k); congruence.
  - destruct (String.eqb_spec k k0) as [->|]; simpl.
    + destruct (String.eqb_spec k' k0); congruence.
    + destruct (String.eqb_spec k' k0); [done | apply IH].
Qed.

Lemma jsmap_get_None k m : JsMap.get k m = None <-> k ∉ JsMap.keys m.
Proof.
  induction m as [|[k0 v0] m IH]; simpl.
  - split; [intros _; apply not_elem_of_nil | done].
  - rewrite not_elem_of_cons. destruct (String.eqb_spec k k0); split; try done.
    + intros [? _]. done.
    + intros ?. split; [done | by apply IH].
    + intros [_ ?]. by apply IH.
Qed.

Lemma jsmap_has_true k m : JsMap.has k m = true <-> k ∈ JsMap.keys m.
Proof.
  unfold JsMap.has. destruct (JsMap.get k m) eqn:E.
  - split; [intros _|done]. destruct (decide (k ∈ JsMap.keys m)); [done|].
    apply jsmap_get_None in n. congruence.
  - apply jsmap_get_None in E. split; [done | intros; done].
Qed.

(** [set] appends an absent key and keeps the order otherwise. *)
Lemma jsmap_keys_set k v m :
  JsMap.keys (JsMap.set k v m) =
    if JsMap.has k m then JsMap.keys m else JsMap.keys m ++ [k].
Proof.
  unfold JsMap.has. induction m as [|[k0 v0] m IH]; simpl; [done|].
  destruct (String.eqb_spec k k0); simpl; [done|].
  rewrite IH. by destruct (JsMap.get k m).
Qed.

Lemma jsmap_keys_delete_subset k k' m :
  k' ∈ JsMap.keys (JsMap.delete k m) -> k' ∈ JsMap.keys m.
Proof.
  induction m as [|[k0 v0] m IH]; simpl; [done|].
  destruct (String.eqb_spec k k0); simpl.
  - intros. by apply list_elem_of_further.
  - rewrite !elem_of_cons. intros [->|?]; [by left | right; by apply IH].
Qed.

Lemma jsmap_nodup_set k v m :
  NoDup (JsMap.keys m) -> NoDup (JsMap.keys (JsMap.set k v m)).
Proof.
  intros Hnd. rewrite jsmap_keys_set.
  destruct (JsMap.has k m) eqn:E; [done|].
  apply NoDup_app. split; [done|]. split; [|apply NoDup_singleton].
  intros x Hx ->%list_elem_of_singleton.
  apply jsmap_has_true in Hx. congruence.
Qed.

Lemma jsmap_nodup_delete k m :
  NoDup (JsMap.keys m) -> NoDup (JsMap.keys (JsMap.delete k m)).
Proof.
  induction m as [|[k0 v0] m IH]; simpl; [done|].
  rewrite NoDup_cons. intros [Hnotin Hnd].
  destruct (String.eqb_spec k k0); simpl; [done|].
  apply NoDup_cons. split; [|by apply IH].
  intros Hin. by apply jsmap_keys_delete_subset in Hin.
Qed.

Lemma jsmap_get_delete_same k m :
  NoDup (JsMap.keys m) -> JsMap.get k (JsMap.delete k m) = None.
Proof.
  induction m as [|[k0 v0] m IH]; simpl; [done|].
  rewrite NoDup_cons. intros [Hnotin Hnd].
  destruct (String.eqb_spec k k0) as [->|Hne]; simpl.
  - by apply jsmap_get_None.
  - destruct (String.eqb_spec k k0); [done | by apply IH].
Qed.

Lemma jsmap_length_values m : length (JsMap.values m) = length (JsMap.keys m).
Proof. unfold JsMap.values, JsMap.keys. by rewrite !length_map. Qed.

End JsMapFacts.

(** The key lists of two maps stay equal under the same [set] or
    [delete], whatever the values are. *)
Lemma jsmap_keys_set_together {V W} k (v : V) (w : W) (m1 : JsMap.t V) (m2 : JsMap.t W) :
  JsMap.keys m1 = JsMap.keys m2 ->
  JsMap.keys (JsMap.set k v m1) = JsMap.keys (JsMap.set k w m2).
Proof.
  revert m2. induction m1 as [|[k1 v1] m1 IH]; intros [|[k2 v2] m2]; simpl;
    try done.
  intros [= -> Hrest]. destruct (String.eqb k k2); simpl; [by rewrite Hrest|].
  f_equal. by apply IH.
Qed.

Lemma jsmap_keys_delete_together {V W} k (m1 : JsMap.t V) (m2 : JsMap.t W) :
  JsMap.keys m1 = JsMap.keys m2 ->
  JsMap.keys (JsMap.delete k m1) = JsMap.keys (JsMap.delete k m2).
Proof.
  revert m2. induction m1 as [|[k1 v1] m1 IH]; intros [|[k2 v2] m2]; simpl;
    try done.
  intros [= -> Hrest]. destruct (String.eqb k k2); simpl; [done|].
  f_equal. by apply IH.
Qed.

(* ======================================================================= *)
(** ** Facts about the registries *)
(* ======================================================================= *)

Section RegistryFacts.
Import MCPServer.

Lemma stored_by_name_set tool m :
  stored_by_name m -> stored_by_name (JsMap.set (name tool) tool m).
Proof.
  unfold stored_by_name. induction m as [|[k0 v0] m IH]; simpl.
  - intros _. by repeat constructor.
  - intros [Hhd Htl]%Forall_cons. simpl in Hhd.
    destruct (String.eqb_spec (name tool) k0) as [E|E].
    + by apply Forall_cons.
    + apply Forall_cons. split; [done | by apply IH].
Qed.

Lemma stored_by_name_delete nm m :
  stored_by_name m -> stored_by_name (JsMap.delete nm m).
Proof.
  unfold stored_by_name. induction m as [|[k0 v0] m IH]; simpl; [done|].
  intros [Hhd Htl]%Forall_cons.
  destruct (String.eqb nm k0); [done|].
  apply Forall_cons. split; [done | by apply IH].
Qed.

Lemma stored_by_name_names m :
  stored_by_name m -> map name (JsMap.values m) = JsMap.keys m.
Proof.
  unfold stored_by_name. induction m as [|[k0 v0] m IH]; simpl; [done|].
  intros [Hhd Htl]%Forall_cons. simpl in Hhd. rewrite Hhd. f_equal. by apply IH.
Qed.

Lemma well_formed_new debug_opt : well_formed (new debug_opt).
Proof. split; simpl; try done; by constructor. Qed.

Lemma well_formed_perform srv c : well_formed srv -> well_formed (perform srv c).
Proof.
  intros [Hnd Hkeys Hrnd Hres]. destruct c; split; simpl; try done.
  - by apply jsmap_nodup_set.
  - by apply stored_by_name_set.
  - by apply jsmap_nodup_delete.
  - by apply stored_by_name_delete.
  - by apply jsmap_nodup_set.
  - by apply jsmap_keys_set_together.
  - by apply jsmap_nodup_delete.
  - by apply jsmap_keys_delete_together.
Qed.

Lemma well_formed_fold history :
  forall srv, well_formed srv -> well_formed (fold_left perform history srv).
Proof.
  induction history as [|c history IH]; intros srv Hwf; simpl; [done|].
  apply IH. by apply well_formed_perform.
Qed.

Lemma well_formed_after history : well_formed (after history).
Proof. apply well_formed_fold, well_formed_new. Qed.

(** No definition is named by a key that the map does not hold. *)
Lemma named_absent nm m :
  nm ∉ JsMap.keys m -> stored_by_name m ->
  List.filter (fun d => String.eqb (name d) nm) (JsMap.values m) = [].
Proof.
  unfold stored_by_name. induction m as [|[k0 v0] m IH]; simpl; [done|].
  intros [Hne Hnotin]%not_elem_of_cons [Hhd Htl]%Forall_cons. simpl in Hhd.
  destruct (String.eqb_spec (name v0) nm) as [E|E]; [congruence | by apply IH].
Qed.

(** Among definitions stored under distinct names, the ones named like
    [tool] after [set (name tool) tool] are [tool] alone. *)
Lemma named_after_set tool m :
  NoDup (JsMap.keys m) -> stored_by_name m ->
  List.filter (fun d => String.eqb (name d) (name tool))
    (JsMap.values (JsMap.set (name tool) tool m)) = [tool].
Proof.
  unfold stored_by_name. induction m as [|[k0 v0] m IH]; simpl.
  - intros _ _. by rewrite String.eqb_refl.
  - intros [Hnotin Hnd]%NoDup_cons [Hhd Htl]%Forall_cons. simpl in Hhd.
    destruct (String.eqb_spec (name tool) k0) as [E|E]; simpl.
    + rewrite String.eqb_refl. f_equal. apply named_absent; [|done].
      by rewrite E.
    + destruct (String.eqb_spec (name v0) (name tool)) as [E1|E1];
        [congruence | by apply IH].
Qed.

(** C6.  After any history of registrations and removals the listed tools
    have pairwise distinct names, and registering a tool on top of it
    cannot fail (it is a total update): the tool is then the definition
    found under its name, it is the only listed definition with that name,
    the list grows by one only when the name was new, and the other names
    keep their definitions. *)
Theorem C6_registerTool_replaces (history : list Call) (tool : ToolDefinition) :
  let srv := after history in
  let srv' := registerTool tool srv in
  NoDup (map name (listTools srv)) /\
  NoDup (map name (listTools srv')) /\
  getTool (name tool) srv' = Some tool /\
  List.filter (fun d => String.eqb (name d) (name tool)) (listTools srv') = [tool] /\
  length (listTools srv') =
    (if JsMap.has (name tool) (tools srv)
     then length (listTools srv) else S (length (listTools srv))) /\
  (forall other, other <> name tool -> getTool other srv' = getTool other srv).
Proof.
  intros srv srv'.
  assert (Hwf : well_formed srv) by apply well_formed_after.
  assert (Hwf' : well_formed srv').
  { apply (well_formed_perform srv (RegisterTool tool) Hwf). }
  destruct Hwf as [Hnd Hkeys _ _]. destruct Hwf' as [Hnd' Hkeys' _ _].
  unfold listTools, getTool.
  rewrite !stored_by_name_names by done.
  split; [done|]. split; [done|]. split; [apply get_set_same|].
  split; [by apply named_after_set|]. split.
  - rewrite !jsmap_length_values. simpl. rewrite jsmap_keys_set.
    destruct (JsMap.has (name tool) (tools srv)); [done|].
    rewrite length_app. simpl. lia.
  - intros other Hne. simpl. by apply jsmap_get_set_other.
Qed.

(** C10.  After any history of calls the resource-definition map and the
    resource-handler map list the same URIs in the same order, so a URI has
    a definition exactly when it has a handler; [registerResource] puts
    its URI into both and [unregisterResource] takes its URI out of
    both. *)
Theorem C10_resource_maps_share_keys
    (history : list Call) (resource : ResourceDefinition) (f : ResourceHandler)
    (u : string) :
  let srv := after history in
  JsMap.keys (resources srv) = JsMap.keys (resourceHandlers srv) /\
  (is_Some (JsMap.get u (resources srv)) <->
   is_Some (JsMap.get u (resourceHandlers srv))) /\
  (let srv' := registerResource resource f srv in
   JsMap.get (uri resource) (resources srv') = Some resource /\
   JsMap.get (uri resource) (resourceHandlers srv') = Some f /\
   JsMap.keys (resources srv') = JsMap.keys (resourceHandlers srv')) /\
  (let srv' := unregisterResource u srv in
   JsMap.get u (resources srv') = None /\
   JsMap.get u (resourceHandlers srv') = None /\
   JsMap.keys (resources srv') = JsMap.keys (resourceHandlers srv')).
Proof.
  intros srv.
  assert (Hwf : well_formed srv) by apply well_formed_after.
  pose proof (well_formed_perform srv (RegisterResource resource f) Hwf) as Hreg.
  pose proof (well_formed_perform srv (UnregisterResource u) Hwf) as Hunreg.
  destruct Hwf as [_ _ Hrnd Hres].
  split; [done|]. split.
  - rewrite <- !not_eq_None_Some, !jsmap_get_None, Hres. done.
  - split.
    + simpl. rewrite !get_set_same. repeat split. apply Hreg.
    + simpl. destruct Hunreg as [_ _ Hnd' Hres']. simpl in *.
      split; [by apply jsmap_get_delete_same|].
      split; [|done]. apply jsmap_get_delete_same. by rewrite <- Hres.
Qed.

(** Registering a name twice keeps one entry, the later one, in the
    place of the first; the resource maps move together. *)
Example registry_scenarios :
  let tool (nm d : string) : ToolDefinition :=
    {| name := nm; description := d; inputSchema := PObj []; handler := None |} in
  let def (u : string) : ResourceDefinition :=
    {| uri := u; resourceName := u; resourceDescription := ""; mimeType := None |} in
  let srv :=
    after [RegisterTool (tool "a" "first"); RegisterTool (tool "b" "other");
           RegisterTool (tool "a" "second");
           RegisterResource (def "r://1") (fun u => ret PNull);
           RegisterResource (def "r://2") (fun u => ret PNull);
           UnregisterResource "r://1"] in
  map (fun d => (name d, description d)) (listTools srv)
    = [("a", "second"); ("b", "other")] /\
  JsMap.keys (resources srv) = ["r://2"] /\
  JsMap.keys (resourceHandlers srv) = ["r://2"].
Proof. repeat split; reflexivity. Qed.

End RegistryFacts.

(* ======================================================================= *)
(** ** Facts about resource lookup *)
(* ======================================================================= *)

Section ResourceFacts.
Import MCPServer.

(** A trailing asterisk is what [strip_wildcard] removes. *)
Lemma strip_wildcard_star (p : string) : strip_wildcard (p +:+ "*") = p.
Proof.
  induction p as [|c p IH]; [reflexivity|]. simpl.
  rewrite IH. destruct (p +:+ "*") eqn:E; [|done].
  destruct p; discriminate E.
Qed.

(** [startsWith] holds exactly of the extensions of the prefix. *)
Lemma startsWith_extension (u pre : string) :
  startsWith u pre = true <-> exists suffix, u = pre +:+ suffix.
Proof.
  unfold startsWith. revert u.
  induction pre as [|c pre IH]; intros u.
  - split; [intros _; by exists u | by destruct u].
  - destruct u as [|d u]; simpl; [split; [done | by intros [? ?]]|].
    destruct (ascii_dec c d) as [->|Hne].
    + rewrite IH. split; intros [suffix E]; exists suffix.
      * rewrite E. reflexivity.
      * change (String d u = String d (pre +:+ suffix)) in E. congruence.
    + split; [done|]. intros [suffix E].
      change (String d u = String c (pre +:+ suffix)) in E. congruence.
Qed.

Lemma scan_handlers_first u before pattern f rest :
  Forall (fun entry => startsWith u (strip_wildcard (fst entry)) = false) before ->
  startsWith u (strip_wildcard pattern) = true ->
  scan_handlers u (before ++ (pattern, f) :: rest) = Some f.
Proof.
  induction before as [|[p0 f0] before IH]; simpl; intros Hbefore Hmatch.
  - by rewrite Hmatch.
  - apply Forall_cons in Hbefore as [Hhd Htl]. simpl in Hhd. rewrite Hhd.
    by apply IH.
Qed.

Lemma scan_handlers_none u entries :
  Forall (fun entry => startsWith u (strip_wildcard (fst entry)) = false) entries ->
  scan_handlers u entries = None.
Proof.
  induction entries as [|[p0 f0] entries IH]; simpl; [done|].
  intros [Hhd Htl]%Forall_cons. simpl in Hhd. rewrite Hhd. by apply IH.
Qed.

(** A new URI is registered behind the ones already there; registering a
    URI again keeps its place. *)
Lemma registerResource_order resource f srv :
  JsMap.keys (resourceHandlers (registerResource resource f srv)) =
    if JsMap.has (uri resource) (resourceHandlers srv)
    then JsMap.keys (resourceHandlers srv)
    else JsMap.keys (resourceHandlers srv) ++ [uri resource].
Proof. simpl. apply jsmap_keys_set. Qed.

(** The code's [strip_wildcard] and [startsWith] against the words of the
    specification. *)
Lemma strip_wildcard_other (pattern : string) :
  (forall p, pattern <> p +:+ "*") -> strip_wildcard pattern = pattern.
Proof.
  induction pattern as [|c rest IH]; [done|]. intros Hlast.
  destruct rest as [|d rest'].
  - cbn [strip_wildcard]. destruct (Ascii.eqb c "*"%char) eqn:E; [|done].
    apply Ascii.eqb_eq in E. subst c. by destruct (Hlast "").
  - change (strip_wildcard (String c (String d rest')))
      with (String c (strip_wildcard (String d rest'))).
    rewrite IH; [done|]. intros p Hp. apply (Hlast (String c p)).
    change (String c p +:+ "*") with (String c (p +:+ "*")). by rewrite <- Hp.
Qed.

Lemma wildcard_stripped_spec (pattern stem : string) :
  wildcard_stripped pattern stem <-> strip_wildcard pattern = stem.
Proof.
  split.
  - intros [->|[-> Hlast]]; [apply strip_wildcard_star | by apply strip_wildcard_other].
  - intros <-. induction pattern as [|c rest IH].
    + right. split; [done|]. intros p Hp. by destruct p.
    + destruct rest as [|d rest'].
      * cbn [strip_wildcard]. destruct (Ascii.eqb c "*"%char) eqn:E.
        -- apply Ascii.eqb_eq in E. subst c. by left.
        -- right. split; [done|]. intros p Hp.
           destruct p as [|c' p'].
           ++ injection Hp as ->. by rewrite Ascii.eqb_refl in E.
           ++ change (String c' p' +:+ "*") with (String c' (p' +:+ "*")) in Hp.
              injection Hp as _ Hp. by destruct p'.
      * change (strip_wildcard (String c (String d rest')))
          with (String c (strip_wildcard (String d rest'))).
        destruct IH as [Hstar|[Hsame Hlast]].
        -- left. rewrite Hstar at 1. reflexivity.
        -- right. split; [by rewrite Hsame|]. intros p Hp.
           destruct p as [|c' p']; [discriminate Hp|].
           change (String c' p' +:+ "*") with (String c' (p' +:+ "*")) in Hp.
           injection Hp as _ Hp. by apply (Hlast p').
Qed.

Lemma startsWith_matches (u pattern : string) :
  startsWith u (strip_wildcard pattern) = true <-> matches_pattern u pattern.
Proof.
  rewrite startsWith_extension. unfold matches_pattern. split.
  - intros [suffix ->]. exists (strip_wildcard pattern), suffix.
    split; [by apply wildcard_stripped_spec | done].
  - intros (stem & suffix & Hstem & ->). apply wildcard_stripped_spec in Hstem.
    subst stem. by exists suffix.
Qed.

Lemma no_match_spec (u : string) (entries : JsMap.t ResourceHandler) :
  Forall (fun entry => ~ matches_pattern u (fst entry)) entries ->
  Forall (fun entry => startsWith u (strip_wildcard (fst entry)) = false) entries.
Proof.
  intros Hnone. eapply Forall_impl; [exact Hnone|]. intros entry Hno.
  destruct (startsWith u (strip_wildcard (fst entry))) eqn:E; [|done].
  by apply startsWith_matches in E.
Qed.

Lemma jsmap_get_first {V} (k : string) (v : V) (before rest : JsMap.t V) :
  k ∉ map fst before -> JsMap.get k (before ++ (k, v) :: rest) = Some v.
Proof.
  induction before as [|[k0 v0] before IH]; cbn [app JsMap.get map fst].
  - intros _. by rewrite String.eqb_refl.
  - intros [Hne Hout]%not_elem_of_cons.
    apply String.eqb_neq in Hne. rewrite Hne. by apply IH.
Qed.

(** C5.  [readResource] looks the URI up exactly first: the handler
    registered under the URI itself is the one called.  When nothing is
    registered under the URI, the registered URIs are tried in their
    order, and the first one whose wildcard-stripped prefix the URI
    starts with gives the handler.  When no registered URI matches, the
    call rejects with the "Resource not found" error and does nothing
    else.  The handler that is found is called with the requested URI
    itself, after the resource-read event was published.  The order of the
    entries is the order of registration: a new URI goes behind the ones
    there, and a URI registered again keeps its place.  Matching is stated
    by [matches_pattern], in the words of the specification. *)
Theorem C5_readResource_lookup (srv : t) (u : string) (h : Heap) :
  let handlers := resourceHandlers srv in
  let announced :=
    heap_after_emit Events.MCP_RESOURCE_READ (PObj [("uri", PStr u)]) h in
  let no_match (entry : string * ResourceHandler) :=
    ~ matches_pattern u (fst entry) in
  (forall before f rest,
     handlers = before ++ (u, f) :: rest ->
     u ∉ map fst before ->
     readResource u srv h = f u announced) /\
  (u ∉ map fst handlers ->
   forall before pattern f rest,
     handlers = before ++ (pattern, f) :: rest ->
     Forall no_match before ->
     matches_pattern u pattern ->
     readResource u srv h = f u announced) /\
  (Forall no_match handlers ->
   readResource u srv h =
     (Throw (ErrorObject ("Resource not found: " +:+ u)), h)) /\
  (forall resource f,
     let registered := map fst (resourceHandlers (registerResource resource f srv)) in
     (uri resource ∈ map fst handlers -> registered = map fst handlers) /\
     (uri resource ∉ map fst handlers ->
      registered = map fst handlers ++ [uri resource])).
Proof.
  intros handlers announced no_match. subst handlers announced no_match.
  unfold readResource. split; [|split; [|split]].
  - intros before f rest -> Hfirst. rewrite jsmap_get_first by done.
    unfold bind. by rewrite emit_spec.
  - intros Hmiss before pattern f rest Hentries Hbefore Hmatch.
    apply jsmap_get_None in Hmiss. rewrite Hmiss, Hentries.
    rewrite scan_handlers_first;
      [|by apply no_match_spec | by apply startsWith_matches].
    unfold bind. by rewrite emit_spec.
  - intros Hnone.
    assert (Hmiss : JsMap.get u (resourceHandlers srv) = None).
    { apply jsmap_get_None. intros Hin.
      apply list_elem_of_In, in_map_iff in Hin as ([p f] & Hp & Hin).
      cbn [fst] in Hp. subst p. rewrite Forall_forall in Hnone.
      apply (Hnone (u, f)); [by apply list_elem_of_In|].
      apply startsWith_matches, startsWith_extension. cbn [fst].
      destruct (wildcard_stripped_spec u (strip_wildcard u)) as [_ Hstem].
      destruct (Hstem eq_refl) as [Hstar|[Hsame _]].
      - exists "*". by rewrite <- Hstar.
      - exists "". rewrite Hsame. clear. induction u as [|c u IH]; [done|].
        change (String c u = String c (u +:+ "")). by rewrite <- IH. }
    rewrite Hmiss. by rewrite scan_handlers_none by by apply no_match_spec.
  - intros resource f.
    pose proof (registerResource_order resource f srv) as Horder.
    unfold JsMap.keys in Horder. split; intros Hin.
    + apply jsmap_has_true in Hin. by rewrite Hin in Horder.
    + apply jsmap_get_None in Hin. unfold JsMap.has in Horder.
      by rewrite Hin in Horder.
Qed.

(** The scenario of the specification: with ["memory://*"] registered, a
    read of ["memory://recent"] reaches the handler with the whole URI; with
    two wildcard entries that both match, the one registered first answers. *)
Example readResource_memory_recent :
  let echo (tag : string) : ResourceHandler :=
    fun u => ret (PArr [PStr tag; PStr u]) in
  let def (u : string) : ResourceDefinition :=
    {| uri := u; resourceName := u; resourceDescription := ""; mimeType := None |} in
  let srv :=
    after [RegisterResource (def "memory://*") (echo "first");
           RegisterResource (def "memory://re*") (echo "second")] in
  fst (readResource "memory://recent" srv fresh_heap)
    = Normal (PArr [PStr "first"; PStr "memory://recent"]) /\
  fst (readResource "file://x" srv fresh_heap)
    = Throw (ErrorObject "Resource not found: file://x").
Proof. split; reflexivity. Qed.

(** C5 at a concrete input: nothing is registered under
    ["memory://recent"], the entry ["memory://*"] registered first
    matches it with the prefix ["memory://"], and its handler answers
    with the URI it was given. *)
Lemma C5_readResource_lookup_witness :
  let echo (tag : string) : ResourceHandler :=
    fun u => ret (PArr [PStr tag; PStr u]) in
  let def (u : string) : ResourceDefinition :=
    {| uri := u; resourceName := u; resourceDescription := ""; mimeType := None |} in
  let srv :=
    after [RegisterResource (def "memory://*") (echo "first");
           RegisterResource (def "memory://re*") (echo "second")] in
  (("memory://recent" ∉ map fst (resourceHandlers srv)) /\
   matches_pattern "memory://recent" "memory://*") /\
  fst (readResource "memory://recent" srv fresh_heap)
    = Normal (PArr [PStr "first"; PStr "memory://recent"]).
Proof.
  intros echo def srv.
  assert (Hmiss : "memory://recent" ∉ map fst (resourceHandlers srv)).
  { intros Hin. apply list_elem_of_In in Hin. cbn in Hin.
    destruct Hin as [Hin|[Hin|[]]]; discriminate Hin. }
  assert (Hmatch : matches_pattern "memory://recent" "memory://*").
  { exists "memory://", "recent". split; [by left | reflexivity]. }
  destruct (C5_readResource_lookup srv "memory://recent" fresh_heap)
    as (_ & Hscan & _).
  split; [by split|].
  rewrite (Hscan Hmiss [] "memory://*" (echo "first")
             [("memory://re*", echo "second")] eq_refl (Forall_nil_2 _) Hmatch).
  reflexivity.
Defined.

End ResourceFacts.

(* ======================================================================= *)
(** ** Facts about reconnection *)
(* ======================================================================= *)

Lemma attempts_logged_app (l1 l2 : list LogLine) :
  attempts_logged (l1 ++ l2) = attempts_logged l1 + attempts_logged l2.
Proof.
  induction l1 as [|line l1 IH]; simpl; [done|].
  destruct line; simpl; lia.
Qed.

Section SseReconnect.
Import HttpSseTransport.







End SseReconnect.

Section WsReconnect.
Import WebSocketTransport.












End WsReconnect.



(* ======================================================================= *)
(** ** Facts about pending requests *)
(* ======================================================================= *)

Section WsRequests.
Import WebSocketTransport.

Lemma request_id_inj (n m : nat) : request_id n = request_id m -> n = m.
Proof.
  unfold request_id. intros E.
  apply (inj (String.append "req_")) in E. by apply (inj pretty) in E.
Qed.

Lemma settlements_of_snoc (p q : nat) (x : Settlement) (s s' : t) :
  settled s' = settled s ++ [(q, x)] ->
  settlements_of p s' = settlements_of p s ++ (if Nat.eqb q p then [x] else []).
Proof.
  unfold settlements_of. intros ->. rewrite omap_app. simpl.
  by destruct (Nat.eqb q p).
Qed.

Lemma settlements_of_same (p : nat) (s s' : t) :
  settled s' = settled s -> settlements_of p s' = settlements_of p s.
Proof. unfold settlements_of. by intros ->. Qed.

(** Sending, logging and the connection callbacks do not touch requests. *)
Lemma send_requests (m : Payload) (s : t) : requests_of (send m s) = requests_of s.
Proof. unfold send. by destruct (socket s) as [[]|]. Qed.

Lemma connect_requests (s : t) : requests_of (connect s) = requests_of s.
Proof. unfold connect. by destruct (connected s). Qed.

Lemma mark_requests from state (s : t) : requests_of (mark from state s) = requests_of s.
Proof. unfold mark. by destruct from, (socket s). Qed.

Lemma onclose_requests (s : t) : requests_of (onclose s) = requests_of s.
Proof.
  unfold onclose, reconnect. destruct (connected s); [|done].
  simpl. by destruct (_ <=? _)%Z.
Qed.

Lemma reconnect_timer_requests (s : t) : requests_of (reconnect_timer s) = requests_of s.
Proof.
  unfold reconnect_timer. destruct (reconnectTimers s); [done|].
  by rewrite connect_requests.
Qed.

Lemma handleToolCall_requests rid tool params (s : t) :
  requests_of (handleToolCall rid tool params s) = requests_of s.
Proof.
  unfold handleToolCall. destruct (toolCallHandler s) as [f|];
    [done | apply send_requests].
Qed.

Lemma handleResourceRead_requests rid u (s : t) :
  requests_of (handleResourceRead rid u s) = requests_of s.
Proof.
  unfold handleResourceRead. destruct (resourceReadHandler s) as [f|];
    [done | apply send_requests].
Qed.

Lemma resume_requests (k : nat) (s : t) : requests_of (resume k s) = requests_of s.
Proof.
  unfold resume. destruct (awaiting s !! k) as [call|]; [|done].
  destruct (outcome call) as [result|e];
    [|destruct (error_string e) as [msg|raised]; [|done]].
  all: by rewrite send_requests.
Qed.

(** What [request] does to the requests. *)
Lemma request_requests ty data (s : t) :
  let n := S (requestCounter s) in
  fst (request ty data s) = request_id n /\
  requests_of (snd (request ty data s)) =
    (<[request_id n := n]> (pendingRequests s), n,
     requestTimers s ++ [request_id n], settled s).
Proof.
  intros n. unfold request. cbn [fst snd]. split; [done|].
  match goal with |- context [send ?m ?s1] =>
    pose proof (send_requests m s1) as Hsend; set (s2 := send m s1) in * end.
  unfold requests_of in *. cbn [pendingRequests requestCounter requestTimers
    settled set_requests] in *. by injection Hsend as -> -> -> ->.
Qed.

Lemma step_requests (s : t) (e : Event) :
  requests_of (step s e) = requests_step s e.
Proof.
  destruct e; cbn [step requests_step].
  - apply connect_requests.
  - reflexivity.
  - apply request_requests.
  - apply request_requests.
  - apply send_requests.
  - unfold onopen. apply mark_requests.
  - reflexivity.
  - rewrite onclose_requests. apply mark_requests.
  - destruct message; cbn [handleMessage]; try reflexivity.
    + unfold handleResponse. by destruct (pendingRequests s !! id).
    + apply handleToolCall_requests.
    + apply handleResourceRead_requests.
  - apply resume_requests.
  - unfold fire_request_timer. destruct (bool_decide _); [|done].
    unfold request_timeout. cbn [pendingRequests set_requests].
    by destruct (pendingRequests s !! rid).
  - apply reconnect_timer_requests.
Qed.

(** Case analysis on an event through its effect on the requests: the
    four components of the next state are named [Hp Hc Ht Hs]. *)
Ltac request_cases s e :=
  let Hview := fresh "Hview" in
  pose proof (step_requests s e) as Hview;
  unfold requests_of, requests_step in Hview;
  destruct e as [| | | | | | | | [] | ? | ? |];
  repeat match type of Hview with
         | context [match pendingRequests s !! ?r with _ => _ end] =>
             let E := fresh "Elookup" in
             destruct (pendingRequests s !! r) eqn:E
         | context [if bool_decide ?P then _ else _] =>
             let E := fresh "Earmed" in
             destruct (bool_decide P) eqn:E
         end;
  pose proof (f_equal (fun x => fst (fst (fst x))) Hview) as Hp;
  pose proof (f_equal (fun x => snd (fst (fst x))) Hview) as Hc;
  pose proof (f_equal (fun x => snd (fst x)) Hview) as Ht;
  pose proof (f_equal snd Hview) as Hs;
  cbn [fst snd] in Hp, Hc, Ht, Hs; clear Hview.

Lemma consistent_new (o : Options) : consistent (new o).
Proof. intros rid p. cbn [new pendingRequests]. by rewrite lookup_empty. Qed.

Lemma consistent_step (s : t) (e : Event) : consistent s -> consistent (step s e).
Proof.
  intros Hcons rid0 p0. request_cases s e; rewrite Hp, Hc;
    try (by apply Hcons);
    rewrite ?lookup_empty, ?lookup_insert_Some, ?lookup_delete_Some; try done.
  - intros [[<- <-]|[_ H]]; [split; [done | lia]|].
    destruct (Hcons _ _ H). split; [done | lia].
  - intros [[<- <-]|[_ H]]; [split; [done | lia]|].
    destruct (Hcons _ _ H). split; [done | lia].
  - intros [_ H]. by apply Hcons.
  - intros [_ H]. by apply Hcons.
Qed.

Lemma consistent_run (es : list Event) :
  forall s, consistent s -> consistent (run es s).
Proof.
  induction es as [|e es IH]; intros s Hcons; [done|].
  apply IH. by apply consistent_step.
Qed.

(** Once the entry of an issued request is gone, no event brings it back
    and none calls its continuation. *)
Lemma abandoned_step (p : nat) (s : t) (e : Event) :
  consistent s -> abandoned p s ->
  abandoned p (step s e) /\ settlements_of p (step s e) = settlements_of p s.
Proof.
  intros Hcons [Hle Hnone]. unfold abandoned.
  request_cases s e; rewrite Hp, Hc;
    try (split; [by split | by apply settlements_of_same]).
  - split; [|by apply settlements_of_same]. split; [lia|].
    rewrite lookup_insert_ne; [done|]. intros E%request_id_inj. lia.
  - split; [|by apply settlements_of_same]. split; [lia|].
    rewrite lookup_insert_ne; [done|]. intros E%request_id_inj. lia.
  - destruct (Hcons _ _ Elookup) as [-> _].
    assert (n <> p) by (intros ->; congruence).
    split; [split; [done|] |].
    + rewrite lookup_delete_ne; [done|]. by intros E%request_id_inj.
    + rewrite (settlements_of_snoc p n _ s _ Hs).
      destruct (Nat.eqb_spec n p); [done | by rewrite app_nil_r].
  - destruct (Hcons _ _ Elookup) as [-> _].
    assert (n <> p) by (intros ->; congruence).
    split; [split; [done|] |].
    + rewrite lookup_delete_ne; [done|]. by intros E%request_id_inj.
    + rewrite (settlements_of_snoc p n _ s _ Hs).
      destruct (Nat.eqb_spec n p); [done | by rewrite app_nil_r].
Qed.

Lemma abandoned_run (p : nat) (es : list Event) :
  forall s, consistent s -> abandoned p s ->
    settlements_of p (run es s) = settlements_of p s.
Proof.
  induction es as [|e es IH]; intros s Hcons Hab; [done|].
  destruct (abandoned_step p s e Hcons Hab) as [Hab' Hsame].
  unfold run in *. cbn [fold_left]. rewrite IH; [done | by apply consistent_step | done].
Qed.

Lemma settled_issued_step (s : t) (e : Event) :
  consistent s -> settled_issued s -> settled_issued (step s e).
Proof.
  unfold settled_issued. intros Hcons Hsi.
  request_cases s e; rewrite Hs, Hc; try done.
  - eapply Forall_impl; [done|]. simpl. lia.
  - eapply Forall_impl; [done|]. simpl. lia.
  - apply Forall_app. split; [done|]. apply Forall_singleton. simpl.
    by destruct (Hcons _ _ Elookup).
  - apply Forall_app. split; [done|]. apply Forall_singleton. simpl.
    by destruct (Hcons _ _ Elookup).
Qed.

Lemma settled_issued_fresh (s : t) (p : nat) :
  settled_issued s -> requestCounter s < p -> settlements_of p s = [].
Proof.
  unfold settled_issued, settlements_of. intros Hsi Hlt.
  induction (settled s) as [|[q x] l IH]; [done|].
  apply Forall_cons in Hsi as [Hq Hl]. simpl in Hq. cbn [omap list_omap fst snd].
  destruct (Nat.eqb_spec q p); [lia | by apply IH].
Qed.

(** While nothing removes its entry, a request stays in flight and its
    continuation is not called. *)
Lemma in_flight_step (rid : string) (p : nat) (s : t) (e : Event) :
  consistent s -> in_flight rid p s -> leaves_pending rid e = true ->
  in_flight rid p (step s e) /\ settlements_of p (step s e) = settlements_of p s.
Proof.
  intros Hcons [Hin Harmed] Hquiet. unfold in_flight.
  destruct (Hcons _ _ Hin) as [Hrid Hle].
  request_cases s e; try discriminate Hquiet; rewrite Hp, Ht;
    try (split; [by split | by apply settlements_of_same]);
    cbn [leaves_pending] in Hquiet;
    try (apply negb_true_iff, String.eqb_neq in Hquiet).
  - split; [|by apply settlements_of_same]. split.
    + rewrite lookup_insert_ne; [done|]. rewrite Hrid. intros E%request_id_inj. lia.
    + apply elem_of_app. by left.
  - split; [|by apply settlements_of_same]. split.
    + rewrite lookup_insert_ne; [done|]. rewrite Hrid. intros E%request_id_inj. lia.
    + apply elem_of_app. by left.
  - destruct (Hcons _ _ Elookup) as [Hid _].
    split; [split; [by rewrite lookup_delete_ne | done]|].
    rewrite (settlements_of_snoc p n _ s _ Hs).
    destruct (Nat.eqb_spec n p) as [->|]; [congruence | by rewrite app_nil_r].
  - destruct (Hcons _ _ Elookup) as [Hid _].
    split; [split; [by rewrite lookup_delete_ne|] |].
    + apply list_elem_of_In, filter_In. split; [by apply list_elem_of_In|].
      apply negb_true_iff, String.eqb_neq. congruence.
    + rewrite (settlements_of_snoc p n _ s _ Hs).
      destruct (Nat.eqb_spec n p) as [->|]; [congruence | by rewrite app_nil_r].
  - split; [split; [done|] | by apply settlements_of_same].
    apply list_elem_of_In, filter_In. split; [by apply list_elem_of_In|].
    apply negb_true_iff, String.eqb_neq. congruence.
Qed.

Lemma in_flight_run (rid : string) (p : nat) (es : list Event) :
  forall s,
    consistent s -> in_flight rid p s -> forallb (leaves_pending rid) es = true ->
    in_flight rid p (run es s) /\ settlements_of p (run es s) = settlements_of p s.
Proof.
  induction es as [|e es IH]; intros s Hcons Hin Hquiet; [done|].
  cbn [forallb] in Hquiet. apply andb_true_iff in Hquiet as [He Hes].
  destruct (in_flight_step rid p s e Hcons Hin He) as [Hin' Hsame].
  destruct (IH (step s e) (consistent_step s e Hcons) Hin' Hes) as [Hin'' Hsame'].
  unfold run in *. cbn [fold_left]. split; [done | congruence].
Qed.

(** The timer of a request in flight rejects it with the timeout error
    and removes its entry, and only its entry. *)
Lemma timer_rejects_in_flight (rid : string) (p : nat) (s : t) :
  in_flight rid p s ->
  let s' := step s (RequestTimer rid) in
  settled s' = settled s ++ [(p, Reject "Request timeout")] /\
  pendingRequests s' = delete rid (pendingRequests s) /\
  requestCounter s' = requestCounter s.
Proof.
  intros [Hin Harmed] s'. subst s'.
  pose proof (step_requests s (RequestTimer rid)) as Hview.
  unfold requests_of, requests_step in Hview.
  rewrite bool_decide_eq_true_2, Hin in Hview by done.
  pose proof (f_equal (fun x => fst (fst (fst x))) Hview) as Hp.
  pose proof (f_equal (fun x => snd (fst (fst x))) Hview) as Hc.
  pose proof (f_equal snd Hview) as Hs.
  cbn [fst snd] in Hp, Hc, Hs. done.
Qed.

(** Without [disconnect()] in between, a request that receives no
    response is rejected by its timer, once, with the timeout error; its
    correlation id then is no longer in the map, and the other entries are
    as they were. *)
Lemma request_times_out (s : t) (ty : string) (data : Payload) (es : list Event) :
  consistent s -> settled_issued s ->
  let rid := fst (request ty data s) in
  let p := S (requestCounter s) in
  forallb (leaves_pending rid) es = true ->
  let s2 := run es (snd (request ty data s)) in
  let s3 := step s2 (RequestTimer rid) in
  rid = request_id p /\
  settled s3 = settled s2 ++ [(p, Reject "Request timeout")] /\
  settlements_of p s3 = [Reject "Request timeout"] /\
  pendingRequests s3 !! rid = None /\
  (forall other, other <> rid ->
     pendingRequests s3 !! other = pendingRequests s2 !! other).
Proof.
  intros Hcons Hsi rid p Hquiet s2 s3.
  destruct (request_requests ty data s) as [Hrid Hview]. fold p in Hrid, Hview.
  set (s1 := snd (request ty data s)) in *.
  pose proof (f_equal (fun x => fst (fst (fst x))) Hview) as Hp.
  pose proof (f_equal (fun x => snd (fst (fst x))) Hview) as Hc.
  pose proof (f_equal (fun x => snd (fst x)) Hview) as Ht.
  pose proof (f_equal snd Hview) as Hs.
  cbn [fst snd requests_of] in Hp, Hc, Ht, Hs.
  assert (Hcons1 : consistent s1).
  { intros r q Hq. rewrite Hp in Hq. rewrite Hc.
    apply lookup_insert_Some in Hq as [[<- <-]|[_ Hq]]; [split; [done | lia]|].
    destruct (Hcons _ _ Hq). split; [done | lia]. }
  assert (Hin1 : in_flight rid p s1).
  { split.
    - rewrite Hp. fold rid in Hrid. rewrite Hrid. apply lookup_insert_eq.
    - rewrite Ht. apply elem_of_app. right. fold rid in Hrid. rewrite Hrid.
      by apply list_elem_of_singleton. }
  assert (Hnone1 : settlements_of p s1 = []).
  { rewrite (settlements_of_same p s s1) by done.
    apply settled_issued_fresh; [done | subst p; lia]. }
  destruct (in_flight_run rid p es s1 Hcons1 Hin1 Hquiet) as [Hin2 Hsame].
  fold s2 in Hin2, Hsame.
  destruct (timer_rejects_in_flight rid p s2 Hin2) as (Hs3 & Hp3 & Hc3).
  fold s3 in Hs3, Hp3, Hc3.
  split; [done|]. split; [done|]. split; [|split].
  - rewrite (settlements_of_snoc p p _ s2 s3 Hs3), Hsame, Hnone1.
    by rewrite Nat.eqb_refl.
  - rewrite Hp3. apply lookup_delete_eq.
  - intros other Hne. rewrite Hp3. by apply lookup_delete_ne.
Qed.

Lemma called_at_most_once_step (s : t) (e : Event) :
  consistent s -> settled_issued s -> called_at_most_once s ->
  called_at_most_once (step s e).
Proof.
  intros Hcons Hsi Honce p. destruct (Honce p) as [Hlen Hpending].
  request_cases s e; rewrite Hp;
    try (rewrite (settlements_of_same p s _ Hs); by split).
  - rewrite (settlements_of_same p s _ Hs). split; [done|].
    rewrite lookup_empty. by intros [? ?].
  - rewrite (settlements_of_same p s _ Hs). split; [done|].
    intros [q Hq]. apply lookup_insert_Some in Hq as [[E _]|[_ Hq]].
    + apply request_id_inj in E. subst p. apply settled_issued_fresh; [done | lia].
    + apply Hpending. by exists q.
  - rewrite (settlements_of_same p s _ Hs). split; [done|].
    intros [q Hq]. apply lookup_insert_Some in Hq as [[E _]|[_ Hq]].
    + apply request_id_inj in E. subst p. apply settled_issued_fresh; [done | lia].
    + apply Hpending. by exists q.
  - destruct (Hcons _ _ Elookup) as [-> _].
    rewrite (settlements_of_snoc p n _ s _ Hs).
    destruct (Nat.eqb_spec n p) as [->|Hne].
    + rewrite Hpending by (by exists p). split; [simpl; lia|].
      rewrite lookup_delete_eq. by intros [? ?].
    + rewrite app_nil_r. split; [done|].
      intros [q Hq]. apply lookup_delete_Some in Hq as [_ Hq].
      apply Hpending. by exists q.
  - destruct (Hcons _ _ Elookup) as [-> _].
    rewrite (settlements_of_snoc p n _ s _ Hs).
    destruct (Nat.eqb_spec n p) as [->|Hne].
    + rewrite Hpending by (by exists p). split; [simpl; lia|].
      rewrite lookup_delete_eq. by intros [? ?].
    + rewrite app_nil_r. split; [done|].
      intros [q Hq]. apply lookup_delete_Some in Hq as [_ Hq].
      apply Hpending. by exists q.
Qed.

(** On a transport driven from its construction by any events, the
    continuation of a request is called at most once. *)
Lemma continuation_called_at_most_once (o : Options) (es : list Event) (p : nat) :
  length (settlements_of p (run es (new o))) <= 1.
Proof.
  assert (H : forall s, consistent s -> settled_issued s -> called_at_most_once s ->
                        called_at_most_once (run es s)).
  { induction es as [|e es IH]; intros s Hcons Hsi Honce; [done|].
    change (run (e :: es) s) with (run es (step s e)).
    apply IH; [by apply consistent_step | by apply settled_issued_step |
               by apply called_at_most_once_step]. }
  apply H.
  - apply consistent_new.
  - by constructor.
  - intros q. split; [simpl; lia | done].
Qed.

Lemma run_app (es1 es2 : list Event) (s : t) :
  run (es1 ++ es2) s = run es2 (run es1 s).
Proof. unfold run. apply fold_left_app. Qed.

(** C2.  The claim: every pending request is eventually resolved,
    rejected or timed out, also one that is outstanding when [disconnect()]
    clears the map.  The code: [disconnect()] empties [pendingRequests]
    without calling any continuation, and the timer of a request looks its
    entry up in that map before it rejects.  So for a request issued on a
    new transport and followed by [disconnect()], whatever happens
    afterwards (its timer firing, a late response, new requests,
    reconnects), the continuation of its promise is never called. *)
Theorem C2_disconnect_leaves_request_unsettled
    (o : Options) (tool : string) (params : Payload) (later : list Event) :
  let s := run ([CallTool tool params; Disconnect] ++ later) (new o) in
  fst (callTool tool params (new o)) = "req_1" /\
  settlements_of 1 s = [] /\
  pendingRequests s !! "req_1" = None.
Proof.
  intros s. subst s. rewrite run_app.
  set (s2 := run [CallTool tool params; Disconnect] (new o)).
  assert (Hcons : consistent s2).
  { apply (consistent_run [CallTool tool params; Disconnect]), consistent_new. }
  assert (Hab : abandoned 1 s2) by (split; [cbn; lia | reflexivity]).
  split; [reflexivity|]. split.
  - rewrite (abandoned_run 1 later s2 Hcons Hab). reflexivity.
  - clearbody s2. revert s2 Hcons Hab.
    induction later as [|e later IH]; intros s2 Hcons Hab; [apply Hab|].
    change (run (e :: later) s2) with (run later (step s2 e)).
    apply IH; [by apply consistent_step|].
    by apply abandoned_step.
Qed.

(** C4.  The claim: a call that never receives a response is rejected with
    a timeout error when its timer fires.  The code, on a call followed by
    [disconnect()] before the timer fires: the call is issued as [req_1],
    its entry and its timer exist, [disconnect()] drops the entry and
    leaves the timer armed, and when the timer fires it finds no entry and
    rejects nothing. *)
Theorem C4_timer_after_disconnect_rejects_nothing :
  let s0 := new (make_options "ws://host" None None) in
  let rid := fst (callTool "echo" PNull s0) in
  let s1 := snd (callTool "echo" PNull s0) in
  let s2 := step s1 Disconnect in
  let s3 := step s2 (RequestTimer rid) in
  rid = "req_1" /\
  in_flight rid 1 s1 /\
  rid ∈ requestTimers s2 /\
  pendingRequests s2 !! rid = None /\
  settled s3 = [] /\
  requestTimers s3 = [].
Proof.
  cbv zeta. split; [reflexivity|]. split; [|split].
  - split; [reflexivity|]. vm_compute. apply list_elem_of_here.
  - vm_compute. apply list_elem_of_here.
  - repeat split; reflexivity.
Qed.

End WsRequests.

(* ======================================================================= *)
(** ** More facts about the event bus *)
(* ======================================================================= *)

Section BusHistoryFacts.
Import EventBus BusHistory.

Lemma jsmap_get_delete_other {V} (k k' : string) (m : JsMap.t V) :
  k <> k' -> JsMap.get k' (JsMap.delete k m) = JsMap.get k' m.
Proof.
  intros Hne. induction m as [|[k0 v0] m IH]; simpl; [done|].
  destruct (String.eqb_spec k k0) as [->|]; simpl.
  - destruct (String.eqb_spec k' k0); congruence.
  - destruct (String.eqb_spec k' k0); [done | apply IH].
Qed.

Lemma subscription_id_inj (n m : nat) :
  subscription_id n = subscription_id m -> n = m.
Proof.
  unfold subscription_id. intros E.
  apply (inj (String.append "sub_")) in E. by apply (inj pretty) in E.
Qed.

(** The subscribers of the events after [subscriptions.set(event, subs)]. *)
Lemma subscribers_set (event other : string) (subs : list Subscription) (b : t) :
  subscribers other (EventBusOps.set_subscriptions (JsMap.set event subs (subscriptions b)) b) =
    if String.eqb event other then subs else subscribers other b.
Proof.
  unfold subscribers. cbn [subscriptions EventBusOps.set_subscriptions].
  destruct (String.eqb_spec event other) as [->|Hne].
  - by rewrite get_set_same.
  - by rewrite jsmap_get_set_other.
Qed.

(** What [subscribe] does: the counter moves on by one, the new
    subscription goes behind the subscriptions of its event, and the other
    events keep theirs. *)
Lemma subscribe_spec (event : string) (f : EventHandler) (flag : bool) (h : Heap) :
  let n := S (subscriptionCounter (bus h)) in
  let sub := {| id := subscription_id n; handler := f; once := flag |} in
  exists b',
    EventBusOps.subscribe event f flag h = (Normal (subscription_id n), set_bus b' h) /\
    subscriptionCounter b' = n /\
    JsMap.keys (subscriptions b') =
      (if JsMap.has event (subscriptions (bus h))
       then JsMap.keys (subscriptions (bus h))
       else JsMap.keys (subscriptions (bus h)) ++ [event]) /\
    forall other,
      subscribers other b' =
        if String.eqb event other then subscribers event (bus h) ++ [sub]
        else subscribers other (bus h).
Proof.
  intros n sub. unfold EventBusOps.subscribe, bind, gets, modify, ret.
  cbv beta iota zeta. fold n. fold (subscription_id n). fold sub.
  eexists. split; [reflexivity|]. split; [reflexivity|].
  cbn [subscriptions]. unfold JsMap.has.
  destruct (JsMap.get event (subscriptions (bus h))) as [subs|] eqn:Hget.
  - split.
    + rewrite jsmap_keys_set. unfold JsMap.has. by rewrite Hget.
    + intros other. unfold subscribers at 1. cbn [subscriptions].
      rewrite Hget. cbn [default from_option].
      destruct (String.eqb_spec event other) as [->|Hne].
      * rewrite get_set_same. unfold subscribers. by rewrite Hget.
      * by rewrite jsmap_get_set_other.
  - split.
    + rewrite !jsmap_keys_set. unfold JsMap.has. rewrite Hget, get_set_same.
      done.
    + intros other. unfold subscribers at 1. cbn [subscriptions].
      rewrite get_set_same. cbn [default from_option app].
      destruct (String.eqb_spec event other) as [->|Hne].
      * rewrite get_set_same. unfold subscribers. by rewrite Hget.
      * by rewrite !jsmap_get_set_other.
Qed.

(** What one emission leaves of the subscriptions. *)
Lemma subscribers_after_emit (event other : string) (data : Payload) (b : t) :
  subscribers other (bus_after_emit event data b) =
    if String.eqb event other
    then List.filter
           (fun s => negb (EventBusOps.includes (collected data (subscribers event b)) (id s)))
           (subscribers event b)
    else subscribers other b.
Proof.
  unfold bus_after_emit.
  destruct (JsMap.get event (subscriptions b)) as [subs|] eqn:Hget.
  - assert (Hsubs : subscribers event b = subs) by (unfold subscribers; by rewrite Hget).
    rewrite Hsubs.
    destruct (collected data subs) as [|x xs] eqn:Hc.
    + cbn [length Nat.ltb Nat.leb]. destruct (String.eqb_spec event other) as [<-|]; [|done].
      rewrite Hsubs. symmetry. apply forallb_filter_id.
      apply forallb_forall. by intros s _.
    + cbn [length Nat.ltb Nat.leb]. apply subscribers_set.
  - destruct (String.eqb_spec event other) as [<-|]; [|done].
    unfold subscribers. by rewrite Hget.
Qed.

(** What [unsubscribe] leaves of the subscriptions. *)
Lemma unsubscribe_spec (event sid : string) (h : Heap) :
  exists b',
    EventBusOps.unsubscribe event sid h = (Normal tt, set_bus b' h) /\
    subscriptionCounter b' = subscriptionCounter (bus h) /\
    JsMap.keys (subscriptions b') = JsMap.keys (subscriptions (bus h)) /\
    forall other,
      subscribers other b' =
        if String.eqb event other
        then List.filter (fun s => negb (String.eqb (id s) sid))
               (subscribers event (bus h))
        else subscribers other (bus h).
Proof.
  unfold EventBusOps.unsubscribe, bind, gets. cbv beta.
  destruct (JsMap.get event (subscriptions (bus h))) as [subs|] eqn:Hget.
  - eexists. split; [reflexivity|]. split; [reflexivity|].
    cbn [subscriptions EventBusOps.set_subscriptions]. split.
    + rewrite jsmap_keys_set. unfold JsMap.has. by rewrite Hget.
    + intros other. rewrite subscribers_set.
      unfold subscribers. by rewrite Hget.
  - exists (bus h). split; [unfold ret, set_bus; by rewrite heap_eta|].
    split; [done|]. split; [done|]. intros other.
    destruct (String.eqb_spec event other) as [<-|]; [|done].
    unfold subscribers. by rewrite Hget.
Qed.

Lemma NoDup_map_filter {A B} (f : A -> B) (p : A -> bool) (l : list A) :
  NoDup (map f l) -> NoDup (map f (List.filter p l)).
Proof.
  induction l as [|x l IH]; [done|]. cbn [map List.filter].
  intros [Hx Hl]%NoDup_cons. destruct (p x); [|by apply IH].
  cbn [map]. apply NoDup_cons. split; [|by apply IH].
  intros Hin. apply Hx. apply list_elem_of_In, in_map_iff in Hin as (y & Hy & Hin).
  apply filter_In in Hin as [Hin _].
  apply list_elem_of_In, in_map_iff. by exists y.
Qed.

Lemma Forall_list_filter {A} (P : A -> Prop) (p : A -> bool) (l : list A) :
  Forall P l -> Forall P (List.filter p l).
Proof.
  rewrite !Forall_forall. intros H x Hx. apply list_elem_of_In, filter_In in Hx as [Hx _].
  by apply H, list_elem_of_In.
Qed.

(** The invariant survives every step that moves the counter forward and
    only filters the subscriptions of each event. *)
Lemma bus_ok_shrink (b b' : t) :
  bus_ok b ->
  NoDup (JsMap.keys (subscriptions b')) ->
  subscriptionCounter b <= subscriptionCounter b' ->
  (forall event, exists p,
     subscribers event b' = List.filter p (subscribers event b)) ->
  bus_ok b'.
Proof.
  intros [_ Hok] Hkeys Hle Hshrink. split; [done|]. intros event.
  destruct (Hok event) as [Hnd Hids]. destruct (Hshrink event) as [p ->]. split.
  - by apply NoDup_map_filter.
  - apply Forall_list_filter. eapply Forall_impl; [done|].
    intros s (n & Hn & Hle'). exists n. split; [done | lia].
Qed.

Lemma filter_all {A} (l : list A) : l = List.filter (fun _ => true) l.
Proof. symmetry. apply forallb_filter_id, forallb_forall. by intros. Qed.

Lemma filter_none {A} (l : list A) : [] = List.filter (fun _ => false) l.
Proof. induction l; [done|]. by cbn [List.filter]. Qed.

Lemma bus_after_emit_frame (event : string) (data : Payload) (b : t) :
  JsMap.keys (subscriptions (bus_after_emit event data b)) = JsMap.keys (subscriptions b) /\
  subscriptionCounter (bus_after_emit event data b) = subscriptionCounter b.
Proof.
  unfold bus_after_emit.
  destruct (JsMap.get event (subscriptions b)) as [subs|] eqn:Hget; [|done].
  destruct (0 <? length (collected data subs))%nat; [|done].
  cbn [subscriptions subscriptionCounter EventBusOps.set_subscriptions].
  rewrite jsmap_keys_set. unfold JsMap.has. by rewrite Hget.
Qed.

Lemma bus_ok_subscribe (event : string) (f : EventHandler) (flag : bool) (h : Heap) :
  bus_ok (bus h) ->
  exists sid h',
    EventBusOps.subscribe event f flag h = (Normal sid, h') /\ bus_ok (bus h').
Proof.
  intros [Hkeys Hok].
  destruct (subscribe_spec event f flag h) as (b' & Hrun & Hcount & Hk & Hsubs).
  eexists _, _. split; [exact Hrun|]. cbn [set_bus bus]. split.
  - rewrite Hk. destruct (JsMap.has event (subscriptions (bus h))) eqn:Hhas; [done|].
    apply NoDup_app. split; [done|]. split; [|apply NoDup_singleton].
    intros x Hx ->%list_elem_of_singleton. apply jsmap_has_true in Hx. congruence.
  - intros other. rewrite Hsubs.
    destruct (String.eqb_spec event other) as [<-|Hne].
    + destruct (Hok event) as [Hnd Hids]. split.
      * rewrite map_app. apply NoDup_app. split; [done|].
        split; [|apply NoDup_singleton].
        intros x Hx ->%list_elem_of_singleton.
        apply list_elem_of_In, in_map_iff in Hx as (s & Hs & Hin).
        rewrite Forall_forall in Hids.
        destruct (Hids s) as (n & Hn & Hle); [by apply list_elem_of_In|].
        cbn [id] in Hs. rewrite Hn in Hs. apply subscription_id_inj in Hs. lia.
      * apply Forall_app. split.
        -- eapply Forall_impl; [done|]. intros s (n & Hn & Hle).
           exists n. split; [done | lia].
        -- apply Forall_singleton. eexists. split; [reflexivity | lia].
    + destruct (Hok other) as [Hnd Hids]. split; [done|].
      eapply Forall_impl; [done|]. intros s (n & Hn & Hle).
      exists n. split; [done | lia].
Qed.

Lemma bus_ok_perform (c : Call) (h : Heap) :
  bus_ok (bus h) ->
  exists h', perform c h = (Normal tt, h') /\ bus_ok (bus h').
Proof.
  intros Hok. destruct c as [event f|event f|event data|event| |event sid]; cbn [perform].
  - destruct (bus_ok_subscribe event f false h Hok) as (sid & h' & Hrun & Hok').
    exists h'. split; [|done]. unfold bind, EventBusOps.on. by rewrite Hrun.
  - destruct (bus_ok_subscribe event f true h Hok) as (sid & h' & Hrun & Hok').
    exists h'. split; [|done]. unfold bind, EventBusOps.once. by rewrite Hrun.
  - rewrite emit_spec. eexists. split; [reflexivity|].
    unfold heap_after_emit. cbn [bus].
    destruct (bus_after_emit_frame event data (bus h)) as [Hk Hc].
    apply (bus_ok_shrink (bus h)); [done | rewrite Hk; apply Hok | lia |].
    intros other. rewrite subscribers_after_emit.
    destruct (String.eqb_spec event other) as [<-|]; [by eexists|].
    eexists. apply filter_all.
  - eexists. split; [reflexivity|]. cbn [bus set_bus].
    apply (bus_ok_shrink (bus h)); [done | | done |].
    + apply jsmap_nodup_delete, Hok.
    + intros other. unfold subscribers at 1.
      cbn [subscriptions EventBusOps.set_subscriptions].
      destruct (String.eqb_spec event other) as [<-|Hne].
      * rewrite jsmap_get_delete_same by apply Hok. eexists. apply filter_none.
      * rewrite jsmap_get_delete_other by done. eexists. apply filter_all.
  - eexists. split; [reflexivity|]. cbn [bus set_bus].
    apply (bus_ok_shrink (bus h)); [done | by constructor | done |].
    intros other. eexists. apply filter_none.
  - destruct (unsubscribe_spec event sid h) as (b' & Hrun & Hc & Hk & Hsubs).
    exists (set_bus b' h). split; [done|]. cbn [bus set_bus].
    apply (bus_ok_shrink (bus h)); [done | rewrite Hk; apply Hok | lia |].
    intros other. rewrite Hsubs.
    destruct (String.eqb_spec event other) as [<-|]; [by eexists|].
    eexists. apply filter_all.
Qed.

Lemma bus_ok_fresh : bus_ok (bus fresh_heap).
Proof.
  split; [by constructor|]. intros event. split; [by constructor | by constructor].
Qed.

Lemma perform_all_ok (history : list Call) :
  forall h, bus_ok (bus h) ->
    exists h', perform_all history h = (Normal tt, h') /\ bus_ok (bus h').
Proof.
  induction history as [|c history IH]; intros h Hok; [by exists h|].
  destruct (bus_ok_perform c h Hok) as (h1 & Hrun & Hok1).
  destruct (IH h1 Hok1) as (h2 & Hrun2 & Hok2).
  exists h2. split; [|done]. cbn [perform_all]. unfold bind. by rewrite Hrun.
Qed.

Lemma after_ok (history : list Call) : bus_ok (bus (after history)).
Proof.
  destruct (perform_all_ok history fresh_heap bus_ok_fresh) as (h' & Hrun & Hok).
  unfold after. by rewrite Hrun.
Qed.

(** X1.  One emission never throws; it calls the handler of every
    subscription of the event once, in registration order, whatever the
    earlier handlers did (returned or threw), and leaves the subscriptions
    of all other events as they were. *)
Theorem X1_emit_reaches_every_subscriber (event : string) (data : Payload) (h : Heap) :
  exists h',
    EventBusOps.emit event data h = (Normal tt, h') /\
    journal h' =
      journal h ++ map (fun s => Fired (id s) event data) (subscribers event (bus h)) /\
    (forall s, s ∈ subscribers event (bus h) ->
       times_fired (id s) (journal h') >= S (times_fired (id s) (journal h))) /\
    (forall other, other <> event ->
       subscribers other (bus h') = subscribers other (bus h)).
Proof.
  rewrite emit_spec. eexists. split; [reflexivity|]. split; [reflexivity|]. split.
  - intros s Hs. unfold heap_after_emit. cbn [journal]. unfold times_fired.
    rewrite List.filter_app, length_app.
    assert (1 <= length
              (List.filter
                 (fun e => match e with
                           | Fired s0 _ _ => String.eqb s0 (id s)
                           | Sent _ => false
                           end)
                 (firings event data (subscribers event (bus h))))); [|lia].
    induction (subscribers event (bus h)) as [|x l IH];
      [by apply not_elem_of_nil in Hs|].
    cbn [firings map List.filter].
    apply elem_of_cons in Hs as [->|Hs].
    + rewrite String.eqb_refl. cbn [length]. lia.
    + destruct (String.eqb (id x) (id s)); cbn [length];
        specialize (IH Hs); unfold firings in IH; lia.
  - intros other Hne. unfold heap_after_emit. cbn [bus].
    rewrite subscribers_after_emit.
    destruct (String.eqb_spec event other); [congruence | done].
Qed.

Lemma subscribe_after_history
    (history : list Call) (event : string) (f : EventHandler) (flag : bool) :
  let h := after history in
  let sid := subscription_id (S (subscriptionCounter (bus h))) in
  exists h',
    EventBusOps.subscribe event f flag h = (Normal sid, h') /\
    (forall other s, s ∈ subscribers other (bus h) -> id s <> sid) /\
    subscribers event (bus h') =
      subscribers event (bus h)
      ++ [{| id := sid; handler := f; EventBus.once := flag |}] /\
    EventBusOps.listenerCount event (bus h') =
      S (EventBusOps.listenerCount event (bus h)) /\
    (forall other, other <> event ->
       subscribers other (bus h') = subscribers other (bus h)).
Proof.
  intros h sid.
  destruct (subscribe_spec event f flag h) as (b' & Hrun & Hcount & Hk & Hsubs).
  exists (set_bus b' h). split; [exact Hrun|]. cbn [bus set_bus]. split; [|split; [|split]].
  - intros other s Hs E. destruct (after_ok history) as [_ Hok].
    destruct (Hok other) as [_ Hids]. rewrite Forall_forall in Hids.
    destruct (Hids s Hs) as (n & Hn & Hle). fold h in Hle.
    rewrite Hn in E. apply subscription_id_inj in E. lia.
  - rewrite Hsubs. by rewrite String.eqb_refl.
  - assert (Hcount' : forall b, EventBusOps.listenerCount event b
                                = length (subscribers event b)).
    { intros b. unfold EventBusOps.listenerCount, subscribers.
      by destruct (JsMap.get event (subscriptions b)). }
    rewrite !Hcount', Hsubs, String.eqb_refl, length_app. cbn [length]. lia.
  - intros other Hne. rewrite Hsubs.
    destruct (String.eqb_spec event other); [congruence | done].
Qed.

(** X2.  After any history of bus calls, [subscribe] hands out an id that
    no subscription of any event carries, puts the new subscription behind
    the ones of its event, and raises that event's listener count by
    one. *)
Theorem X2_subscribe_id_is_fresh
    (history : list Call) (event : string) (f : EventHandler) (flag : bool) :
  let h := after history in
  let sid := subscription_id (S (subscriptionCounter (bus h))) in
  exists h',
    EventBusOps.subscribe event f flag h = (Normal sid, h') /\
    (forall other s, s ∈ subscribers other (bus h) -> id s <> sid) /\
    subscribers event (bus h') =
      subscribers event (bus h)
      ++ [{| id := sid; handler := f; EventBus.once := flag |}] /\
    EventBusOps.listenerCount event (bus h') =
      S (EventBusOps.listenerCount event (bus h)) /\
    (forall other, other <> event ->
       subscribers other (bus h') = subscribers other (bus h)).
Proof. apply subscribe_after_history. Qed.

(** X3.  After any history of bus calls, the closure returned by a
    subscription takes exactly that subscription away again: the
    subscriptions of every event are what they were before subscribing.
    Calling the closure a second time changes nothing. *)
Theorem X3_unsubscribe_undoes_subscribe
    (history : list Call) (event : string) (f : EventHandler) (flag : bool) :
  let h := after history in
  exists sid h1 h2 h3,
    EventBusOps.subscribe event f flag h = (Normal sid, h1) /\
    EventBusOps.unsubscribe event sid h1 = (Normal tt, h2) /\
    EventBusOps.unsubscribe event sid h2 = (Normal tt, h3) /\
    (forall other, subscribers other (bus h2) = subscribers other (bus h)) /\
    (forall other, subscribers other (bus h3) = subscribers other (bus h2)).
Proof.
  intros h.
  destruct (subscribe_after_history history event f flag)
    as (h1 & Hrun1 & Hfresh & Hsubs1 & _ & Hother1).
  fold h in Hrun1, Hfresh, Hsubs1, Hother1.
  set (sid := subscription_id (S (subscriptionCounter (bus h)))) in *.
  destruct (unsubscribe_spec event sid h1) as (b2 & Hrun2 & _ & _ & Hsubs2).
  destruct (unsubscribe_spec event sid (set_bus b2 h1)) as (b3 & Hrun3 & _ & _ & Hsubs3).
  exists sid, h1, (set_bus b2 h1), (set_bus b3 (set_bus b2 h1)).
  split; [done|]. split; [done|]. split; [done|]. cbn [bus set_bus].
  assert (Hkeep : List.filter (fun s => negb (String.eqb (id s) sid))
                    (subscribers event (bus h)) = subscribers event (bus h)).
  { apply forallb_filter_id, forallb_forall. intros s Hs%list_elem_of_In.
    apply negb_true_iff, String.eqb_neq. by apply (Hfresh event). }
  assert (H2 : forall other, subscribers other b2 = subscribers other (bus h)).
  { intros other. rewrite Hsubs2.
    destruct (String.eqb_spec event other) as [<-|Hne]; [|by apply Hother1].
    rewrite Hsubs1, List.filter_app, Hkeep. cbn [List.filter id].
    rewrite String.eqb_refl. apply app_nil_r. }
  split; [done|]. intros other. rewrite Hsubs3. cbn [bus set_bus].
  destruct (String.eqb_spec event other) as [<-|Hne]; [|done].
  by rewrite !H2, Hkeep.
Qed.

(** X4.  After any history of bus calls, [off(event)] leaves the event
    without listeners, so that an emission of it calls nobody, and leaves
    the subscriptions of the other events alone; [clear()] leaves every
    event without listeners. *)
Theorem X4_off_silences_event (history : list Call) (event : string) (data : Payload) :
  let h := after history in
  let h1 := snd (EventBusOps.off event h) in
  let h2 := snd (EventBusOps.clear h) in
  EventBusOps.listenerCount event (bus h1) = 0 /\
  EventBusOps.emit event data h1 = (Normal tt, h1) /\
  (forall other, other <> event ->
     subscribers other (bus h1) = subscribers other (bus h)) /\
  (forall other, EventBusOps.listenerCount other (bus h2) = 0).
Proof.
  intros h h1 h2. destruct (after_ok history) as [Hkeys _]. fold h in Hkeys.
  assert (Hnone : JsMap.get event (subscriptions (bus h1)) = None).
  { subst h1. cbn. by apply jsmap_get_delete_same. }
  split; [|split; [|split]].
  - unfold EventBusOps.listenerCount. by rewrite Hnone.
  - rewrite emit_spec. unfold heap_after_emit, bus_after_emit, subscribers.
    rewrite Hnone. cbn [default from_option firings map].
    by rewrite app_nil_r, heap_eta.
  - intros other Hne. subst h1. unfold subscribers. cbn.
    by rewrite jsmap_get_delete_other.
  - intros other. reflexivity.
Qed.

(** X5.  After any history of bus calls, one emission removes from the
    event's list exactly the [once] subscriptions whose handler returned;
    every other subscription of the event stays, in order. *)
Theorem X5_emit_prunes_returning_once_handlers
    (history : list Call) (event : string) (data : Payload) :
  let h := after history in
  subscribers event (bus (snd (EventBusOps.emit event data h))) =
    List.filter
      (fun s => negb (EventBus.once s && returns_normally (handler s data)))
      (subscribers event (bus h)).
Proof.
  intros h. rewrite emit_spec. cbn [snd heap_after_emit bus].
  rewrite subscribers_after_emit, String.eqb_refl.
  destruct (after_ok history) as [_ Hok]. destruct (Hok event) as [Hnd _].
  fold h in Hnd. set (subs := subscribers event (bus h)) in *.
  apply filter_ext_in. intros s Hs. f_equal.
  destruct (EventBus.once s && returns_normally (handler s data)) eqn:Hkeep.
  - apply includes_true. unfold collected. apply list_elem_of_fmap.
    exists s. split; [done|]. apply list_elem_of_In, filter_In. by split.
  - destruct (EventBusOps.includes _ _) eqn:Hinc; [|done].
    apply includes_true in Hinc. unfold collected in Hinc.
    apply list_elem_of_fmap in Hinc as (s' & Hid & Hin').
    apply list_elem_of_In, filter_In in Hin' as [Hin' Hkeep'].
    assert (s' = s) as ->; [|congruence].
    clear -Hnd Hs Hin' Hid. induction subs as [|x l IH]; [done|].
    cbn [map] in Hnd. apply NoDup_cons in Hnd as [Hx Hnd].
    destruct Hs as [->|Hs], Hin' as [->|Hin']; try done.
    + exfalso. apply Hx. rewrite Hid. apply list_elem_of_In, in_map. done.
    + exfalso. apply Hx. rewrite <- Hid. apply list_elem_of_In, in_map. done.
    + by apply IH.
Qed.

End BusHistoryFacts.

(* ======================================================================= *)
(** ** More facts about the dispatcher *)
(* ======================================================================= *)

Section MoreDispatcherFacts.
Import MCPServer.

Lemma jsmap_get_entry {V} (k : string) (v : V) (m : JsMap.t V) :
  NoDup (JsMap.keys m) -> (JsMap.get k m = Some v <-> (k, v) ∈ m).
Proof.
  induction m as [|[k0 v0] m IH]; simpl.
  - intros _. split; [done | by intros ?%not_elem_of_nil].
  - intros [Hk0 Hnd]%NoDup_cons. rewrite elem_of_cons.
    destruct (String.eqb_spec k k0) as [->|Hne].
    + split; [intros [= ->]; by left|].
      intros [[= ->]|Hin]; [done|]. exfalso. apply Hk0.
      apply list_elem_of_In, in_map_iff. exists (k0, v). split; [done|].
      by apply list_elem_of_In.
    + rewrite IH by done. split; [by right|]. intros [[= -> ->]|Hin]; [done | done].
Qed.

(** X6.  After any history of calls, [unregisterTool(name)] makes
    [callTool(name, ...)] answer "Tool not found" without publishing
    anything, removes every listed definition of that name, and leaves the
    definitions of the other names as they were. *)
Theorem X6_unregistered_tool_is_not_found
    (history : list Call) (nm : string) (params : Payload) (h : Heap) :
  let srv := unregisterTool nm (after history) in
  callTool nm params srv h = (Normal (failure ("Tool not found: " +:+ nm)), h) /\
  getTool nm srv = None /\
  (forall d, d ∈ listTools srv -> name d <> nm) /\
  (forall other, other <> nm -> getTool other srv = getTool other (after history)).
Proof.
  intros srv.
  pose proof (well_formed_after history) as [Hnd Hkeys _ _].
  pose proof (well_formed_perform (after history) (UnregisterTool nm)
                (well_formed_after history)) as [Hnd' Hkeys' _ _].
  cbn [perform] in Hnd', Hkeys'. fold srv in Hnd', Hkeys'.
  assert (Hnone : JsMap.get nm (tools srv) = None).
  { subst srv. cbn [tools unregisterTool]. by apply jsmap_get_delete_same. }
  split; [|split; [|split]].
  - unfold callTool. by rewrite Hnone.
  - exact Hnone.
  - intros d Hd E. apply jsmap_get_None in Hnone. apply Hnone.
    rewrite <- (stored_by_name_names _ Hkeys'), <- E.
    apply list_elem_of_In, in_map. by apply list_elem_of_In.
  - intros other Hne. subst srv. unfold getTool. cbn [tools unregisterTool].
    rewrite jsmap_get_delete_other; done.
Qed.


(** X8.  After any history of calls, [getTool(name)] finds a definition
    exactly when [listTools()] lists it and it carries that name; so the
    two views of the registry agree. *)
Theorem X8_getTool_agrees_with_listTools
    (history : list Call) (nm : string) (d : ToolDefinition) :
  let srv := after history in
  getTool nm srv = Some d <-> d ∈ listTools srv /\ name d = nm.
Proof.
  intros srv. pose proof (well_formed_after history) as [Hnd Hkeys _ _].
  fold srv in Hnd, Hkeys. unfold getTool, listTools.
  rewrite jsmap_get_entry by done. unfold stored_by_name in Hkeys.
  rewrite Forall_forall in Hkeys. split.
  - intros Hin. split.
    + apply list_elem_of_In, in_map_iff. exists (nm, d). split; [done|].
      by apply list_elem_of_In.
    + by apply (Hkeys (nm, d)).
  - intros [Hin <-]. apply list_elem_of_In, in_map_iff in Hin as ([k v] & Hv & Hin).
    cbn [snd] in Hv. subst v. apply list_elem_of_In in Hin.
    pose proof (Hkeys _ Hin) as E. cbn [fst snd] in E. by rewrite E.
Qed.

(** X11.  Registering a resource and then reading its URI reaches the
    handler just registered, whatever was registered under that URI or
    under matching wildcards before; the resource is then listed. *)
Theorem X11_registered_resource_is_read
    (srv : t) (resource : ResourceDefinition) (f : ResourceHandler) (h : Heap) :
  let srv' := registerResource resource f srv in
  readResource (uri resource) srv' h =
    f (uri resource)
      (heap_after_emit Events.MCP_RESOURCE_READ
         (PObj [("uri", PStr (uri resource))]) h) /\
  resource ∈ listResources srv'.
Proof.
  intros srv'. split.
  - unfold readResource. subst srv'. cbn [resourceHandlers registerResource].
    rewrite get_set_same. unfold bind. by rewrite emit_spec.
  - subst srv'. unfold listResources. cbn [resources registerResource].
    generalize (resources srv). intros m.
    induction m as [|[k v] m IH]; cbn [JsMap.set JsMap.values map snd].
    + apply list_elem_of_here.
    + destruct (String.eqb (uri resource) k); cbn [JsMap.values map snd].
      * apply list_elem_of_here.
      * apply list_elem_of_further, IH.
Qed.

End MoreDispatcherFacts.

Section BuilderFacts.
Import MCPServer.

(** X9.  [build()] succeeds exactly when a non-empty name and a non-empty
    description were given; it reports a missing name before a missing
    description, fills in the empty object schema when none was given, and
    passes name, description, schema and handler on unchanged. *)
Theorem X9_build_requires_name_and_description (b : ToolBuilder.t) :
  match ToolBuilder.build b with
  | Normal d =>
      ToolBuilder.name b = Some (name d) /\ name d <> "" /\
      ToolBuilder.description b = Some (description d) /\ description d <> "" /\
      handler d = ToolBuilder.handler b /\
      inputSchema d =
        match ToolBuilder.inputSchema b with
        | Some schema => schema
        | None => PObj [("type", PStr "object"); ("properties", PObj [])]
        end
  | Throw e =>
      (e = ErrorObject "Tool name is required" /\
       (ToolBuilder.name b = None \/ ToolBuilder.name b = Some "")) \/
      (e = ErrorObject "Tool description is required" /\
       (exists n, ToolBuilder.name b = Some n /\ n <> "") /\
       (ToolBuilder.description b = None \/ ToolBuilder.description b = Some ""))
  end.
Proof.
  unfold ToolBuilder.build, ToolBuilder.truthy.
  destruct (ToolBuilder.name b) as [[|c n]|] eqn:Hn; cbn.
  - left. split; [done | by right].
  - destruct (ToolBuilder.description b) as [[|c' d]|] eqn:Hd; cbn.
    + right. split; [done|]. split; [by eexists | by right].
    + repeat split; try done.
    + right. split; [done|]. split; [by eexists | by left].
  - left. split; [done | by left].
Qed.

End BuilderFacts.

Section LifecycleFacts.
Import MCPServer Lifecycle.

(** X10.  [start()] rejects with "No transport configured" when no
    transport is attached, and passes on the rejection of
    [transport.connect()]; in both cases nothing is published.  Only after
    a successful connect is the connected event published.  [stop()]
    publishes the disconnected event also when no transport is attached,
    but not when [transport.disconnect()] rejects. *)
Theorem X10_start_and_stop (methods : Transport -> Methods) (srv : t) (h : Heap) :
  match transport srv with
  | None =>
      start methods srv h = (Throw (ErrorObject "No transport configured"), h) /\
      stop methods srv h =
        (Normal tt, heap_after_emit Events.MCP_DISCONNECTED (PObj []) h)
  | Some tr =>
      match connect (methods tr) with
      | Normal _ =>
          start methods srv h =
            (Normal tt, heap_after_emit Events.MCP_CONNECTED (PObj []) h)
      | Throw e => start methods srv h = (Throw e, h)
      end /\
      match disconnect (methods tr) with
      | Normal _ =>
          stop methods srv h =
            (Normal tt, heap_after_emit Events.MCP_DISCONNECTED (PObj []) h)
      | Throw e => stop methods srv h = (Throw e, h)
      end
  end.
Proof.
  unfold start, stop, bind, lift, throw, ret.
  destruct (transport srv) as [tr|].
  - split.
    + destruct (connect (methods tr)) as [[]|e]; [by rewrite emit_spec | done].
    + destruct (disconnect (methods tr)) as [[]|e]; [by rewrite emit_spec | done].
  - split; [done | by rewrite emit_spec].
Qed.

End LifecycleFacts.

(* ======================================================================= *)
(** ** More facts about the duplex transport *)
(* ======================================================================= *)

Section MoreWsFacts.
Import WebSocketTransport.

Lemma settled_issued_run (es : list Event) :
  forall s, consistent s -> settled_issued s -> settled_issued (run es s).
Proof.
  induction es as [|e es IH]; intros s Hcons Hsi; [done|].
  change (run (e :: es) s) with (run es (step s e)).
  apply IH; [by apply consistent_step | by apply settled_issued_step].
Qed.

Lemma reachable_consistent (o : Options) (es : list Event) :
  consistent (run es (new o)) /\ settled_issued (run es (new o)).
Proof.
  split.
  - apply consistent_run, consistent_new.
  - apply settled_issued_run; [apply consistent_new | by constructor].
Qed.

(** The components of the state after [request]. *)
Lemma request_parts (ty : string) (data : Payload) (s : t) :
  let n := S (requestCounter s) in
  let s' := snd (request ty data s) in
  fst (request ty data s) = request_id n /\
  pendingRequests s' = <[request_id n := n]> (pendingRequests s) /\
  requestCounter s' = n /\
  requestTimers s' = requestTimers s ++ [request_id n] /\
  settled s' = settled s.
Proof.
  intros n s'. destruct (request_requests ty data s) as [Hid Hview].
  fold n in Hid, Hview. fold s' in Hview.
  pose proof (f_equal (fun x => fst (fst (fst x))) Hview) as Hp.
  pose proof (f_equal (fun x => snd (fst (fst x))) Hview) as Hc.
  pose proof (f_equal (fun x => snd (fst x)) Hview) as Ht.
  pose proof (f_equal snd Hview) as Hs.
  cbn [fst snd requests_of] in Hp, Hc, Ht, Hs. done.
Qed.

(** The components of the state after a response frame. *)
Lemma response_parts (rid : string) (result : Payload) (error : option string) (s : t) :
  let s' := step s (SocketMessage (Response rid result error)) in
  match pendingRequests s !! rid with
  | None => requests_of s' = requests_of s
  | Some p =>
      pendingRequests s' = delete rid (pendingRequests s) /\
      requestCounter s' = requestCounter s /\
      requestTimers s' = requestTimers s /\
      settled s' =
        settled s ++
          [(p, match truthy error with
               | Some msg => Reject msg
               | None => Resolve result
               end)]
  end.
Proof.
  intros s'. pose proof (step_requests s (SocketMessage (Response rid result error))) as Hview.
  fold s' in Hview. unfold requests_step in Hview.
  destruct (pendingRequests s !! rid) as [p|]; [|done].
  pose proof (f_equal (fun x => fst (fst (fst x))) Hview) as Hp.
  pose proof (f_equal (fun x => snd (fst (fst x))) Hview) as Hc.
  pose proof (f_equal (fun x => snd (fst x)) Hview) as Ht.
  pose proof (f_equal snd Hview) as Hs.
  cbn [fst snd requests_of] in Hp, Hc, Ht, Hs. done.
Qed.

(** X12.  On a transport driven from its construction by any events, a
    new request gets a correlation id that is not in the pending map, so
    it never overwrites a call in flight: the map gains exactly one entry
    and every other entry stays. *)
Theorem X12_request_id_is_fresh
    (o : Options) (es : list Event) (ty : string) (data : Payload) :
  let s := run es (new o) in
  let rid := fst (request ty data s) in
  let s' := snd (request ty data s) in
  rid = request_id (S (requestCounter s)) /\
  pendingRequests s !! rid = None /\
  pendingRequests s' !! rid = Some (S (requestCounter s)) /\
  (forall other, other <> rid -> pendingRequests s' !! other = pendingRequests s !! other) /\
  size (pendingRequests s') = S (size (pendingRequests s)).
Proof.
  intros s rid s'.
  destruct (request_parts ty data s) as (Hid & Hp & _).
  fold rid in Hid. fold s' in Hp.
  destruct (reachable_consistent o es) as [Hcons _]. fold s in Hcons.
  assert (Hnone : pendingRequests s !! rid = None).
  { destruct (pendingRequests s !! rid) as [p|] eqn:E; [|done].
    destruct (Hcons _ _ E) as [Hrid Hle]. rewrite Hid in Hrid.
    apply request_id_inj in Hrid. lia. }
  split; [done|]. split; [done|]. rewrite Hp, <- Hid. split; [|split].
  - apply lookup_insert_eq.
  - intros other Hne. by apply lookup_insert_ne.
  - by apply map_size_insert_None.
Qed.

(** X13.  On a transport driven from its construction by any events, two
    calls issued one after the other are answered independently: whichever
    response arrives first, each promise is resolved once, with the result
    of the response that carries its id, and both entries leave the map. *)
Theorem X13_responses_are_routed_by_id
    (o : Options) (es : list Event) (tool1 tool2 : string)
    (params1 params2 result1 result2 : Payload) :
  let s := run es (new o) in
  let s2 := run [CallTool tool1 params1; CallTool tool2 params2] s in
  let p1 := S (requestCounter s) in
  let p2 := S (S (requestCounter s)) in
  let answer1 := SocketMessage (Response (request_id p1) result1 None) in
  let answer2 := SocketMessage (Response (request_id p2) result2 None) in
  let first_then_second := run [answer1; answer2] s2 in
  let second_then_first := run [answer2; answer1] s2 in
  (settlements_of p1 first_then_second = [Resolve result1] /\
   settlements_of p2 first_then_second = [Resolve result2] /\
   pendingRequests first_then_second = pendingRequests s) /\
  (settlements_of p1 second_then_first = [Resolve result1] /\
   settlements_of p2 second_then_first = [Resolve result2] /\
   pendingRequests second_then_first = pendingRequests s).
Proof.
  intros s s2 p1 p2 answer1 answer2 first_then_second second_then_first.
  destruct (reachable_consistent o es) as [Hcons Hsi]. fold s in Hcons, Hsi.
  set (s1 := step s (CallTool tool1 params1)).
  assert (Hs2 : s2 = step s1 (CallTool tool2 params2)) by reflexivity.
  destruct (request_parts "tool_call"
              (PObj [("tool", PStr tool1); ("params", params1)]) s)
    as (_ & Hp1 & Hc1 & _ & Hset1).
  change (snd (request "tool_call" (PObj [("tool", PStr tool1); ("params", params1)]) s))
    with s1 in Hp1, Hc1, Hset1.
  destruct (request_parts "tool_call"
              (PObj [("tool", PStr tool2); ("params", params2)]) s1)
    as (_ & Hp2 & Hc2 & _ & Hset2).
  change (snd (request "tool_call" (PObj [("tool", PStr tool2); ("params", params2)]) s1))
    with s2 in Hp2, Hc2, Hset2.
  rewrite Hc1 in Hp2. fold p1 in Hp1, Hp2. fold p2 in Hp2.
  assert (Hne : request_id p1 <> request_id p2).
  { intros E%request_id_inj. subst p1 p2. lia. }
  assert (Hfree1 : pendingRequests s !! request_id p1 = None).
  { destruct (pendingRequests s !! request_id p1) as [q|] eqn:E; [|done].
    destruct (Hcons _ _ E) as [Hq Hle]. apply request_id_inj in Hq. subst p1. lia. }
  assert (Hfree2 : pendingRequests s !! request_id p2 = None).
  { destruct (pendingRequests s !! request_id p2) as [q|] eqn:E; [|done].
    destruct (Hcons _ _ E) as [Hq Hle]. apply request_id_inj in Hq. subst p2. lia. }
  assert (Hnone1 : settlements_of p1 s2 = []).
  { rewrite (settlements_of_same p1 s s2) by congruence.
    apply settled_issued_fresh; [done | subst p1; lia]. }
  assert (Hnone2 : settlements_of p2 s2 = []).
  { rewrite (settlements_of_same p2 s s2) by congruence.
    apply settled_issued_fresh; [done | subst p2; lia]. }
  assert (Hfinal : delete (request_id p1) (delete (request_id p2) (pendingRequests s2))
                   = pendingRequests s).
  { rewrite Hp2, Hp1. apply map_eq. intros i.
    destruct (decide (i = request_id p1)) as [->|Hi1]; [by rewrite lookup_delete_eq|].
    rewrite lookup_delete_ne by done.
    destruct (decide (i = request_id p2)) as [->|Hi2]; [by rewrite lookup_delete_eq|].
    by rewrite lookup_delete_ne, !lookup_insert_ne. }
  assert (Hfinal' : delete (request_id p2) (delete (request_id p1) (pendingRequests s2))
                    = pendingRequests s).
  { rewrite Hp2, Hp1. apply map_eq. intros i.
    destruct (decide (i = request_id p2)) as [->|Hi2]; [by rewrite lookup_delete_eq|].
    rewrite lookup_delete_ne by done.
    destruct (decide (i = request_id p1)) as [->|Hi1]; [by rewrite lookup_delete_eq|].
    by rewrite lookup_delete_ne, !lookup_insert_ne. }
  subst first_then_second second_then_first. unfold run. cbn [fold_left]. split.
  - pose proof (response_parts (request_id p1) result1 None s2) as H1.
    rewrite Hp2, lookup_insert_ne, Hp1, lookup_insert_eq in H1 by done.
    rewrite <- Hp1, <- Hp2 in H1. fold answer1 in H1.
    set (s3 := step s2 answer1) in *. destruct H1 as (Hp3 & _ & _ & Hset3).
    pose proof (response_parts (request_id p2) result2 None s3) as H2.
    rewrite Hp3, lookup_delete_ne, Hp2, lookup_insert_eq in H2 by done.
    rewrite <- Hp2, <- Hp3 in H2. fold answer2 in H2.
    set (s4 := step s3 answer2) in *. destruct H2 as (Hp4 & _ & _ & Hset4).
    cbn [truthy] in Hset3, Hset4. split; [|split].
    + rewrite (settlements_of_snoc p1 p2 _ s3 s4 Hset4),
        (settlements_of_snoc p1 p1 _ s2 s3 Hset3), Hnone1, Nat.eqb_refl.
      destruct (Nat.eqb_spec p2 p1); [subst p1 p2; lia | done].
    + rewrite (settlements_of_snoc p2 p2 _ s3 s4 Hset4),
        (settlements_of_snoc p2 p1 _ s2 s3 Hset3), Hnone2, Nat.eqb_refl.
      destruct (Nat.eqb_spec p1 p2); [subst p1 p2; lia | done].
    + rewrite Hp4, Hp3. exact Hfinal'.
  - pose proof (response_parts (request_id p2) result2 None s2) as H2.
    rewrite Hp2, lookup_insert_eq in H2.
    rewrite <- Hp2 in H2. fold answer2 in H2.
    set (s3 := step s2 answer2) in *. destruct H2 as (Hp3 & _ & _ & Hset3).
    pose proof (response_parts (request_id p1) result1 None s3) as H1.
    rewrite Hp3, lookup_delete_ne, Hp2, lookup_insert_ne, Hp1, lookup_insert_eq in H1
      by done.
    rewrite <- Hp1, <- Hp2, <- Hp3 in H1. fold answer1 in H1.
    set (s4 := step s3 answer1) in *. destruct H1 as (Hp4 & _ & _ & Hset4).
    cbn [truthy] in Hset3, Hset4. split; [|split].
    + rewrite (settlements_of_snoc p1 p1 _ s3 s4 Hset4),
        (settlements_of_snoc p1 p2 _ s2 s3 Hset3), Hnone1, Nat.eqb_refl.
      destruct (Nat.eqb_spec p2 p1); [subst p1 p2; lia | done].
    + rewrite (settlements_of_snoc p2 p1 _ s3 s4 Hset4),
        (settlements_of_snoc p2 p2 _ s2 s3 Hset3), Hnone2, Nat.eqb_refl.
      destruct (Nat.eqb_spec p1 p2); [subst p1 p2; lia | done].
    + rewrite Hp4, Hp3. exact Hfinal.
Qed.

(** X15.  On a transport driven from its construction by any events, the
    response to a call rejects its promise with the error text when the
    frame carries a non-empty [error], and resolves it with [result] when
    [error] is absent or the empty string.  After that first response a
    further response with the same id leaves the transport unchanged, and
    the call's timer settles nothing. *)
Theorem X15_first_response_settles
    (o : Options) (es : list Event) (tool : string)
    (params result result' : Payload) (error error' : option string) :
  let s := run es (new o) in
  let rid := fst (callTool tool params s) in
  let p := S (requestCounter s) in
  let s1 := snd (callTool tool params s) in
  let s2 := step s1 (SocketMessage (Response rid result error)) in
  settlements_of p s2 =
    [match error with
     | Some (String c msg) => Reject (String c msg)
     | _ => Resolve result
     end] /\
  pendingRequests s2 = pendingRequests s /\
  step s2 (SocketMessage (Response rid result' error')) = s2 /\
  settled (step s2 (RequestTimer rid)) = settled s2.
Proof.
  intros s rid p s1 s2.
  destruct (reachable_consistent o es) as [Hcons Hsi]. fold s in Hcons, Hsi.
  destruct (request_parts "tool_call"
              (PObj [("tool", PStr tool); ("params", params)]) s)
    as (Hid & Hp1 & _ & _ & Hset1).
  change (fst (request "tool_call" (PObj [("tool", PStr tool); ("params", params)]) s))
    with rid in Hid.
  change (snd (request "tool_call" (PObj [("tool", PStr tool); ("params", params)]) s))
    with s1 in Hp1, Hset1.
  fold p in Hid, Hp1.
  assert (Hfree : pendingRequests s !! rid = None).
  { destruct (pendingRequests s !! rid) as [q|] eqn:E; [|done].
    destruct (Hcons _ _ E) as [Hq Hle]. rewrite Hid in Hq.
    apply request_id_inj in Hq. subst p. lia. }
  pose proof (response_parts rid result error s1) as H2. fold s2 in H2.
  rewrite Hp1, <- Hid, lookup_insert_eq in H2. destruct H2 as (Hp2 & _ & _ & Hset2).
  assert (Hgone : pendingRequests s2 !! rid = None).
  { rewrite Hp2. apply lookup_delete_eq. }
  split; [|split; [|split]].
  - rewrite (settlements_of_snoc p p _ s1 s2 Hset2), Nat.eqb_refl.
    rewrite (settlements_of_same p s s1 Hset1).
    rewrite settled_issued_fresh by (done || (subst p; lia)).
    by destruct error as [[|c msg]|].
  - rewrite Hp2, delete_insert_eq. by apply delete_id.
  - cbn [step handleMessage]. unfold handleResponse. by rewrite Hgone.
  - pose proof (step_requests s2 (RequestTimer rid)) as Hview.
    unfold requests_step in Hview. rewrite Hgone in Hview.
    destruct (bool_decide (rid ∈ requestTimers s2));
      by pose proof (f_equal snd Hview).
Qed.

(** X16.  A call whose frame cannot be sent, because the transport has no
    socket or the socket is not open, is registered and timed all the
    same: nothing is handed to the socket, the console shows that nothing
    could be sent, the call is in flight afterwards and, if nothing else
    happens, its timer rejects it with "Request timeout". *)
Theorem X16_unsent_request_still_times_out
    (o : Options) (es : list Event) (tool : string) (params : Payload) :
  let s := run es (new o) in
  let rid := fst (callTool tool params s) in
  let p := S (requestCounter s) in
  let s1 := snd (callTool tool params s) in
  socket s <> Some OPEN ->
  outbox s1 = outbox s /\
  console s1 = console s ++ [LogCannotSend] /\
  in_flight rid p s1 /\
  settlements_of p (step s1 (RequestTimer rid)) = [Reject "Request timeout"].
Proof.
  intros s rid p s1 Hclosed.
  destruct (reachable_consistent o es) as [Hcons Hsi]. fold s in Hcons, Hsi.
  assert (Hout : outbox s1 = outbox s /\ console s1 = console s ++ [LogCannotSend]).
  { subst s1 rid. unfold callTool, request, send.
    cbn [snd fst socket set_requests outbox console].
    destruct (socket s) as [[]|]; by cbn. }
  destruct Hout as [Hout Hlog]. split; [done|]. split; [done|]. split.
  - destruct (request_parts "tool_call"
                (PObj [("tool", PStr tool); ("params", params)]) s)
      as (Hid & Hp1 & _ & Ht1 & _).
    change (fst (request "tool_call" (PObj [("tool", PStr tool); ("params", params)]) s))
      with rid in Hid.
    change (snd (request "tool_call" (PObj [("tool", PStr tool); ("params", params)]) s))
      with s1 in Hp1, Ht1.
    fold p in Hid, Hp1, Ht1. split.
    + rewrite Hp1, <- Hid. apply lookup_insert_eq.
    + rewrite Ht1, <- Hid. apply elem_of_app. right. by apply list_elem_of_singleton.
  - pose proof (request_times_out s "tool_call"
                  (PObj [("tool", PStr tool); ("params", params)]) [] Hcons Hsi eq_refl)
      as (_ & _ & Honce & _).
    exact Honce.
Qed.

(** X16 at a concrete input: the transport has been told to connect and
    its socket is still connecting when the first call is made. *)
Lemma X16_unsent_request_still_times_out_witness :
  let o := make_options "ws://host" None None in
  let s := run [Connect] (new o) in
  let s1 := snd (callTool "echo" PNull s) in
  socket s <> Some OPEN /\
  fst (callTool "echo" PNull s) = "req_1" /\
  outbox s1 = [] /\
  console s1 = [LogCannotSend] /\
  settlements_of 1 (step s1 (RequestTimer "req_1")) = [Reject "Request timeout"].
Proof.
  intros o s s1.
  assert (Hclosed : socket s <> Some OPEN) by discriminate.
  split; [exact Hclosed|]. split; [reflexivity|].
  destruct (X16_unsent_request_still_times_out o [Connect] "echo" PNull Hclosed)
    as (Hout & Hlog & _ & Htimer).
  split; [exact Hout|]. split; [exact Hlog | exact Htimer].
Defined.

(** [String(error)] on errors of several kinds, and the JSON of a message
    with an [undefined] property. *)
Example error_string_scenarios :
  error_string (ErrorObject "kaput") = Normal "Error: kaput" /\
  error_string (ErrorObject "") = Normal "Error" /\
  error_string (NamedError "TypeError" "bad") = Normal "TypeError: bad" /\
  error_string (OtherValue "42") = Normal "42" /\
  to_json (PObj [("tool", PStr "echo"); ("params", PUndefined)])
    = PObj [("tool", PStr "echo")] /\
  to_json (PArr [PNum 1; PUndefined]) = PArr [PNum 1; PNull].
Proof. repeat split; reflexivity. Qed.


End MoreWsFacts.

(* ======================================================================= *)
(** ** More facts about reconnection, the in-process transport and the factory *)
(* ======================================================================= *)

Section RetryFacts.

(** One more attempt can be made only while the transport counts as
    connected: a step that is not a successful open never raises the
    number of attempts made plus one for being connected. *)
Lemma sse_step_retry (s : HttpSseTransport.t) (e : HttpSseTransport.Event) :
  HttpSseTransport.is_open e = false ->
  attempts_logged (HttpSseTransport.console (HttpSseTransport.step s e))
  + (if HttpSseTransport.connected (HttpSseTransport.step s e) then 1 else 0)
  <= attempts_logged (HttpSseTransport.console s)
     + (if HttpSseTransport.connected s then 1 else 0).
Proof.
  intros Hopen. destruct e; try discriminate Hopen; cbn [HttpSseTransport.step].
  all: unfold HttpSseTransport.connect, HttpSseTransport.disconnect,
         HttpSseTransport.onerror, HttpSseTransport.reconnect,
         HttpSseTransport.reconnect_timer, HttpSseTransport.connect,
         HttpSseTransport.log.
  all: repeat (case_match; cbn in *; subst; try discriminate);
       rewrite ?attempts_logged_app; cbn;
       repeat (case_match; cbn in *; subst; try discriminate); try lia.
Qed.

Lemma ws_step_retry (s : WebSocketTransport.t) (e : WebSocketTransport.Event) :
  WebSocketTransport.is_open e = false ->
  attempts_logged (WebSocketTransport.console (WebSocketTransport.step s e))
  + (if WebSocketTransport.connected (WebSocketTransport.step s e) then 1 else 0)
  <= attempts_logged (WebSocketTransport.console s)
     + (if WebSocketTransport.connected s then 1 else 0).
Proof.
  intros Hopen.
  destruct e as [| | | | | |from|from|[]|k|rid|]; try discriminate Hopen;
    cbn [WebSocketTransport.step WebSocketTransport.handleMessage].
  all: unfold WebSocketTransport.connect, WebSocketTransport.disconnect,
         WebSocketTransport.callTool, WebSocketTransport.readResource,
         WebSocketTransport.request, WebSocketTransport.sendNotification,
         WebSocketTransport.onerror, WebSocketTransport.onclose,
         WebSocketTransport.reconnect, WebSocketTransport.mark,
         WebSocketTransport.handleResponse, WebSocketTransport.handleToolCall,
         WebSocketTransport.handleResourceRead, WebSocketTransport.resume,
         WebSocketTransport.send,
         WebSocketTransport.fire_request_timer, WebSocketTransport.request_timeout,
         WebSocketTransport.reconnect_timer, WebSocketTransport.connect,
         WebSocketTransport.log.
  all: repeat (case_match; cbn in *; subst; try discriminate);
       rewrite ?attempts_logged_app; cbn;
       repeat (case_match; cbn in *; subst; try discriminate); try lia.
Qed.

Lemma sse_run_retry (es : list HttpSseTransport.Event) :
  forall s : HttpSseTransport.t,
    Forall (fun e => HttpSseTransport.is_open e = false) es ->
    attempts_logged (HttpSseTransport.console (HttpSseTransport.run es s))
    + (if HttpSseTransport.connected (HttpSseTransport.run es s) then 1 else 0)
    <= attempts_logged (HttpSseTransport.console s)
       + (if HttpSseTransport.connected s then 1 else 0).
Proof.
  induction es as [|e es IH]; intros s Hes; [unfold HttpSseTransport.run; simpl; lia|].
  apply Forall_cons in Hes as [He Hes].
  change (HttpSseTransport.run (e :: es) s)
    with (HttpSseTransport.run es (HttpSseTransport.step s e)).
  pose proof (sse_step_retry s e He).
  pose proof (IH (HttpSseTransport.step s e) Hes). lia.
Qed.

Lemma ws_run_retry (es : list WebSocketTransport.Event) :
  forall s : WebSocketTransport.t,
    Forall (fun e => WebSocketTransport.is_open e = false) es ->
    attempts_logged (WebSocketTransport.console (WebSocketTransport.run es s))
    + (if WebSocketTransport.connected (WebSocketTransport.run es s) then 1 else 0)
    <= attempts_logged (WebSocketTransport.console s)
       + (if WebSocketTransport.connected s then 1 else 0).
Proof.
  induction es as [|e es IH]; intros s Hes; [unfold WebSocketTransport.run; simpl; lia|].
  apply Forall_cons in Hes as [He Hes].
  change (WebSocketTransport.run (e :: es) s)
    with (WebSocketTransport.run es (WebSocketTransport.step s e)).
  pose proof (ws_step_retry s e He).
  pose proof (IH (WebSocketTransport.step s e) Hes). lia.
Qed.

(** X18.  For both reconnecting transports: while no connection opens, at
    most one reconnect attempt is made, and none when the transport did
    not count as connected to begin with.  So an attempt that fails is not
    followed by another one, whatever [maxReconnectAttempts] allows: the
    callbacks call [reconnect()] only while [connected] is set, and only a
    successful open sets it. *)
Theorem X18_failed_reconnect_is_not_retried
    (sse : HttpSseTransport.t) (sse_events : list HttpSseTransport.Event)
    (ws : WebSocketTransport.t) (ws_events : list WebSocketTransport.Event) :
  Forall (fun e => HttpSseTransport.is_open e = false) sse_events ->
  Forall (fun e => WebSocketTransport.is_open e = false) ws_events ->
  attempts_logged (HttpSseTransport.console (HttpSseTransport.run sse_events sse))
    <= attempts_logged (HttpSseTransport.console sse)
       + (if HttpSseTransport.connected sse then 1 else 0) /\
  attempts_logged (WebSocketTransport.console (WebSocketTransport.run ws_events ws))
    <= attempts_logged (WebSocketTransport.console ws)
       + (if WebSocketTransport.connected ws then 1 else 0).
Proof.
  intros Hsse Hws. pose proof (sse_run_retry sse_events sse Hsse).
  pose proof (ws_run_retry ws_events ws Hws). split; lia.
Qed.

(** X18 at a concrete input: both transports, with the default bound of
    ten attempts, are connected and then see a loss, the reconnect timer,
    and a series of failures; one attempt is all that is made. *)
Lemma X18_failed_reconnect_is_not_retried_witness :
  let sse :=
    HttpSseTransport.run [HttpSseTransport.Connect; HttpSseTransport.SourceOpen]
      (HttpSseTransport.new (HttpSseTransport.make_options "http://host" None None)) in
  let sse_events :=
    [HttpSseTransport.SourceError; HttpSseTransport.ReconnectTimer;
     HttpSseTransport.SourceError; HttpSseTransport.SourceError;
     HttpSseTransport.ReconnectTimer] in
  let ws :=
    WebSocketTransport.run [WebSocketTransport.Connect; WebSocketTransport.SocketOpen Current]
      (WebSocketTransport.new (WebSocketTransport.make_options "ws://host" None None)) in
  let ws_events :=
    [WebSocketTransport.SocketClose Current; WebSocketTransport.ReconnectTimer;
     WebSocketTransport.SocketError Current; WebSocketTransport.SocketClose Current;
     WebSocketTransport.SocketClose Earlier] in
  (Forall (fun e => HttpSseTransport.is_open e = false) sse_events /\
   Forall (fun e => WebSocketTransport.is_open e = false) ws_events) /\
  attempts_logged (HttpSseTransport.console (HttpSseTransport.run sse_events sse)) <= 1 /\
  attempts_logged (WebSocketTransport.console (WebSocketTransport.run ws_events ws)) <= 1.
Proof.
  intros sse sse_events ws ws_events.
  assert (Hsse : Forall (fun e => HttpSseTransport.is_open e = false) sse_events)
    by (repeat constructor).
  assert (Hws : Forall (fun e => WebSocketTransport.is_open e = false) ws_events)
    by (repeat constructor).
  split; [by split|].
  exact (X18_failed_reconnect_is_not_retried sse sse_events ws ws_events Hsse Hws).
Defined.

End RetryFacts.

Section EmbeddedFacts.
Import EmbeddedTransport.

Lemma notify_all_returning (listeners : list Listener) (n : MCPServer.Notification) :
  Forall (fun l => returns_normally (call l n) = true) listeners ->
  notify_all listeners n = (Normal tt, map ref listeners).
Proof.
  induction listeners as [|l rest IH]; [done|].
  intros [Hl Hrest]%Forall_cons. cbn [notify_all map].
  destruct (call l n) as [[]|e]; [|discriminate Hl]. by rewrite IH.
Qed.

Lemma notify_all_throwing
    (before rest : list Listener) (l : Listener) (n : MCPServer.Notification) (e : Thrown) :
  Forall (fun x => returns_normally (call x n) = true) before ->
  call l n = Throw e ->
  notify_all (before ++ l :: rest) n = (Throw e, map ref before ++ [ref l]).
Proof.
  induction before as [|x before IH]; cbn [app notify_all map].
  - intros _ ->. done.
  - intros [Hx Hbefore]%Forall_cons Hl.
    destruct (call x n) as [[]|e']; [|discriminate Hx]. by rewrite IH.
Qed.

(** X19.  [sendNotification] of the in-process transport calls the
    listeners in the order of registration, with no regard to the
    connection state.  When every listener returns, all are called; when
    one throws, the listeners behind it are not called and the throw goes
    to the caller.  After [disconnect()] nobody is called. *)
Theorem X19_embedded_notification_delivery
    (s : t) (n : MCPServer.Notification) :
  (Forall (fun l => returns_normally (call l n) = true) (notificationListeners s) ->
   sendNotification n s = (Normal tt, map ref (notificationListeners s))) /\
  (forall before l rest e,
     notificationListeners s = before ++ l :: rest ->
     Forall (fun x => returns_normally (call x n) = true) before ->
     call l n = Throw e ->
     sendNotification n s = (Throw e, map ref before ++ [ref l])) /\
  sendNotification n (connect s) = sendNotification n s /\
  sendNotification n (disconnect s) = (Normal tt, []) /\
  sendNotification n (connect (disconnect s)) = (Normal tt, []).
Proof.
  unfold sendNotification. split; [apply notify_all_returning|].
  split; [|done]. intros before l rest e ->. apply notify_all_throwing.
Qed.

(** X20.  The closure returned by [onNotification(listener)] removes every
    registration of that listener function, also earlier ones and also
    when it was registered twice, and keeps the other listeners in order;
    calling it again changes nothing. *)
Theorem X20_removeListener_removes_every_registration (s : t) (l : Listener) :
  let s' := removeListener l (onNotification l (onNotification l s)) in
  notificationListeners s' =
    List.filter (fun x => negb (Nat.eqb (ref x) (ref l))) (notificationListeners s) /\
  (forall x, x ∈ notificationListeners s' <->
             x ∈ notificationListeners s /\ ref x <> ref l) /\
  removeListener l s' = s'.
Proof.
  intros s'.
  assert (Hl : notificationListeners s' =
               List.filter (fun x => negb (Nat.eqb (ref x) (ref l)))
                 (notificationListeners s)).
  { subst s'. cbn [notificationListeners removeListener onNotification].
    rewrite !List.filter_app. cbn [List.filter]. rewrite Nat.eqb_refl. cbn [negb].
    by rewrite !app_nil_r. }
  split; [done|]. split.
  - intros x. rewrite Hl, !list_elem_of_In, filter_In, negb_true_iff, Nat.eqb_neq.
    reflexivity.
  - unfold removeListener at 1. rewrite Hl.
    assert (Hidem : forall xs,
              List.filter (fun x => negb (Nat.eqb (ref x) (ref l)))
                (List.filter (fun x => negb (Nat.eqb (ref x) (ref l))) xs)
              = List.filter (fun x => negb (Nat.eqb (ref x) (ref l))) xs).
    { intros xs. apply forallb_filter_id, forallb_forall.
      intros x Hx. by apply filter_In in Hx as [_ Hx]. }
    rewrite Hidem, <- Hl. by destruct s'.
Qed.

(** X21.  The inbound handlers of the in-process transport outlive
    [disconnect()]: once a tool-call handler and a resource-read handler
    are installed, [simulateToolCall] and [simulateResourceRead] give the
    outcome of these handlers after any further calls that install no
    other one, connected or not; on a transport on which none was ever
    installed they reject with "No tool handler registered" and "No
    resource handler registered". *)
Theorem X21_simulated_calls_use_installed_handlers
    (h : string -> Payload -> Completion Payload) (r : string -> Completion Payload)
    (calls : list Call) (s : t) (tool u : string) (params : Payload) :
  Forall (fun c => match c with
                   | OnToolCall _ | OnResourceRead _ => False
                   | _ => True
                   end) calls ->
  let installed := fold_left perform calls (onResourceRead r (onToolCall h s)) in
  let bare := fold_left perform calls new in
  simulateToolCall tool params installed = h tool params /\
  simulateResourceRead u installed = r u /\
  simulateToolCall tool params bare = Throw (ErrorObject "No tool handler registered") /\
  simulateResourceRead u bare = Throw (ErrorObject "No resource handler registered").
Proof.
  intros Hcalls.
  assert (Hkeep : forall s0,
            toolCallHandler (fold_left perform calls s0) = toolCallHandler s0 /\
            resourceReadHandler (fold_left perform calls s0) = resourceReadHandler s0).
  { induction calls as [|c calls IH]; intros s0; [done|].
    apply Forall_cons in Hcalls as [Hc Hcalls]. cbn [fold_left].
    destruct (IH Hcalls (perform s0 c)) as [-> ->]. by destruct c. }
  intros installed bare. unfold simulateToolCall, simulateResourceRead.
  subst installed bare.
  destruct (Hkeep (onResourceRead r (onToolCall h s))) as [-> ->].
  destruct (Hkeep new) as [-> ->]. done.
Qed.

(** X21 at a concrete input: both handlers are installed, the transport
    is connected and disconnected, and the simulated calls still reach
    them. *)
Lemma X21_simulated_calls_use_installed_handlers_witness :
  let echo : string -> Payload -> Completion Payload :=
    fun tool params => Normal (PArr [PStr tool; params]) in
  let fetch : string -> Completion Payload := fun u => Normal (PStr u) in
  let calls := [Connect; Disconnect] in
  Forall (fun c => match c with
                   | OnToolCall _ | OnResourceRead _ => False
                   | _ => True
                   end) calls /\
  simulateToolCall "t" PNull
    (fold_left perform calls (onResourceRead fetch (onToolCall echo new)))
    = Normal (PArr [PStr "t"; PNull]) /\
  simulateResourceRead "ui://x"
    (fold_left perform calls (onResourceRead fetch (onToolCall echo new)))
    = Normal (PStr "ui://x") /\
  simulateToolCall "t" PNull (fold_left perform calls new)
    = Throw (ErrorObject "No tool handler registered") /\
  simulateResourceRead "ui://x" (fold_left perform calls new)
    = Throw (ErrorObject "No resource handler registered").
Proof.
  intros echo fetch calls.
  assert (Hcalls : Forall (fun c => match c with
                                    | OnToolCall _ | OnResourceRead _ => False
                                    | _ => True
                                    end) calls) by (repeat constructor).
  split; [exact Hcalls|].
  exact (X21_simulated_calls_use_installed_handlers echo fetch calls new
           "t" "ui://x" PNull Hcalls).
Defined.

(** X22.  With the in-process transport attached to the dispatcher, a
    notification listener that throws makes [emit] of the dispatcher
    throw the same value to its caller; the subscribers of the bus have
    been served before, and the listeners behind the throwing one are
    skipped. *)
Theorem X22_listener_throw_reaches_emit
    (srv : MCPServer.t) (tr : t) (n : MCPServer.Notification) (now : Z) (h : Heap)
    (before rest : list Listener) (l : Listener) (e : Thrown) :
  MCPServer.transport srv = Some (as_transport tr) ->
  notificationListeners tr = before ++ l :: rest ->
  Forall (fun x => returns_normally (call x (MCPServer.enrich n now)) = true) before ->
  call l (MCPServer.enrich n now) = Throw e ->
  exists h',
    MCPServer.emit n now srv h = (Throw e, h') /\
    journal h' =
      journal h ++
      firings Events.MCP_NOTIFICATION
        (MCPServer.notification_object (MCPServer.enrich n now))
        (subscribers Events.MCP_NOTIFICATION (bus h)) ++
      [Sent (MCPServer.notification_object (MCPServer.enrich n now))] /\
    snd (sendNotification (MCPServer.enrich n now) tr) = map ref before ++ [ref l].
Proof.
  intros Htr Hl Hbefore Hthrow.
  unfold MCPServer.emit, bind. rewrite emit_spec, Htr.
  unfold MCPServer.send_via, bind, modify, lift. cbn [as_transport MCPServer.sendNotification].
  unfold sendNotification. rewrite Hl, (notify_all_throwing before rest l _ e) by done.
  eexists. split; [reflexivity|]. split; [|done].
  cbn [journal record_effect heap_after_emit]. by rewrite <- app_assoc.
Qed.

(** X22 at a concrete input: one listener that returns, one that throws
    and one behind it; the bus has no subscriber. *)
Lemma X22_listener_throw_reaches_emit_witness :
  let quiet := {| ref := 1; call := fun _ => Normal tt |} in
  let loud := {| ref := 2; call := fun _ => Throw (ErrorObject "listener failed") |} in
  let last := {| ref := 3; call := fun _ => Normal tt |} in
  let tr := onNotification last (onNotification loud (onNotification quiet new)) in
  let srv := MCPServer.setTransport (as_transport tr) (MCPServer.new None) in
  let n := {| MCPServer.type := "ping"; MCPServer.notificationData := PNull;
              MCPServer.timestamp := None |} in
  (notificationListeners tr = [quiet] ++ loud :: [last] /\
   call loud (MCPServer.enrich n 7%Z) = Throw (ErrorObject "listener failed")) /\
  exists h',
    MCPServer.emit n 7%Z srv fresh_heap = (Throw (ErrorObject "listener failed"), h') /\
    snd (sendNotification (MCPServer.enrich n 7%Z) tr) = [1; 2].
Proof.
  intros quiet loud last tr srv n. split; [by split|].
  assert (Hbefore : Forall (fun x => returns_normally (call x (MCPServer.enrich n 7%Z)) = true)
                      [quiet]) by (repeat constructor).
  destruct (X22_listener_throw_reaches_emit srv tr n 7%Z fresh_heap
              [quiet] [last] loud (ErrorObject "listener failed")
              eq_refl eq_refl Hbefore eq_refl)
    as (h' & Hrun & _ & Hcalled).
  exists h'. split; [exact Hrun | exact Hcalled].
Defined.

End EmbeddedFacts.

Section FactoryFacts.
Import TransportFactory.

(** X23.  [createTransport] builds a transport exactly for the types
    [http-sse] and [websocket] with a non-empty URL and for [embedded]; a
    missing or empty URL is refused with "URL required ...", and the type
    [stdio], which the configuration type admits, is refused as unknown.
    What it builds is disconnected, has the default bound of ten reconnect
    attempts at five second intervals, and no pending request. *)
Theorem X23_createTransport (config : TransportConfig) :
  match createTransport config with
  | Normal (IsHttpSse tr) =>
      type config = HttpSse /\
      url config = Some (HttpSseTransport.baseUrl (HttpSseTransport.options tr)) /\
      HttpSseTransport.baseUrl (HttpSseTransport.options tr) <> "" /\
      HttpSseTransport.connected tr = false /\
      HttpSseTransport.reconnectAttempts tr = 0%Z /\
      HttpSseTransport.maxReconnectAttempts (HttpSseTransport.options tr) = 10%Z /\
      HttpSseTransport.reconnectInterval (HttpSseTransport.options tr) = 5000%Z
  | Normal (IsWebSocket tr) =>
      type config = WebSocket /\
      url config = Some (WebSocketTransport.url (WebSocketTransport.options tr)) /\
      WebSocketTransport.url (WebSocketTransport.options tr) <> "" /\
      WebSocketTransport.connected tr = false /\
      WebSocketTransport.pendingRequests tr = ∅ /\
      WebSocketTransport.maxReconnectAttempts (WebSocketTransport.options tr) = 10%Z /\
      WebSocketTransport.reconnectInterval (WebSocketTransport.options tr) = 5000%Z
  | Normal (IsEmbedded tr) =>
      type config = Embedded /\ tr = EmbeddedTransport.new
  | Throw e =>
      (type config = HttpSse /\ (url config = None \/ url config = Some "") /\
       e = ErrorObject "URL required for HTTP+SSE transport") \/
      (type config = WebSocket /\ (url config = None \/ url config = Some "") /\
       e = ErrorObject "URL required for WebSocket transport") \/
      (type config = Stdio /\ e = ErrorObject "Unknown transport type: stdio")
  end.
Proof.
  unfold createTransport, truthy.
  destruct (type config) eqn:Hty, (url config) as [[|c u]|] eqn:Hurl; cbn;
    repeat split; try done; auto 10.
Qed.

End FactoryFacts.

(* ======================================================================= *)
(** ** More facts about the store *)
(* ======================================================================= *)

Section TabFacts.
Import Store TabActions.

Lemma map_list_filter {A B} (f : A -> B) (p : B -> bool) (l : list A) :
  map f (List.filter (fun x => p (f x)) l) = List.filter p (map f l).
Proof.
  induction l as [|x l IH]; [done|]. cbn [map List.filter].
  destruct (p (f x)); cbn [map]; by rewrite IH.
Qed.

Lemma tab_ids_openTab (tab : TabInfo) (shell : Shell) :
  tab_ids (Store.openTab tab shell) =
    List.filter (fun i => negb (String.eqb i (id tab))) (tab_ids shell) ++ [id tab].
Proof.
  unfold tab_ids, Store.openTab. cbn [with_tabs tabs items].
  rewrite map_app. cbn [map]. f_equal.
  apply (map_list_filter id (fun i => negb (String.eqb i (id tab)))).
Qed.

Lemma list_filter_elem {A} (p : A -> bool) (l : list A) (x : A) :
  x ∈ List.filter p l <-> x ∈ l /\ p x = true.
Proof. by rewrite !list_elem_of_In, filter_In. Qed.

Lemma NoDup_list_filter {A} (p : A -> bool) (l : list A) :
  NoDup l -> NoDup (List.filter p l).
Proof.
  intros Hl. pose proof (NoDup_map_filter (fun x => x) p l) as H.
  rewrite !map_id in H. by apply H.
Qed.

(** Removing a value that occurs once shortens the list by one. *)
Lemma length_filter_out (x : string) (l : list string) :
  NoDup l ->
  length (List.filter (fun i => negb (String.eqb i x)) l) =
    if bool_decide (x ∈ l) then length l - 1 else length l.
Proof.
  induction l as [|y l IH]; [done|]. intros [Hy Hl]%NoDup_cons.
  cbn [List.filter]. specialize (IH Hl).
  destruct (String.eqb y x) eqn:E; cbn [negb].
  - apply String.eqb_eq in E. subst y.
    rewrite bool_decide_eq_true_2 by left. rewrite IH.
    rewrite bool_decide_eq_false_2 by done. cbn [length]. lia.
  - apply String.eqb_neq in E. cbn [length]. rewrite IH.
    destruct (decide (x ∈ l)) as [Hin|Hout].
    + rewrite !bool_decide_eq_true_2; [|by right|done].
      destruct l; [by apply elem_of_nil in Hin|]. cbn [length]. lia.
    + rewrite !bool_decide_eq_false_2; [done| |done].
      intros [?|?]%elem_of_cons; congruence.
Qed.

Lemma NoDup_openTab (tab : TabInfo) (shell : Shell) :
  NoDup (tab_ids shell) -> NoDup (tab_ids (Store.openTab tab shell)).
Proof.
  intros Hids. rewrite tab_ids_openTab. apply NoDup_app. split; [|split].
  - by apply NoDup_list_filter.
  - intros i [_ Hi]%list_filter_elem ->%list_elem_of_singleton.
    by rewrite String.eqb_refl in Hi.
  - apply NoDup_singleton.
Qed.

Lemma openTab_run (tab : TabInfo) (shell : Shell) (h : Heap) :
  TabActions.openTab tab shell h =
    (Normal (Store.openTab tab shell),
     heap_after_emit SHELL_TAB_OPENED (tab_object tab) h).
Proof. unfold TabActions.openTab, bind. by rewrite emit_spec. Qed.

Lemma activateTab_run (tid : string) (shell : Shell) (h : Heap) :
  TabActions.activateTab tid shell h =
    (Normal (Store.activateTab tid shell),
     heap_after_emit SHELL_TAB_ACTIVATED (PObj [("id", PStr tid)]) h).
Proof. unfold TabActions.activateTab, bind. by rewrite emit_spec. Qed.

Lemma closeTab_run (tid : string) (shell : Shell) (h : Heap) :
  exists shell',
    closeTab tid shell h =
      (Normal shell', heap_after_emit Events.SHELL_TAB_CLOSED (PObj [("id", PStr tid)]) h) /\
    items (tabs shell') =
      List.filter (fun t => negb (String.eqb (id t) tid)) (items (tabs shell)) /\
    activeId (tabs shell') =
      if is_id (activeId (tabs shell)) tid
      then id <$> head (items (tabs shell'))
      else activeId (tabs shell).
Proof.
  unfold closeTab, bind. rewrite emit_spec. unfold ret. eexists. split; [reflexivity|].
  cbn [with_tabs tabs items activeId]. done.
Qed.

Lemma tab_ids_closeTab (tid : string) (shell shell' : Shell) :
  items (tabs shell') =
    List.filter (fun t => negb (String.eqb (id t) tid)) (items (tabs shell)) ->
  tab_ids shell' = List.filter (fun i => negb (String.eqb i tid)) (tab_ids shell).
Proof.
  unfold tab_ids. intros ->.
  apply (map_list_filter id (fun i => negb (String.eqb i tid))).
Qed.

(** One action: it returns, and the ids stay distinct. *)
Lemma tab_perform_distinct (c : Call) (shell : Shell) (h : Heap) :
  NoDup (tab_ids shell) ->
  exists shell' h',
    perform shell c h = (Normal shell', h') /\ NoDup (tab_ids shell').
Proof.
  intros Hids. destruct c as [tab|tid|tid]; cbn [perform].
  - rewrite openTab_run. eexists _, _. split; [reflexivity|]. by apply NoDup_openTab.
  - destruct (closeTab_run tid shell h) as (shell' & -> & Hitems & _).
    eexists _, _. split; [reflexivity|].
    rewrite (tab_ids_closeTab tid shell shell' Hitems). by apply NoDup_list_filter.
  - rewrite activateTab_run. eexists _, _. split; [reflexivity|]. done.
Qed.

Lemma tab_perform_all_distinct (calls : list Call) :
  forall (shell : Shell) (h : Heap),
    NoDup (tab_ids shell) ->
    exists shell' h',
      perform_all calls shell h = (Normal shell', h') /\ NoDup (tab_ids shell').
Proof.
  induction calls as [|c calls IH]; intros shell h Hids.
  - by exists shell, h.
  - destruct (tab_perform_distinct c shell h Hids) as (shell1 & h1 & Hrun & Hids1).
    destruct (IH shell1 h1 Hids1) as (shell' & h' & Hrest & Hids').
    exists shell', h'. split; [|done].
    cbn [perform_all]. unfold bind. by rewrite Hrun.
Qed.

Lemma last_snoc_tab (l : list TabInfo) (tab : TabInfo) : last (l ++ [tab]) = Some tab.
Proof. apply last_snoc. Qed.

(** X24.  Under [openTab], [closeTab] and [activateTab], in any order and
    with any subscribers on the bus, no action throws and the open tabs
    keep pairwise distinct ids.  [openTab] of an id that is open already
    replaces that tab and moves it to the end, so that the number of tabs
    stays; otherwise the tab is added at the end; either way it becomes
    the active one. *)
Theorem X24_tab_ids_stay_distinct (calls : list Call) (shell : Shell) (h : Heap) :
  NoDup (tab_ids shell) ->
  exists shell' h',
    perform_all calls shell h = (Normal shell', h') /\
    NoDup (tab_ids shell') /\
    forall tab, exists shell'' h'',
      TabActions.openTab tab shell' h' = (Normal shell'', h'') /\
      last (items (tabs shell'')) = Some tab /\
      activeId (tabs shell'') = Some (id tab) /\
      List.filter (fun t => String.eqb (id t) (id tab)) (items (tabs shell'')) = [tab] /\
      length (items (tabs shell'')) =
        if bool_decide (id tab ∈ tab_ids shell')
        then length (items (tabs shell'))
        else S (length (items (tabs shell'))).
Proof.
  intros Hids.
  destruct (tab_perform_all_distinct calls shell h Hids) as (shell' & h' & Hrun & Hids').
  exists shell', h'. split; [done|]. split; [done|]. intros tab.
  rewrite openTab_run. eexists _, _. split; [reflexivity|].
  unfold Store.openTab. cbn [with_tabs tabs items activeId].
  split; [apply last_snoc_tab|]. split; [done|]. split.
  - rewrite List.filter_app. cbn [List.filter]. rewrite String.eqb_refl.
    assert (Hnone : List.filter (fun t => String.eqb (id t) (id tab))
                      (List.filter (fun t => negb (String.eqb (id t) (id tab)))
                         (items (tabs shell'))) = []).
    { induction (items (tabs shell')) as [|x l IH]; [done|]. cbn [List.filter].
      destruct (String.eqb (id x) (id tab)) eqn:E; cbn [negb List.filter]; [done|].
      by rewrite E. }
    by rewrite Hnone.
  - rewrite length_app. cbn [length].
    rewrite <- (length_map id (List.filter _ _)).
    rewrite (map_list_filter id (fun i => negb (String.eqb i (id tab)))).
    fold (tab_ids shell'). rewrite (length_filter_out _ _ Hids').
    assert (Hlen : length (tab_ids shell') = length (items (tabs shell')))
      by apply length_map.
    destruct (decide (id tab ∈ tab_ids shell')) as [Hin|Hout].
    + rewrite !bool_decide_eq_true_2 by done.
      assert (0 < length (tab_ids shell')).
      { destruct (tab_ids shell'); [by apply elem_of_nil in Hin|]. cbn [length]. lia. }
      lia.
    + rewrite !bool_decide_eq_false_2 by done. lia.
Qed.

(** X24 at a concrete input: on the initial tabs, two tabs are opened, the
    first is opened again, and one is closed. *)
Lemma X24_tab_ids_stay_distinct_witness :
  let tab (i : string) : TabInfo :=
    {| id := i; label := i; icon := None; closable := None; content := None |} in
  let shell0 : Shell :=
    {| config := PObj []; tabs := initial_tabs; sidebarCollapsed := false |} in
  let calls := [OpenTab (tab "a"); OpenTab (tab "b"); OpenTab (tab "a");
                ActivateTab "b"; CloseTab "b"] in
  NoDup (tab_ids shell0) /\
  exists shell' h',
    perform_all calls shell0 fresh_heap = (Normal shell', h') /\
    NoDup (tab_ids shell').
Proof.
  intros tab shell0 calls.
  assert (Hids : NoDup (tab_ids shell0)) by apply NoDup_nil_2.
  split; [exact Hids|].
  destruct (X24_tab_ids_stay_distinct calls shell0 fresh_heap Hids)
    as (shell' & h' & Hrun & Hids' & _).
  exists shell', h'. split; [exact Hrun | exact Hids'].
Defined.

Lemma active_is_open_perform (c : Call) (shell : Shell) (h : Heap) :
  is_activate c = false ->
  active_is_open shell ->
  exists shell' h',
    perform shell c h = (Normal shell', h') /\ active_is_open shell'.
Proof.
  intros Hc Hact. destruct c as [tab|tid|tid]; [| |discriminate Hc]; cbn [perform].
  - rewrite openTab_run. eexists _, _. split; [reflexivity|].
    unfold active_is_open. cbn [Store.openTab with_tabs tabs activeId].
    rewrite tab_ids_openTab. apply elem_of_app. right. by left.
  - destruct (closeTab_run tid shell h) as (shell' & -> & Hitems & Hactive).
    eexists _, _. split; [reflexivity|].
    pose proof (tab_ids_closeTab tid shell shell' Hitems) as Hids.
    unfold active_is_open in *. rewrite Hactive.
    unfold is_id. destruct (activeId (tabs shell)) as [a|].
    + destruct (String.eqb a tid) eqn:E.
      * unfold tab_ids. destruct (items (tabs shell')) as [|t rest]; [done|].
        cbn. by left.
      * rewrite Hids. apply list_filter_elem. split; [done|]. by rewrite E.
    + by rewrite Hitems, Hact.
Qed.

(** X25.  Under [openTab] and [closeTab], in any order, [activeId] names
    an open tab and is [null] only when no tab is open.  [activateTab]
    is left out for a reason: it stores the id it is given without
    looking at the tabs, so with an id that is not open the active id
    names no tab. *)
Theorem X25_active_tab_is_open (calls : list Call) (shell : Shell) (h : Heap) :
  active_is_open shell ->
  Forall (fun c => is_activate c = false) calls ->
  exists shell' h',
    perform_all calls shell h = (Normal shell', h') /\
    active_is_open shell' /\
    forall tid, tid ∉ tab_ids shell' -> exists shell'' h'',
      TabActions.activateTab tid shell' h' = (Normal shell'', h'') /\
      items (tabs shell'') = items (tabs shell') /\
      activeId (tabs shell'') = Some tid /\
      ~ active_is_open shell''.
Proof.
  revert shell h. induction calls as [|c calls IH]; intros shell h Hact Hcalls.
  - exists shell, h. split; [done|]. split; [done|]. intros tid Htid.
    rewrite activateTab_run. eexists _, _. split; [reflexivity|].
    split; [done|]. split; [done|]. unfold active_is_open. by cbn.
  - apply Forall_cons in Hcalls as [Hc Hcalls].
    destruct (active_is_open_perform c shell h Hc Hact) as (shell1 & h1 & Hrun & Hact1).
    destruct (IH shell1 h1 Hact1 Hcalls) as (shell' & h' & Hrest & Hact' & Hghost).
    exists shell', h'. split; [|by split].
    cbn [perform_all]. unfold bind. by rewrite Hrun.
Qed.

(** X25 at a concrete input: three tabs are opened, the active one is
    closed and the first that remains is active. *)
Lemma X25_active_tab_is_open_witness :
  let tab (i : string) : TabInfo :=
    {| id := i; label := i; icon := None; closable := None; content := None |} in
  let shell0 : Shell :=
    {| config := PObj []; tabs := initial_tabs; sidebarCollapsed := false |} in
  let calls := [OpenTab (tab "a"); OpenTab (tab "b"); OpenTab (tab "c"); CloseTab "c"] in
  (active_is_open shell0 /\ Forall (fun c => is_activate c = false) calls) /\
  exists shell' h',
    perform_all calls shell0 fresh_heap = (Normal shell', h') /\
    active_is_open shell'.
Proof.
  intros tab shell0 calls.
  assert (Hact : active_is_open shell0) by reflexivity.
  assert (Hcalls : Forall (fun c => is_activate c = false) calls) by (repeat constructor).
  split; [by split|].
  destruct (X25_active_tab_is_open calls shell0 fresh_heap Hact Hcalls)
    as (shell' & h' & Hrun & Hact' & _).
  exists shell', h'. split; [exact Hrun | exact Hact'].
Defined.

End TabFacts.
Section UiItemFacts.
Import UiItems.

Lemma generated_inj (prefix : string) (n m : nat) :
  generated prefix n = generated prefix m -> n = m.
Proof.
  unfold generated. intros E.
  apply (inj (String.append prefix)) in E.
  apply (inj (String.append "_")) in E. by apply (inj pretty) in E.
Qed.

Lemma generated_below_nil (prefix : string) (bound : nat) :
  generated_below prefix bound [].
Proof. split; [apply NoDup_nil_2 | apply Forall_nil_2]. Qed.

Lemma generated_below_mono (prefix : string) (b b' : nat) (ids : list string) :
  b <= b' -> generated_below prefix b ids -> generated_below prefix b' ids.
Proof.
  intros Hb [Hnd Hall]. split; [done|].
  eapply Forall_impl; [exact Hall|]. intros i (k & -> & Hk). exists k. split; [done|lia].
Qed.

Lemma generated_below_fresh (prefix : string) (b : nat) (ids : list string) :
  generated_below prefix b ids -> generated prefix (S b) ∉ ids.
Proof.
  intros [_ Hall] Hin. rewrite Forall_forall in Hall.
  destruct (Hall _ Hin) as (k & E & Hk). apply generated_inj in E. lia.
Qed.

Lemma generated_below_snoc (prefix : string) (b : nat) (ids : list string) :
  generated_below prefix b ids ->
  generated_below prefix (S b) (ids ++ [generated prefix (S b)]).
Proof.
  intros Hok. pose proof (generated_below_fresh _ _ _ Hok) as Hfresh.
  destruct Hok as [Hnd Hall]. split.
  - apply NoDup_app. split; [done|]. split; [|apply NoDup_singleton].
    by intros i Hi ->%list_elem_of_singleton.
  - apply Forall_app. split.
    + eapply Forall_impl; [exact Hall|]. intros i (k & -> & Hk). exists k. split; [done|lia].
    + apply Forall_singleton. by exists (S b).
Qed.

Lemma generated_below_filter {A} (f : A -> string) (p : A -> bool)
    (prefix : string) (b : nat) (l : list A) :
  generated_below prefix b (map f l) ->
  generated_below prefix b (map f (List.filter p l)).
Proof.
  intros [Hnd Hall]. split; [by apply NoDup_map_filter|].
  rewrite Forall_forall in Hall. apply Forall_forall. intros i Hi. apply Hall.
  apply list_elem_of_In, in_map_iff in Hi as (x & <- & Hx).
  apply filter_In in Hx as [Hx _]. apply list_elem_of_In, in_map_iff. by exists x.
Qed.

Lemma showNotification_run (input : NotificationInput) (now : Z) (s : t) (h : Heap) :
  let item := {| notif_id := generated "notif" (S (idCounter s));
                 notification := input; timestamp := now |} in
  showNotification input now s h =
    (Normal {| idCounter := S (idCounter s);
               notifications := notifications s ++ [item];
               modals := modals s; progress := progress s |},
     heap_after_emit UI_NOTIFICATION (notification_object item) h).
Proof. intros item. unfold showNotification, generateId, bind. by rewrite emit_spec. Qed.

Lemma openModal_run (input : ModalInput) (s : t) (h : Heap) :
  let item := {| modal_id := generated "modal" (S (idCounter s)); modal := input |} in
  openModal input s h =
    (Normal {| idCounter := S (idCounter s); notifications := notifications s;
               modals := modals s ++ [item]; progress := progress s |},
     heap_after_emit UI_MODAL_OPEN (modal_object item) h).
Proof. intros item. unfold openModal, generateId, bind. by rewrite emit_spec. Qed.

Lemma closeModal_run (mid : string) (s : t) (h : Heap) :
  closeModal mid s h =
    (Normal {| idCounter := idCounter s; notifications := notifications s;
               modals := List.filter (fun m => negb (String.eqb (modal_id m) mid))
                           (modals s);
               progress := progress s |},
     heap_after_emit UI_MODAL_CLOSE (PObj [("id", PStr mid)]) h).
Proof. unfold closeModal, bind. by rewrite emit_spec. Qed.

(** The ids of the tasks after [updateProgress(id, updates)]. *)
Lemma task_ids_updateProgress (tid : string) (u : ProgressUpdates) (s : t) :
  map task_id (progress (updateProgress tid u s)) =
    map (fun i => if String.eqb i tid then default i (new_id u) else i)
      (map task_id (progress s)).
Proof.
  unfold updateProgress. cbn [progress].
  induction (progress s) as [|p l IH]; [done|]. cbn [map]. rewrite IH. f_equal.
  by destruct (String.eqb (task_id p) tid).
Qed.

Lemma map_same {A} (f : A -> A) (l : list A) :
  (forall x, x ∈ l -> f x = x) -> map f l = l.
Proof.
  induction l as [|x l IH]; [done|]. intros H. cbn [map].
  rewrite H by left. rewrite IH; [done|]. intros y Hy. apply H. by right.
Qed.

(** One action that renames no task: it returns, the ids stay in order,
    and the counter does not go back. *)
Lemma ids_ok_perform (c : Call) (s : t) (h : Heap) :
  renames c = false ->
  ids_ok s ->
  exists s' h',
    perform s c h = (Normal s', h') /\ ids_ok s' /\ idCounter s <= idCounter s'.
Proof.
  intros Hc (Hn & Hm & Hp).
  destruct c as [input now|nid|input|mid|input|tid u|tid|]; cbn [perform].
  - rewrite showNotification_run. eexists _, _. split; [reflexivity|].
    unfold ids_ok. cbn [idCounter notifications modals progress]. split; [|lia].
    rewrite map_app. cbn [map notif_id]. split; [by apply generated_below_snoc|].
    split; eapply generated_below_mono; try eassumption; lia.
  - eexists _, _. split; [reflexivity|]. split; [|done].
    unfold ids_ok, dismissNotification. cbn [idCounter notifications modals progress].
    split; [by apply generated_below_filter|done].
  - rewrite openModal_run. eexists _, _. split; [reflexivity|].
    unfold ids_ok. cbn [idCounter notifications modals progress]. split; [|lia].
    rewrite map_app. cbn [map modal_id].
    split; [eapply generated_below_mono; try eassumption; lia|].
    split; [by apply generated_below_snoc|].
    eapply generated_below_mono; try eassumption; lia.
  - rewrite closeModal_run. eexists _, _. split; [reflexivity|]. split; [|done].
    unfold ids_ok. cbn [idCounter notifications modals progress].
    split; [done|]. split; [by apply generated_below_filter|done].
  - eexists _, _. split; [reflexivity|].
    unfold ids_ok, addProgress, generateId.
    cbn [snd idCounter notifications modals progress]. split; [|lia].
    rewrite map_app. cbn [map task_id].
    split; [eapply generated_below_mono; try eassumption; lia|].
    split; [eapply generated_below_mono; try eassumption; lia|].
    by apply generated_below_snoc.
  - eexists _, _. split; [reflexivity|]. split; [|done].
    unfold ids_ok. rewrite task_ids_updateProgress.
    cbn [renames] in Hc. destruct (new_id u); [discriminate Hc|]. cbn [default].
    rewrite map_same; [done|]. intros i _. by destruct (String.eqb i tid).
  - eexists _, _. split; [reflexivity|]. split; [|done].
    unfold ids_ok, removeProgress. cbn [idCounter notifications modals progress].
    split; [done|]. split; [done|]. by apply generated_below_filter.
  - eexists _, _. split; [reflexivity|]. split; [|done].
    unfold ids_ok, reset. cbn [idCounter notifications modals progress map].
    repeat split; try apply NoDup_nil_2; apply Forall_nil_2.
Qed.

Lemma ids_ok_perform_all (calls : list Call) :
  forall (s : t) (h : Heap),
    Forall (fun c => renames c = false) calls ->
    ids_ok s ->
    exists s' h',
      perform_all calls s h = (Normal s', h') /\ ids_ok s' /\ idCounter s <= idCounter s'.
Proof.
  induction calls as [|c calls IH]; intros s h Hcalls Hok.
  - exists s, h. split; [done|]. split; [done|lia].
  - apply Forall_cons in Hcalls as [Hc Hcalls].
    destruct (ids_ok_perform c s h Hc Hok) as (s1 & h1 & Hrun & Hok1 & Hle1).
    destruct (IH s1 h1 Hcalls Hok1) as (s' & h' & Hrest & Hok' & Hle').
    exists s', h'. split; [|split; [done|lia]].
    cbn [perform_all]. unfold bind. by rewrite Hrun.
Qed.

Lemma ids_ok_new : ids_ok new.
Proof. repeat split; try apply NoDup_nil_2; apply Forall_nil_2. Qed.

(** X26.  The ids that [generateId] hands out are not used twice.  After
    any history of [showNotification], [dismissNotification],
    [openModal], [closeModal], [addProgress], [updateProgress] without an
    [id] among the updates, [removeProgress] and [reset], with any
    subscribers on the bus: no action has thrown, the notifications, the
    modals and the tasks each carry pairwise distinct ids, and the id
    that the next action generates is carried by no item.  [reset()]
    does not put the counter back, so this also holds for items created
    before and after a reset. *)
Theorem X26_generated_ids_are_not_reused (calls : list Call) (s : t) (h : Heap) :
  ids_ok s ->
  Forall (fun c => renames c = false) calls ->
  exists s' h',
    perform_all calls s h = (Normal s', h') /\
    ids_ok s' /\
    idCounter s <= idCounter s' /\
    NoDup (map notif_id (notifications s')) /\
    NoDup (map modal_id (modals s')) /\
    NoDup (map task_id (progress s')) /\
    (fst (generateId "notif" s') ∉ map notif_id (notifications s')) /\
    (fst (generateId "modal" s') ∉ map modal_id (modals s')) /\
    (forall input, fst (addProgress input s') ∉ map task_id (progress s')).
Proof.
  intros Hok Hcalls.
  destruct (ids_ok_perform_all calls s h Hcalls Hok) as (s' & h' & Hrun & Hok' & Hle).
  exists s', h'. split; [done|]. split; [done|]. split; [done|].
  destruct Hok' as (Hn & Hm & Hp).
  split; [apply Hn|]. split; [apply Hm|]. split; [apply Hp|].
  cbn [generateId fst].
  split; [by apply generated_below_fresh|].
  split; [by apply generated_below_fresh|].
  intros input. unfold addProgress. cbn [generateId fst]. by apply generated_below_fresh.
Qed.

(** X26 at a concrete input: on a freshly loaded store a task is added,
    a notification shown, the store reset and another task added. *)
Lemma X26_generated_ids_are_not_reused_witness :
  let job := {| task_label := "job"; task_progress := 0%Z; status := Pending |} in
  let note := {| title := "t"; message := "m"; type := NInfo; duration := None |} in
  let calls := [AddProgress job; ShowNotification note 5%Z; Reset; AddProgress job;
                UpdateProgress "progress_3"
                  {| new_id := None; new_label := None; new_progress := Some 50%Z;
                     new_status := Some Running |}] in
  (ids_ok new /\ Forall (fun c => renames c = false) calls) /\
  exists s' h',
    perform_all calls new fresh_heap = (Normal s', h') /\
    NoDup (map task_id (progress s')).
Proof.
  intros job note calls.
  assert (Hcalls : Forall (fun c => renames c = false) calls) by (repeat constructor).
  split; [split; [exact ids_ok_new | exact Hcalls]|].
  destruct (X26_generated_ids_are_not_reused calls new fresh_heap ids_ok_new Hcalls)
    as (s' & h' & Hrun & _ & _ & _ & _ & Hp & _).
  exists s', h'. split; [exact Hrun | exact Hp].
Defined.

(** X27.  [updateProgress(id, updates)] neither adds nor removes a task.
    With an id that no task carries it changes nothing.  The properties
    that the updates leave out keep their values, and updates without an
    [id] keep the ids of all tasks; updates with an [id] give that id to
    every task that carried the first one, whether or not another task
    has it already. *)
Theorem X27_updateProgress (tid : string) (u : ProgressUpdates) (s : t) :
  length (progress (updateProgress tid u s)) = length (progress s) /\
  (tid ∉ map task_id (progress s) -> updateProgress tid u s = s) /\
  map task_id (progress (updateProgress tid u s)) =
    map (fun i => if String.eqb i tid then default i (new_id u) else i)
      (map task_id (progress s)) /\
  (new_id u = None ->
   map task_id (progress (updateProgress tid u s)) = map task_id (progress s)) /\
  (forall p, p ∈ progress s -> task_id p <> tid -> p ∈ progress (updateProgress tid u s)) /\
  (forall p, p ∈ progress s -> task_id p = tid ->
     exists q, q ∈ progress (updateProgress tid u s) /\
       task_id q = default tid (new_id u) /\
       task_label (task q) = default (task_label (task p)) (new_label u) /\
       task_progress (task q) = default (task_progress (task p)) (new_progress u) /\
       status (task q) = default (status (task p)) (new_status u)).
Proof.
  split; [unfold updateProgress; cbn [progress]; apply length_map|].
  split.
  { intros Hout. unfold updateProgress. destruct s as [c ns ms ps]. cbn in *. f_equal.
    apply map_same. intros p Hp. destruct (String.eqb (task_id p) tid) eqn:E; [|done].
    apply String.eqb_eq in E. exfalso. apply Hout.
    apply list_elem_of_In, in_map_iff. exists p. split; [done|]. by apply list_elem_of_In. }
  split; [apply task_ids_updateProgress|].
  split.
  { intros Hnone. rewrite task_ids_updateProgress, Hnone. cbn [default].
    apply map_same. intros i _. by destruct (String.eqb i tid). }
  split.
  - intros p Hp Hne. unfold updateProgress. cbn [progress].
    apply list_elem_of_In, in_map_iff. exists p. split; [|by apply list_elem_of_In].
    apply String.eqb_neq in Hne. by rewrite Hne.
  - intros p Hp <-. exists (apply_updates p u). split; [|done].
    unfold updateProgress. cbn [progress].
    apply list_elem_of_In, in_map_iff. exists p. split; [|by apply list_elem_of_In].
    by rewrite String.eqb_refl.
Qed.

(** X28.  After any history of store actions in which no
    [updateProgress] carried an [id] among its updates, the id that
    [addProgress] returns addresses the new task and no other: no task
    in the list carries it, the new task is the last one,
    [updateProgress] with it changes the new task only, and
    [removeProgress] with it gives the earlier list back. *)
Theorem X28_addProgress_id_addresses_new_task
    (calls : list Call) (h : Heap) (input : ProgressInput) (u : ProgressUpdates) :
  Forall (fun c => renames c = false) calls ->
  exists s h',
    perform_all calls new h = (Normal s, h') /\
    let tid := fst (addProgress input s) in
    let s1 := snd (addProgress input s) in
    (tid ∉ map task_id (progress s)) /\
    progress s1 = progress s ++ [{| task_id := tid; task := input |}] /\
    progress (updateProgress tid u s1) =
      progress s ++ [apply_updates {| task_id := tid; task := input |} u] /\
    progress (removeProgress tid s1) = progress s.
Proof.
  intros Hcalls.
  destruct (ids_ok_perform_all calls new h Hcalls ids_ok_new)
    as (s & h' & Hrun & (_ & _ & Hp) & _).
  exists s, h'. split; [done|]. intros tid s1.
  assert (Hfresh : tid ∉ map task_id (progress s)) by by apply generated_below_fresh.
  assert (Hother : forall p, p ∈ progress s -> String.eqb (task_id p) tid = false).
  { intros p Hin. apply String.eqb_neq. intros E. apply Hfresh.
    apply list_elem_of_In, in_map_iff. exists p. split; [done|]. by apply list_elem_of_In. }
  split; [done|]. split; [done|].
  subst s1. unfold addProgress, generateId, updateProgress, removeProgress.
  cbn [snd progress]. fold tid. split.
  - rewrite map_app. cbn [map task_id]. rewrite String.eqb_refl. f_equal.
    apply map_same. intros p Hin. by rewrite (Hother p Hin).
  - rewrite List.filter_app. cbn [List.filter task_id]. rewrite String.eqb_refl.
    cbn [negb]. rewrite app_nil_r.
    apply forallb_filter_id, forallb_forall. intros p Hin.
    by rewrite (Hother p), ?negb_true_iff; [|apply list_elem_of_In].
Qed.

(** X28 at a concrete input: two tasks are added, the first is removed
    and a notification is shown; the task added next gets the id
    ["progress_4"], and updating or removing it leaves the task
    ["progress_2"] as it is. *)
Lemma X28_addProgress_id_addresses_new_task_witness :
  let job (l : string) := {| task_label := l; task_progress := 0%Z; status := Pending |} in
  let note := {| title := "t"; message := "m"; type := NInfo; duration := None |} in
  let finished := {| new_id := None; new_label := None; new_progress := Some 100%Z;
                     new_status := Some Completed |} in
  let calls := [AddProgress (job "a"); AddProgress (job "b");
                RemoveProgress "progress_1"; ShowNotification note 5%Z] in
  Forall (fun c => renames c = false) calls /\
  exists s h',
    perform_all calls new fresh_heap = (Normal s, h') /\
    progress s = [{| task_id := "progress_2"; task := job "b" |}] /\
    fst (addProgress (job "c") s) = "progress_4" /\
    progress (updateProgress "progress_4" finished (snd (addProgress (job "c") s))) =
      [{| task_id := "progress_2"; task := job "b" |};
       {| task_id := "progress_4";
          task := {| task_label := "c"; task_progress := 100%Z; status := Completed |} |}] /\
    progress (removeProgress "progress_4" (snd (addProgress (job "c") s))) =
      [{| task_id := "progress_2"; task := job "b" |}].
Proof.
  intros job note finished calls.
  assert (Hcalls : Forall (fun c => renames c = false) calls) by (repeat constructor).
  split; [exact Hcalls|].
  destruct (X28_addProgress_id_addresses_new_task calls fresh_heap (job "c") finished Hcalls)
    as (s & h' & Hrun & _ & _ & Hupdate & Hremove).
  exists s, h'. split; [exact Hrun|].
  assert (Hs : progress s = [{| task_id := "progress_2"; task := job "b" |}] /\
               idCounter s = 3).
  { vm_compute in Hrun. injection Hrun as <- _. by split. }
  destruct Hs as [Hprogress Hcounter].
  split; [exact Hprogress|].
  assert (Hid : fst (addProgress (job "c") s) = "progress_4").
  { unfold addProgress, generateId. cbn [fst]. rewrite Hcounter. reflexivity. }
  rewrite Hid, Hprogress in Hupdate, Hremove.
  split; [exact Hid|]. split; [exact Hupdate | exact Hremove].
Defined.

End UiItemFacts.
